(** * orcoos: the NoSQL adapter (lib/nosqldb-adapter/client.js)

    A shallow embedding of the query compiler, the row marshaller and the
    batched find cursor of [client.js], and the properties of the
    specification that concern them.

    JavaScript values are modelled by the inductive type [value]; a JS object
    is the list of its own enumerable properties in insertion order; the
    bindings object and the prepared-statement cache, which the code uses as
    maps, are [gmap]s.  Functions that can throw return a [Res]. *)

From Stdlib Require Import Ascii String ZArith Lia.
From stdpp Require Import base strings gmap pretty list.

Set Default Proof Using "Type".

(** ** Strings *)

Module Str.

Definition empty : string := EmptyString.
Definition dquote : string := String "034"%char EmptyString.

(** [s.startsWith(p)] *)
Definition startsWith (p s : string) : bool := String.prefix p s.

(** [s.substring(n)] *)
Definition substring_from (n : nat) (s : string) : string :=
  String.substring n (String.length s - n) s.

(** [s.includes(c)] for a one-character needle *)
Fixpoint includes (c : ascii) (s : string) : bool :=
  match s with
  | EmptyString => false
  | String d s' => if Ascii.eqb c d then true else includes c s'
  end.

(** [s.replace(c, d)] with a string pattern: the first occurrence only *)
Fixpoint replace_first (c d : ascii) (s : string) : string :=
  match s with
  | EmptyString => EmptyString
  | String a s' => if Ascii.eqb a c then String d s' else String a (replace_first c d s')
  end.

(** [s.split(c)]: never empty, the empty string gives one empty segment *)
Fixpoint split (c : ascii) (s : string) : list string :=
  match s with
  | EmptyString => [EmptyString]
  | String a s' =>
      if Ascii.eqb a c then EmptyString :: split c s'
      else match split c s' with
           | seg :: segs => String a seg :: segs
           | [] => [String a EmptyString]
           end
  end.

(** [l.join(sep)] *)
Fixpoint join (sep : string) (l : list string) : string :=
  match l with
  | [] => EmptyString
  | [x] => x
  | x :: l' => x +:+ sep +:+ join sep l'
  end.

(** [s.indexOf(c)], [None] for -1 *)
Fixpoint indexOf (c : ascii) (s : string) : option nat :=
  match s with
  | EmptyString => None
  | String a s' => if Ascii.eqb a c then Some 0 else S <$> indexOf c s'
  end.

(** [s.lastIndexOf(c)], [None] for -1 *)
Fixpoint lastIndexOf (c : ascii) (s : string) : option nat :=
  match s with
  | EmptyString => None
  | String a s' =>
      match lastIndexOf c s' with
      | Some i => Some (S i)
      | None => if Ascii.eqb a c then Some 0 else None
      end
  end.

Definition is_digit (a : ascii) : bool :=
  let n := nat_of_ascii a in (48 <=? n) && (n <=? 57).

Fixpoint all_digits (s : string) : bool :=
  match s with
  | EmptyString => true
  | String a s' => is_digit a && all_digits s'
  end.

(** The value of a string of decimal digits *)
Fixpoint digits_value (acc : Z) (s : string) : Z :=
  match s with
  | EmptyString => acc
  | String a s' => digits_value (10 * acc + Z.of_nat (nat_of_ascii a - 48)) s'
  end.

(** The characters of a string as one-character strings, [s[i]] *)
Fixpoint chars (s : string) : list string :=
  match s with
  | EmptyString => []
  | String a s' => String a EmptyString :: chars s'
  end.

Definition is_empty (s : string) : bool :=
  match s with EmptyString => true | _ => false end.

End Str.

Arguments Str.startsWith : simpl never.
Arguments Str.substring_from : simpl never.

(** ** JavaScript values

    Numbers are the integers and [NaN] (fractions and infinities do not occur
    in what follows).  [VNum n] prints as the decimal digits of [n]: that is
    what JavaScript prints for the integers a double holds exactly, up to
    [Number.MAX_SAFE_INTEGER]; beyond them a double rounds, and from 1e21 on
    it prints in exponent form.  A [Date] is carried by its two renderings,
    [toISOString()] and [toString()]; an [ObjectId] by its hexadecimal
    string. *)

#[warnings="-register-all"]
Inductive value : Type :=
| VUndef
| VNull
| VBool (b : bool)
| VNum (n : Z)
| VNaN
| VStr (s : string)
| VDate (iso text : string)
| VObjectId (hex : string)
| VArr (elems : list value)
| VObj (props : list (string * value)).

(** Induction over the nesting of arrays and objects. *)
Section value_induction.
Variable P : value -> Prop.
Hypothesis Hundef : P VUndef.
Hypothesis Hnull : P VNull.
Hypothesis Hbool : forall b, P (VBool b).
Hypothesis Hnum : forall n, P (VNum n).
Hypothesis Hnan : P VNaN.
Hypothesis Hstr : forall s, P (VStr s).
Hypothesis Hdate : forall i t, P (VDate i t).
Hypothesis Hoid : forall h, P (VObjectId h).
Hypothesis Harr : forall vs, Forall P vs -> P (VArr vs).
Hypothesis Hobj : forall ps, Forall (fun kv => P (snd kv)) ps -> P (VObj ps).

Fixpoint value_nested_ind (v : value) : P v :=
  match v with
  | VUndef => Hundef
  | VNull => Hnull
  | VBool b => Hbool b
  | VNum n => Hnum n
  | VNaN => Hnan
  | VStr s => Hstr s
  | VDate i t => Hdate i t
  | VObjectId h => Hoid h
  | VArr vs =>
      Harr vs ((fix go (l : list value) : Forall P l :=
                  match l with
                  | [] => List.Forall_nil _
                  | x :: l' => List.Forall_cons _ x l' (value_nested_ind x) (go l')
                  end) vs)
  | VObj ps =>
      Hobj ps ((fix go (l : list (string * value)) : Forall (fun kv => P (snd kv)) l :=
                  match l with
                  | [] => List.Forall_nil _
                  | (k, x) :: l' =>
                      List.Forall_cons (fun kv => P (snd kv)) (k, x) l' (value_nested_ind x) (go l')
                  end) ps)
  end.
End value_induction.

(** Errors thrown by the adapter, by the store client or by the language. *)
Inductive Err : Type :=
| UnexpectedWhereInput            (* Unexpected input value for where expression *)
| FilterNotObject                 (* Query filter must be a plain object or ObjectId *)
| UnknownTopLevelOperator (op : string)
| UnexpectedRegex
| UnexpectedProperty              (* Unexpected property value for a comparison expression *)
| ISE (prop : string)             (* "ISE prop: ..." *)
| TooManyBindings (name : string)
| OperatorNotKnown (op : string)  (* update operator *)
| ProjectionConflict              (* Projection cannot be both inclusive and exclusive *)
| SchemaNotProvided
| UnsupportedType
| ResultLimitExceeded (count : Z) (* Query results count ... more than toArray maxLimit *)
| TypeError                       (* raised by the language itself *)
| BSONError                       (* raised by the ObjectId constructor *)
| StoreError (code : nat).        (* raised by the store client *)

Inductive Res (A : Type) : Type :=
| Ok (a : A)
| Throw (e : Err).
Arguments Ok {A} a.
Arguments Throw {A} e.

Definition is_ok {A} (r : Res A) : bool :=
  match r with Ok _ => true | Throw _ => false end.

(** ** Language primitives *)

Module JS.

(** [!!v] *)
Definition is_truthy (v : value) : bool :=
  match v with
  | VUndef | VNull | VNaN => false
  | VBool b => b
  | VNum n => negb (n =? 0)%Z
  | VStr s => negb (Str.is_empty s)
  | VDate _ _ | VObjectId _ | VArr _ | VObj _ => true
  end.

(** [v instanceof Object] *)
Definition instanceof_Object (v : value) : bool :=
  match v with
  | VDate _ _ | VObjectId _ | VArr _ | VObj _ => true
  | _ => false
  end.

Definition is_string (v : value) : bool :=
  match v with VStr _ => true | _ => false end.

Definition is_number (v : value) : bool :=
  match v with VNum _ | VNaN => true | _ => false end.

(** Lookup in a property list: the first entry of that name. *)
Fixpoint obj_get (k : string) (ps : list (string * value)) : option value :=
  match ps with
  | [] => None
  | (k', v) :: ps' => if String.eqb k k' then Some v else obj_get k ps'
  end.

(** [o[k] = v]: in place when the property exists, appended otherwise. *)
Fixpoint obj_set (k : string) (v : value) (ps : list (string * value)) : list (string * value) :=
  match ps with
  | [] => [(k, v)]
  | (k', v') :: ps' => if String.eqb k k' then (k, v) :: ps' else (k', v') :: obj_set k v ps'
  end.

(** [delete o[k]] *)
Fixpoint obj_delete (k : string) (ps : list (string * value)) : list (string * value) :=
  match ps with
  | [] => []
  | (k', v') :: ps' => if String.eqb k k' then obj_delete k ps' else (k', v') :: obj_delete k ps'
  end.

(** [Object.assign(target, source)] on property lists *)
Definition obj_assign (target source : list (string * value)) : list (string * value) :=
  fold_left (fun acc kv => obj_set (fst kv) (snd kv) acc) source target.

(** Array elements with their index keys *)
Fixpoint indexed_from (i : nat) (l : list value) : list (string * value) :=
  match l with
  | [] => []
  | x :: l' => (pretty i, x) :: indexed_from (S i) l'
  end.

(** The enumerable properties a [for ... in] loop visits, in order; also
    what [Object.keys] and the spread [{...v}] see. *)
Definition enumerable (v : value) : list (string * value) :=
  match v with
  | VObj ps => ps
  | VArr vs => indexed_from 0 vs
  | VStr s => indexed_from 0 (VStr <$> Str.chars s)
  | _ => []
  end.

(** [v[k]] for a value that is not null or undefined *)
Definition get_prop (v : value) (k : string) : value :=
  match v with
  | VObj ps => default VUndef (obj_get k ps)
  | VArr vs =>
      if String.eqb k "length" then VNum (Z.of_nat (length vs))
      else default VUndef (obj_get k (indexed_from 0 vs))
  | VStr s =>
      if String.eqb k "length" then VNum (Z.of_nat (String.length s))
      else default VUndef (obj_get k (indexed_from 0 (VStr <$> Str.chars s)))
  | _ => VUndef
  end.

(** String conversion, as in ['' + v] *)
Fixpoint to_string (v : value) : string :=
  match v with
  | VUndef => "undefined"
  | VNull => "null"
  | VBool true => "true"
  | VBool false => "false"
  | VNum n => pretty n
  | VNaN => "NaN"
  | VStr s => s
  | VDate _ text => text
  | VObjectId hex => hex
  | VArr vs =>
      Str.join ","
        ((fix elems (l : list value) : list string :=
            match l with
            | [] => []
            | x :: l' =>
                match x with
                | VUndef | VNull => EmptyString
                | _ => to_string x
                end :: elems l'
            end) vs)
  | VObj _ => "[object Object]"
  end.

Definition hex_digit (n : nat) : ascii :=
  ascii_of_nat (if n <? 10 then 48 + n else 87 + n).

(** One character inside a JSON string literal *)
Definition json_escape_char (a : ascii) : string :=
  let n := nat_of_ascii a in
  if n =? 34 then String "\" Str.dquote
  else if n =? 92 then "\\"
  else if n =? 8 then "\b"
  else if n =? 9 then "\t"
  else if n =? 10 then "\n"
  else if n =? 12 then "\f"
  else if n =? 13 then "\r"
  else if n <? 32 then "\u00" +:+ String (hex_digit (n / 16)) (String (hex_digit (n mod 16)) EmptyString)
  else String a EmptyString.

Fixpoint json_escape (s : string) : string :=
  match s with
  | EmptyString => EmptyString
  | String a s' => json_escape_char a +:+ json_escape s'
  end.

Definition json_quote (s : string) : string :=
  Str.dquote +:+ json_escape s +:+ Str.dquote.

(** [JSON.stringify(v)]; [None] is the result [undefined].  A number is
    printed by its decimal digits, which is right up to
    [Number.MAX_SAFE_INTEGER]. *)
Fixpoint JSON_stringify (v : value) : option string :=
  match v with
  | VUndef => None
  | VNull | VNaN => Some "null"
  | VBool true => Some "true"
  | VBool false => Some "false"
  | VNum n => Some (pretty n)
  | VStr s => Some (json_quote s)
  | VDate iso _ => Some (json_quote iso)
  | VObjectId hex => Some (json_quote hex)
  | VArr vs =>
      Some ("[" +:+
        Str.join ","
          ((fix elems (l : list value) : list string :=
              match l with
              | [] => []
              | x :: l' => default "null" (JSON_stringify x) :: elems l'
              end) vs) +:+ "]")
  | VObj ps =>
      Some ("{" +:+
        Str.join ","
          ((fix members (l : list (string * value)) : list string :=
              match l with
              | [] => []
              | (k, x) :: l' =>
                  match JSON_stringify x with
                  | Some js => (json_quote k +:+ ":" +:+ js) :: members l'
                  | None => members l'
                  end
              end) ps) +:+ "}")
  end.

(** The numeric value of a string, for the integers written in decimal
    digits with an optional minus sign.  Every other string gives [None]:
    the numerals in another notation (white space around the digits, a plus
    sign, a fraction, an exponent, a radix prefix) are read as if they were
    no numerals. *)
Definition string_to_number (s : string) : option Z :=
  match s with
  | EmptyString => Some 0%Z
  | String "-" s' =>
      if negb (Str.is_empty s') && Str.all_digits s'
      then Some (- Str.digits_value 0 s')%Z else None
  | _ => if Str.all_digits s then Some (Str.digits_value 0 s) else None
  end.

(** [v == k] for a number [k] (abstract equality) *)
Definition loose_eq_num (v : value) (k : Z) : bool :=
  match v with
  | VNum n => (n =? k)%Z
  | VBool b => ((if b then 1 else 0) =? k)%Z
  | VStr s => match string_to_number s with Some n => (n =? k)%Z | None => false end
  | VUndef | VNull | VNaN => false
  | VDate _ _ | VObjectId _ | VArr _ | VObj _ =>
      match string_to_number (to_string v) with Some n => (n =? k)%Z | None => false end
  end.

(** [v == s] for a string [s] (abstract equality) *)
Definition loose_eq_str (v : value) (s : string) : bool :=
  match v with
  | VStr t => String.eqb t s
  | VNum n => match string_to_number s with Some k => (n =? k)%Z | None => false end
  | VBool b =>
      match string_to_number s with Some k => ((if b then 1 else 0) =? k)%Z | None => false end
  | VUndef | VNull | VNaN => false
  | VDate _ _ | VObjectId _ | VArr _ | VObj _ => String.eqb (to_string v) s
  end.

(** [v === w] on the values that the code compares strictly *)
Definition is_null (v : value) : bool :=
  match v with VNull => true | _ => false end.

(** [v != null] *)
Definition not_nullish (v : value) : bool :=
  match v with VNull | VUndef => false | _ => true end.

End JS.

(** ** The collection: constants and key schema *)

Definition OBJECTID_ENABLED : bool := false.
Definition OBJECTID_PREFIX : string := "_obid_".
Definition MAX_QUERY_RESULTS_LIMIT : Z := 10000.
Definition MAX_BINDING_NAME : nat := 1000.
Definition KVID : string := "kvid".
Definition T : string := "$t".

(** The fields of an [OrcoosCollection] that the compiler reads. *)
Record Collection : Type := {
  _hasCompositeKeys : bool;
  _primaryKeyList : list string
}.

(** A collection as the class initialises it: one key column, [kvid]. *)
Definition simple_collection : Collection :=
  {| _hasCompositeKeys := false; _primaryKeyList := [KVID] |}.

(** The bindings object: bound-variable name to bound value.  The callers that
    build UPDATE and DELETE statements pass [undefined], here [None]. *)
Abbreviation Bindings := (gmap string value).

(** ** Literals and bindings *)

(** [_computeLiteral(value)] *)
Definition _computeLiteral (v : value) : string :=
  if negb (JS.is_truthy v) then "NULL"
  else default "undefined" (JS.JSON_stringify v).

(** [bindings[name]] read as a condition *)
Definition binding_taken (b : Bindings) (name : string) : bool :=
  match b !! name with
  | Some v => JS.is_truthy v
  | None => false
  end.

(** The loop [for (let i = 2; i < MAX_BINDING_NAME; i++)] of [_storeBinding],
    with [n] iterations left and the counter at [i]. *)
Fixpoint _storeBinding_from (n i : nat) (b : Bindings) (name : string) (v : value)
  : Res (string * Bindings) :=
  match n with
  | 0 => Throw (TooManyBindings name)
  | S n' =>
      if binding_taken b (name +:+ pretty i)
      then _storeBinding_from n' (S i) b name v
      else Ok (name +:+ pretty i, <[name +:+ pretty i := v]> b)
  end.

(** [_storeBinding(bindings, name, value)] *)
Definition _storeBinding (bindings : option Bindings) (name : string) (v : value)
  : Res (string * option Bindings) :=
  match bindings with
  | None => Ok (_computeLiteral v, None)
  | Some b =>
      let name := "$" +:+ Str.replace_first "." "_" name in
      if negb (binding_taken b name) then Ok (name, Some (<[name := v]> b))
      else match _storeBinding_from (MAX_BINDING_NAME - 2) 2 b name v with
           | Ok (n, b') => Ok (n, Some b')
           | Throw e => Throw e
           end
  end.

(** ** Field paths *)

(** [_isPositiveInteger(str)]: [String(Math.floor(Number(str))) === str]
    holds of the decimal numerals without sign or leading zero, as long as a
    double prints them back unchanged; the numerals beyond
    [Number.MAX_SAFE_INTEGER], which it may not, are not told apart here. *)
Definition _isPositiveInteger (s : string) : bool :=
  negb (Str.is_empty s) && Str.all_digits s &&
  (String.eqb s "0" || negb (Str.startsWith "0" s)).

(** [_computeDbProp(prop)], for a property name (the guard that throws on a
    non-string is never taken: every caller passes a key or a string). *)
Definition _computeDbProp (c : Collection) (prop : string) : string :=
  if Str.startsWith "_id" prop then
    if negb (_hasCompositeKeys c) then T +:+ "." +:+ KVID
    else T +:+ "." +:+ Str.substring_from 3 prop
  else
    let trProp :=
      fold_left (fun acc cur =>
                   if _isPositiveInteger cur then acc +:+ "[" +:+ cur +:+ "]"
                   else acc +:+ "." +:+ Str.dquote +:+ cur +:+ Str.dquote)
                (Str.split "." prop) EmptyString in
    T +:+ trProp +:+ "[]".

(** [_computeUpdateSetPutProp(prop, value)] for a string [prop] *)
Definition _computeUpdateSetPutProp (prop : string) (v : string) : string :=
  fold_right (fun cur acc => "{" +:+ Str.dquote +:+ cur +:+ Str.dquote +:+ ": " +:+ acc +:+ "}")
             v (Str.split "." prop).

(** [_computeUpdateRenamePutProp(prop, renamedProp, value)]; the new name is
    whatever the update document holds, and the inner call returns
    [undefined] when it is not a string. *)
Definition _computeUpdateRenamePutProp (c : Collection) (prop : string) (renamedProp : value)
    (v : string) : string :=
  let newProp :=
    match Str.lastIndexOf "." prop with
    | Some li => String.substring 0 li prop
    | None => EmptyString
    end in
  _computeDbProp c newProp +:+ " " +:+
  match renamedProp with
  | VStr r => _computeUpdateSetPutProp r v
  | _ => "undefined"
  end.

(** ** The update clause *)

(** The clauses of one operator: the inner [for (let setKey in update[key])]. *)
Definition update_clauses (clause : string -> value -> string) (sub : value) (acc : string)
  : string :=
  fold_left (fun s kv => s +:+ clause (fst kv) (snd kv)) (JS.enumerable sub) acc.

(** [_computeUpdateClause(update)] *)
Definition _computeUpdateClause (c : Collection) (update : value) : Res string :=
  let db := _computeDbProp c in
  let step (acc : Res string) (kv : string * value) : Res string :=
    match acc with
    | Throw e => Throw e
    | Ok updateClause =>
        let key := fst kv in
        let sub := snd kv in
        if negb (JS.instanceof_Object sub) then Throw (OperatorNotKnown key)
        else if String.eqb key "$set" then
          Ok (update_clauses (fun setKey x =>
                ", PUT " +:+ T +:+ " " +:+ _computeUpdateSetPutProp setKey (_computeLiteral x))
              sub updateClause)
        else if String.eqb key "$unset" then
          Ok (update_clauses (fun setKey _ => ", REMOVE " +:+ db setKey) sub updateClause)
        else if String.eqb key "$currentDate" then
          Ok (update_clauses (fun setKey _ =>
                ", SET " +:+ db setKey +:+ " = CAST (current_time() AS String)")
              sub updateClause)
        else if String.eqb key "$inc" then
          Ok (update_clauses (fun setKey x =>
                ", SET " +:+ db setKey +:+ " = " +:+ db setKey +:+ " + " +:+ _computeLiteral x)
              sub updateClause)
        else if String.eqb key "$min" then
          Ok (update_clauses (fun setKey x =>
                ", SET " +:+ db setKey +:+ " = " +:+
                "CASE WHEN " +:+ _computeLiteral x +:+ " < " +:+ db setKey +:+
                " THEN " +:+ _computeLiteral x +:+
                " ELSE " +:+ db setKey +:+
                " END")
              sub updateClause)
        else if String.eqb key "$max" then
          Ok (update_clauses (fun setKey x =>
                ", SET " +:+ db setKey +:+ " = " +:+
                "CASE WHEN " +:+ _computeLiteral x +:+ " > " +:+ db setKey +:+
                " THEN " +:+ _computeLiteral x +:+
                " ELSE " +:+ db setKey +:+
                " END")
              sub updateClause)
        else if String.eqb key "$mul" then
          Ok (update_clauses (fun setKey x =>
                ", SET " +:+ db setKey +:+
                " = " +:+ db setKey +:+ " * " +:+ _computeLiteral x)
              sub updateClause)
        else if String.eqb key "$rename" then
          Ok (update_clauses (fun setKey x =>
                ", PUT " +:+ _computeUpdateRenamePutProp c setKey x (db setKey) +:+
                ", REMOVE " +:+ db setKey)
              sub updateClause)
        else Throw (OperatorNotKnown key)
    end in
  match fold_left step (JS.enumerable update) (Ok EmptyString) with
  | Throw e => Throw e
  | Ok updateClause =>
      Ok (if Str.startsWith "," updateClause then Str.substring_from 1 updateClause
          else updateClause)
  end.

(** ** The filter compiler

    Compilation threads the bindings object through every call. *)

Definition Comp (A : Type) : Type := option Bindings -> Res (A * option Bindings).

Definition ret {A} (a : A) : Comp A := fun b => Ok (a, b).
Definition throw {A} (e : Err) : Comp A := fun _ => Throw e.
Definition bind {A B} (m : Comp A) (k : A -> Comp B) : Comp B :=
  fun b => match m b with
           | Ok (a, b') => k a b'
           | Throw e => Throw e
           end.

Notation "'do' x <- m ; k" := (bind m (fun x => k))
  (at level 10, x name, m at level 100, k at level 200).

(** [l.map(f)] when [f] stores bindings *)
Fixpoint mapC {A B} (f : A -> Comp B) (l : list A) : Comp (list B) :=
  match l with
  | [] => ret []
  | x :: l' => do y <- f x; do ys <- mapC f l'; ret (y :: ys)
  end.

Definition store (name : string) (v : value) : Comp string :=
  fun b => _storeBinding b name v.

(** [_isEmptyObject(obj)] *)
Definition _isEmptyObject (v : value) : bool :=
  match v with
  | VObj [] | VArr [] => true
  | _ => false
  end.

(** [_computeWherePk(bindings, _id)] *)
Definition _computeWherePk (c : Collection) (_id : value) : Comp string :=
  if negb (_hasCompositeKeys c) then
    do n <- store "id" (VStr (JS.to_string _id));
    ret (T +:+ "." +:+ KVID +:+ " = " +:+ n)
  else
    do parts <- mapC (fun v => do n <- store ("id_" +:+ v) (JS.get_prop _id v);
                               ret (T +:+ "." +:+ v +:+ " = " +:+ n))
                     (List.filter (fun v => JS.is_truthy (JS.get_prop _id v)) (_primaryKeyList c));
    ret (Str.join " AND " parts).

(** The [$in] / [$nin] loop over the operand array: at index [i], with the
    text of the list so far, whether a [null] was seen, and the number of
    values bound. *)
Fixpoint in_list (prop : string) (elems : list value) (i : nat)
    (inRes : string) (containsNull : bool) (inValCount : nat)
  : Comp (string * bool * nat) :=
  match elems with
  | [] => ret (inRes, containsNull, inValCount)
  | x :: rest =>
      if JS.is_null x then in_list prop rest (S i) inRes true inValCount
      else
        let inRes := if (if containsNull then 1 else 0) <? i then inRes +:+ "," else inRes in
        do n <- store prop x;
        in_list prop rest (S i) (inRes +:+ n) containsNull (S inValCount)
  end.

(** The contribution of [$in] / [$nin] to [lres]. *)
Definition comp_in (c : Collection) (prop firstProp : string) (operand : value) : Comp string :=
  match operand with
  | VArr ((_ :: _) as elems) =>
      let kvProp := _computeDbProp c prop in
      do r <- in_list prop elems 0 " IN (" false 0;
      let '(inRes, containsNull, inValCount) := r in
      let inRes := inRes +:+ ")" in
      let body :=
        if String.eqb firstProp "$in" then
          (if 0 <? inValCount
           then "(" +:+ kvProp +:+ inRes +:+ " OR EXISTS (" +:+ kvProp +:+ "[$element" +:+ inRes +:+ "])"
           else EmptyString) +:+
          (if containsNull then " OR NOT EXISTS " +:+ kvProp else EmptyString)
        else
          (if 0 <? inValCount
           then " NOT (" +:+ kvProp +:+ inRes +:+ " OR EXISTS (" +:+ kvProp +:+ "[$element" +:+ inRes +:+ "])"
           else EmptyString) +:+
          (if containsNull then " OR EXISTS " +:+ kvProp else EmptyString) in
      ret (body +:+ ")")
  | _ => ret EmptyString
  end.

(** [x.includes(ch)] for the [$options] of a [$regex] *)
Definition options_include (opts : value) (ch : ascii) : Res bool :=
  match opts with
  | VStr s => Ok (Str.includes ch s)
  | VArr vs =>
      Ok (existsb (fun x => match x with
                            | VStr t => String.eqb t (String ch EmptyString)
                            | _ => false
                            end) vs)
  | _ => Throw TypeError
  end.

(** The contribution of [$regex] to [lres]. *)
Definition comp_regex (c : Collection) (prop : string) (propValue operand : value) : Comp string :=
  let inner_regex := JS.get_prop operand "$regex" in
  let inner_options := JS.get_prop operand "$options" in
  if JS.instanceof_Object operand && JS.is_truthy inner_regex &&
     JS.is_truthy inner_options && JS.loose_eq_str inner_options "i" then
    do n <- store prop inner_regex;
    ret ("( regex_like(" +:+ _computeDbProp c prop +:+ ", " +:+ n +:+ ") )")
  else if JS.is_string (JS.get_prop propValue "$regex") then
    let opts := JS.get_prop propValue "$options" in
    let flag (ch : ascii) : Comp string :=
      if JS.is_truthy opts then
        match options_include opts ch with
        | Ok true => ret (String ch EmptyString)
        | Ok false => ret EmptyString
        | Throw e => throw e
        end
      else ret EmptyString in
    do oi <- flag "i"%char;
    do os <- flag "s"%char;
    do n <- store prop (JS.get_prop propValue "$regex");
    ret ("( regex_like(" +:+ _computeDbProp c prop +:+ ", " +:+ n +:+ "," +:+
         Str.dquote +:+ oi +:+ os +:+ Str.dquote +:+ ") )")
  else throw UnexpectedRegex.

(** One operator of a field's operator object: the [switch (firstProp)]. *)
Definition comp_operator (c : Collection) (prop : string) (propValue : value)
    (firstProp : string) (operand : value) : Comp string :=
  let cmp (op : string) : Comp string :=
    do n <- store prop operand;
    ret ("(" +:+ _computeDbProp c prop +:+ op +:+ n +:+ ")") in
  if String.eqb firstProp "$gt" then cmp " > "
  else if String.eqb firstProp "$gte" then cmp " >= "
  else if String.eqb firstProp "$lt" then cmp " < "
  else if String.eqb firstProp "$lte" then cmp " <= "
  else if String.eqb firstProp "$ne" then cmp " != "
  else if String.eqb firstProp "$eq" then cmp " = "
  else if String.eqb firstProp "$exists" then
    ret ("(" +:+ (if JS.loose_eq_num operand 0 then "NOT " else EmptyString) +:+
         "EXISTS " +:+ T +:+ "." +:+ Str.dquote +:+ prop +:+ Str.dquote +:+ ")")
  else if String.eqb firstProp "$options" then ret EmptyString
  else if String.eqb firstProp "$regex" then comp_regex c prop propValue operand
  else if String.eqb firstProp "$in" || String.eqb firstProp "$nin" then
    comp_in c prop firstProp operand
  else if String.eqb firstProp "$size" then
    ret ("( size([" +:+ _computeDbProp c prop +:+ "]) = " +:+
         JS.to_string (JS.get_prop propValue "$size") +:+ " )")
  else throw UnexpectedProperty.

(** The loop [for (const firstProp in propValue)] building [lres]. *)
Fixpoint comp_operators (c : Collection) (prop : string) (propValue : value)
    (ops : list (string * value)) (lres : string) : Comp string :=
  match ops with
  | [] => ret lres
  | (firstProp, operand) :: ops' =>
      let lres :=
        if negb (Str.is_empty lres) && negb (String.eqb firstProp "$options")
        then lres +:+ " AND " else lres in
      do s <- comp_operator c prop propValue firstProp operand;
      comp_operators c prop propValue ops' (lres +:+ s)
  end.

(** A property whose name is not an operator: what it appends to [res]. *)
Definition comp_field (c : Collection) (prop : string) (propValue : value) : Comp string :=
  if JS.instanceof_Object propValue && (0 <? length (JS.enumerable propValue)) then
    comp_operators c prop propValue (JS.enumerable propValue) EmptyString
  else
    match propValue with
    | VStr _ | VDate _ _ | VNum _ | VNaN | VObjectId _ =>
        if String.eqb prop "_id" then
          if _hasCompositeKeys c then
            do parts <- mapC (fun v => do n <- store (prop +:+ "_" +:+ v) propValue;
                                       ret ("t." +:+ v +:+ " = " +:+ n))
                             (_primaryKeyList c);
            ret ("(" +:+ Str.join " AND " parts +:+ ")")
          else
            do n <- store prop propValue;
            ret ("(t." +:+ KVID +:+ " = " +:+ n +:+ ")")
        else
          do n <- store prop propValue;
          ret ("(" +:+ _computeDbProp c prop +:+ " =any " +:+ n +:+ ")")
    | _ => throw (ISE prop)
    end.

Definition and_sep (res : string) : string :=
  if negb (Str.is_empty res) then res +:+ " AND " else res.

Definition comp_close (res : string) : string :=
  if Str.is_empty res then EmptyString else "(" +:+ res +:+ ")".

(** [_computeCompExp] on a value none of whose keys is an operator: a string
    or an array (their keys are indices), or a value without keys. *)
Definition comp_exp_plain (c : Collection) (compObj : value) : Comp string :=
  match compObj with
  | VObjectId hex => ret hex
  | _ =>
      do res <- (fix loop (ps : list (string * value)) (res : string) : Comp string :=
                   match ps with
                   | [] => ret res
                   | (prop, propValue) :: ps' =>
                       do s <- comp_field c prop propValue;
                       loop ps' (and_sep res +:+ s)
                   end) (JS.enumerable compObj) EmptyString;
      ret (comp_close res)
  end.

(** [_computeCompExp(compObj, bindings)].  The children of [$or], [$and],
    [$not] and [$nor] are read by index up to [propValue.length]: the elements
    of an array, the characters of a string, a [TypeError] on [null] and
    [undefined], nothing on the other values (an object with a [length] of its
    own is not modelled).  The checks [!propValue instanceof Array] never
    throw. *)
Fixpoint _computeCompExp (c : Collection) (compObj : value) {struct compObj} : Comp string :=
  match compObj with
  | VObjectId hex => ret hex
  | VObj ps =>
      do res <-
        (fix loop (ps : list (string * value)) (res : string) : Comp string :=
           match ps with
           | [] => ret res
           | (prop, propValue) :: ps' =>
               let res := and_sep res in
               let children (sep : string) : Comp string :=
                 match propValue with
                 | VArr xs =>
                     (fix each (xs : list value) (i : nat) (acc : string) : Comp string :=
                        match xs with
                        | [] => ret acc
                        | x :: xs' =>
                            do s <- _computeCompExp c x;
                            each xs' (S i) ((if 0 <? i then acc +:+ sep else acc) +:+ s)
                        end) xs 0 EmptyString
                 | VStr str =>
                     (fix each (xs : list value) (i : nat) (acc : string) : Comp string :=
                        match xs with
                        | [] => ret acc
                        | x :: xs' =>
                            do s <- comp_exp_plain c x;
                            each xs' (S i) ((if 0 <? i then acc +:+ sep else acc) +:+ s)
                        end) (VStr <$> Str.chars str) 0 EmptyString
                 | VNull | VUndef => throw TypeError
                 | _ => ret EmptyString
                 end in
               if Str.startsWith "$" prop then
                 if String.eqb prop "$or" then
                   do s <- children " OR "; loop ps' (res +:+ "(" +:+ s +:+ ")")
                 else if String.eqb prop "$and" then
                   do s <- children " AND "; loop ps' (res +:+ "(" +:+ s +:+ ")")
                 else if String.eqb prop "$not" then
                   match propValue with
                   | VArr _ => do s <- children " AND "; loop ps' (res +:+ "NOT(" +:+ s +:+ ")")
                   | _ => do s <- _computeCompExp c propValue;
                          loop ps' (res +:+ "NOT(" +:+ s +:+ ")")
                   end
                 else if String.eqb prop "$nor" then
                   do s <- children " OR "; loop ps' (res +:+ "NOT(" +:+ s +:+ ")")
                 else throw (UnknownTopLevelOperator prop)
               else
                 do s <- comp_field c prop propValue;
                 loop ps' (res +:+ s)
           end) ps EmptyString;
      ret (comp_close res)
  | _ => comp_exp_plain c compObj
  end.

(** [_computeCompStartExp(compObj, bindings)] *)
Definition _computeCompStartExp (c : Collection) (compObj : value) : Comp string :=
  if negb (JS.is_truthy compObj) || negb (JS.instanceof_Object compObj)
  then throw FilterNotObject
  else _computeCompExp c compObj.

(** [_computeWhere(filter, bindings)] *)
Definition _computeWhere (c : Collection) (filter : value) : Comp string :=
  if negb (JS.is_truthy filter) || _isEmptyObject filter then ret EmptyString
  else if negb (JS.instanceof_Object filter) then throw UnexpectedWhereInput
  else
    let _id := JS.get_prop filter "_id" in
    if JS.is_truthy _id && (JS.is_string _id || JS.instanceof_Object _id) then
      do whereExp <- _computeWherePk c _id;
      if 0 <? String.length whereExp then
        do again <- _computeWherePk c _id;
        ret (" WHERE (" +:+ again +:+ ")")
      else ret EmptyString
    else
      do cond <- _computeCompStartExp c filter;
      if Str.is_empty cond then ret EmptyString
      else ret (" WHERE " +:+ cond).

(** ** The row marshaller *)

Definition is_hex (a : ascii) : bool :=
  let n := nat_of_ascii a in
  ((48 <=? n) && (n <=? 57)) || ((97 <=? n) && (n <=? 102)) || ((65 <=? n) && (n <=? 70)).

Definition lower_hex (a : ascii) : ascii :=
  let n := nat_of_ascii a in
  if (65 <=? n) && (n <=? 70) then ascii_of_nat (n + 32) else a.

Fixpoint string_forall (p : ascii -> bool) (s : string) : bool :=
  match s with
  | EmptyString => true
  | String a s' => p a && string_forall p s'
  end.

Fixpoint string_map (f : ascii -> ascii) (s : string) : string :=
  match s with
  | EmptyString => EmptyString
  | String a s' => String (f a) (string_map f s')
  end.

(** [new ObjectId(s)] of the bson package, for a string argument: a string of
    24 hexadecimal characters, anything else is refused. *)
Definition new_ObjectId (s : string) : Res value :=
  if (String.length s =? 24) && string_forall is_hex s
  then Ok (VObjectId (string_map lower_hex s))
  else Throw BSONError.

(** [_setPK(row, obj)] *)
Definition _setPK (c : Collection) (row : list (string * value)) (obj : value)
  : list (string * value) :=
  if _hasCompositeKeys c then JS.enumerable (JS.get_prop obj "_id")
  else JS.obj_set KVID (VStr (JS.to_string (JS.get_prop obj "_id"))) row.

(** [_fixTypesBeforeInsert(obj)] *)
Fixpoint _fixTypesBeforeInsert (obj : value) : value :=
  if negb (JS.is_truthy obj) then obj
  else
    match obj with
    | VObjectId hex =>
        VStr ((if OBJECTID_ENABLED then OBJECTID_PREFIX else EmptyString) +:+ hex)
    | VDate iso _ => VStr iso
    | VArr vs => VArr (List.map _fixTypesBeforeInsert vs)
    | VObj ps => VObj (List.map (fun kv => (fst kv, _fixTypesBeforeInsert (snd kv))) ps)
    | _ => obj
    end.

(** [_marshallObjectIntoRow(obj)], for a document given by its properties *)
Definition _marshallObjectIntoRow (c : Collection) (obj : list (string * value)) : value :=
  let row := _setPK c [] (VObj obj) in
  let obj := JS.obj_delete "_id" obj in
  VObj (JS.obj_assign row (JS.enumerable (_fixTypesBeforeInsert (VObj obj)))).

(** [l.map(f)] when [f] can throw *)
Fixpoint mapR {A B} (f : A -> Res B) (l : list A) : Res (list B) :=
  match l with
  | [] => Ok []
  | x :: l' =>
      match f x with
      | Throw e => Throw e
      | Ok y => match mapR f l' with
                | Throw e => Throw e
                | Ok ys => Ok (y :: ys)
                end
      end
  end.

(** [_fixTypesAfterRead(obj)] *)
Fixpoint _fixTypesAfterRead (obj : value) : Res value :=
  let own_id := match obj with VObj ps => JS.obj_get "_id" ps | _ => None end in
  match (if OBJECTID_ENABLED then None else own_id), obj with
  | Some (VStr (String a s' as s)), VObj ps =>
      match new_ObjectId s with
      | Ok oid => Ok (VObj (JS.obj_set "_id" oid ps))
      | Throw e => Throw e
      end
  | _, _ =>
      if negb (JS.is_truthy obj) then Ok obj
      else
        match obj with
        | VStr s =>
            if Str.startsWith OBJECTID_PREFIX s
            then new_ObjectId (Str.substring_from (String.length OBJECTID_PREFIX) s)
            else Ok obj
        | VArr vs =>
            match mapR _fixTypesAfterRead vs with
            | Ok vs' => Ok (VArr vs')
            | Throw e => Throw e
            end
        | VObj ps =>
            match mapR (fun kv => match _fixTypesAfterRead (snd kv) with
                                  | Ok v' => Ok (fst kv, v')
                                  | Throw e => Throw e
                                  end) ps with
            | Ok ps' => Ok (VObj ps')
            | Throw e => Throw e
            end
        | _ => Ok obj
        end
  end.

(** [_unmarshalObjectFromRow] is a static method, so [this] inside it is the
    class object; [_hasCompositeKeys] is a field of the instances, and the
    class has no such property. *)
Definition static_hasCompositeKeys : value := VUndef.

(** [_unmarshalObjectFromRow(row)], for a row that is an object (the store
    returns objects; for any other value the assignment [obj._id = ...] is
    modelled as a [TypeError]).  The branch for composite keys iterates
    [this._pkList], which is undefined. *)
Definition _unmarshalObjectFromRow (row : value) : Res value :=
  if JS.is_truthy static_hasCompositeKeys then Throw TypeError
  else
    match row with
    | VObj ps =>
        let kvid := default VUndef (JS.obj_get KVID ps) in
        if OBJECTID_ENABLED then
          match new_ObjectId (JS.to_string kvid) with
          | Ok oid => Ok (VObj (JS.obj_delete KVID (JS.obj_set "_id" oid ps)))
          | Throw e => Throw e
          end
        else Ok (VObj (JS.obj_delete KVID (JS.obj_set "_id" kvid ps)))
    | _ => Throw TypeError
    end.

(** A row as the cursor and the query paths read it:
    [_unmarshalObjectFromRow(_fixTypesAfterRead(r))]. *)
Definition read_row (r : value) : Res value :=
  match _fixTypesAfterRead r with
  | Ok r' => _unmarshalObjectFromRow r'
  | Throw e => Throw e
  end.

(** ** The projection compiler *)

(** The part of a Mongoose schema that the projection reads: for every path
    its [instance], its sub-schema [schema] and its [options.type].  For the
    last two, [None] is an absent (falsy) property, [Some None] a value
    without [paths], [Some (Some s)] a schema. *)
Inductive SchemaPath : Type :=
| MkSchemaPath (instance : option string) (sub : option (option Schema))
               (options_type : option (option Schema))
with Schema : Type :=
| MkSchema (paths : list (string * SchemaPath)).

Definition instance_of (p : SchemaPath) : option string :=
  match p with MkSchemaPath i _ _ => i end.
Definition sub_of (p : SchemaPath) : option (option Schema) :=
  match p with MkSchemaPath _ s _ => s end.
Definition options_type_of (p : SchemaPath) : option (option Schema) :=
  match p with MkSchemaPath _ _ t => t end.
Definition paths_of (s : Schema) : list (string * SchemaPath) :=
  match s with MkSchema ps => ps end.

Fixpoint path_get (k : string) (ps : list (string * SchemaPath)) : option SchemaPath :=
  match ps with
  | [] => None
  | (k', p) :: ps' => if String.eqb k k' then Some p else path_get k ps'
  end.

Definition instance_is (p : SchemaPath) (name : string) : bool :=
  match instance_of p with
  | Some i => String.eqb i name
  | None => false
  end.

(** [v == 1 || v == true] and [v == 0 || v == false] *)
Definition is_one (v : value) : bool := JS.loose_eq_num v 1.
Definition is_zero (v : value) : bool := JS.loose_eq_num v 0.

(** [o[k] == undefined], for the own properties of [o].  A plain object also
    answers under the names it inherits from [Object.prototype]
    ([constructor], [toString], [__proto__] and the like); the statements
    about projections are for the other names, see [Object_prototype_names]. *)
Definition prop_undefined (o : value) (k : string) : bool :=
  negb (JS.not_nullish (JS.get_prop o k)).

(** [o[k] = v]: on a number, a boolean or a string it is a [TypeError] (a
    class body is strict code); so it is here for every value that is not a
    plain object. *)
Definition assign_prop (o : value) (k : string) (v : value) : Res value :=
  match o with
  | VObj ps => Ok (VObj (JS.obj_set k v ps))
  | _ => Throw TypeError
  end.

(** The effect on [o] of a mutation of the object that [o[k]] refers to. *)
Definition update_prop (o : value) (k : string) (v : value) : value :=
  match o with
  | VObj ps => VObj (JS.obj_set k v ps)
  | _ => o
  end.

(** [if (o[k] == undefined) o[k] = v] *)
Definition ensure_prop (o : value) (k : string) (v : value) : Res value :=
  if prop_undefined o k then assign_prop o k v else Ok o.

(** [_computePrjObjDeep(prjObj, prop, value)] along the segments of [prop]:
    the updated [prjObj]. *)
Fixpoint prj_insert (segs : list string) (v : value) (prjObj : value) : Res value :=
  match segs with
  | [] => Ok prjObj
  | [prop] => ensure_prop prjObj prop v
  | propBase :: rest =>
      match ensure_prop prjObj propBase (VObj []) with
      | Throw e => Throw e
      | Ok prjObj =>
          match prj_insert rest v (JS.get_prop prjObj propBase) with
          | Ok inner => Ok (update_prop prjObj propBase inner)
          | Throw e => Throw e
          end
      end
  end.

(** The segments [_computePrjObjDeep] walks: it cuts at the first dot of what
    remains, unless that dot is its first character ([dotIndex > 0]), in
    which case all that remains is one key. *)
Fixpoint prj_segments_from (first : bool) (cur : string) (s : string) : list string :=
  match s with
  | EmptyString => [cur]
  | String a s' =>
      if Ascii.eqb a "." then
        if first then [String a s'] else cur :: prj_segments_from true EmptyString s'
      else prj_segments_from false (cur +:+ String a EmptyString) s'
  end.

Definition _computePrjObjDeep (prjObj : value) (prop : string) (v : value) : Res value :=
  prj_insert (prj_segments_from true EmptyString prop) v prjObj.

(** The first loop of [_conputeProjection]: the projection type (0 unknown,
    1 inclusions, -1 exclusions) and the projection tree. *)
Fixpoint prj_scan (ps : list (string * value)) (prjType : Z) (prjObj : value)
  : Res (Z * value) :=
  match ps with
  | [] => Ok (prjType, prjObj)
  | (prop, v) :: ps' =>
      if String.eqb prop "_id" then prj_scan ps' prjType prjObj
      else if is_one v then
        if (prjType =? -1)%Z then Throw ProjectionConflict
        else match _computePrjObjDeep prjObj prop v with
             | Ok prjObj' => prj_scan ps' 1%Z prjObj'
             | Throw e => Throw e
             end
      else if is_zero v then
        if (prjType =? 1)%Z then Throw ProjectionConflict
        else match _computePrjObjDeep prjObj prop v with
             | Ok prjObj' => prj_scan ps' (-1)%Z prjObj'
             | Throw e => Throw e
             end
      else
        match _computePrjObjDeep prjObj prop v with
        | Ok prjObj' => prj_scan ps' 1%Z prjObj'
        | Throw e => Throw e
        end
  end.

Definition scalar_instance (p : SchemaPath) : bool :=
  instance_is p "Date" || instance_is p "ObjectId" || instance_is p "Number" ||
  instance_is p "String".

Definition skipped_path (prop : string) (flag : value) : bool :=
  String.eqb prop "_id" || String.eqb prop "id" || String.eqb prop "__v" ||
  is_zero flag.

(** [_computePrjObjDeepExcl(prjObj, baseProp, projection, schema)] for a
    schema that has [paths] (without them the function throws at once). *)
Fixpoint _computePrjObjDeepExcl (prjObj : value) (baseProp : string)
    (projection : value) (schema : Schema) {struct schema} : Res value :=
  match schema with
  | MkSchema paths =>
      (fix each (paths : list (string * SchemaPath)) (prjObj : value) : Res value :=
         match paths with
         | [] => Ok prjObj
         | (prop, MkSchemaPath inst sub otype) :: paths' =>
             let p := MkSchemaPath inst sub otype in
             let after (r : Res value) (prjObj : value) : Res value :=
               match r with
               | Ok inner => each paths' (update_prop prjObj prop inner)
               | Throw e => Throw e
               end in
             if skipped_path prop (JS.get_prop projection (baseProp +:+ "." +:+ prop))
             then each paths' prjObj
             else if scalar_instance p ||
                     (instance_is p "Array" && negb (bool_decide (is_Some sub))) then
               match ensure_prop prjObj prop (VNum 1) with
               | Ok prjObj => each paths' prjObj
               | Throw e => Throw e
               end
             else
               match inst, sub, otype with
               | None, Some (Some s), _ =>
                   match ensure_prop prjObj prop (VObj []) with
                   | Ok prjObj =>
                       after (_computePrjObjDeepExcl (JS.get_prop prjObj prop)
                                (baseProp +:+ "." +:+ prop) projection s) prjObj
                   | Throw e => Throw e
                   end
               | None, _, Some (Some s) =>
                   match ensure_prop prjObj prop (VObj []) with
                   | Ok prjObj =>
                       after (_computePrjObjDeepExcl (JS.get_prop prjObj prop)
                                (baseProp +:+ "." +:+ prop) projection s) prjObj
                   | Throw e => Throw e
                   end
               | None, _, Some None =>
                   match ensure_prop prjObj prop (VObj []) with
                   | Ok _ => Throw SchemaNotProvided
                   | Throw e => Throw e
                   end
               | _, _, _ => Throw UnsupportedType
               end
         end) paths prjObj
  end.

(** The schema phase of [_conputeProjection], for exclusions and for [{}]. *)
Fixpoint prj_complete (paths : list (string * SchemaPath)) (projection : value)
    (prjObj : value) : Res value :=
  match paths with
  | [] => Ok prjObj
  | (prop, p) :: paths' =>
      let nested (s : option Schema) : Res value :=
        match ensure_prop prjObj prop (VObj []) with
        | Throw e => Throw e
        | Ok prjObj =>
            match s with
            | None => Throw SchemaNotProvided
            | Some s =>
                match _computePrjObjDeepExcl (JS.get_prop prjObj prop) prop projection s with
                | Ok inner => prj_complete paths' projection (update_prop prjObj prop inner)
                | Throw e => Throw e
                end
            end
        end in
      if skipped_path prop (JS.get_prop projection prop)
      then prj_complete paths' projection prjObj
      else if scalar_instance p || instance_is p "Boolean" then
        match ensure_prop prjObj prop (VNum 1) with
        | Ok prjObj => prj_complete paths' projection prjObj
        | Throw e => Throw e
        end
      else
        match sub_of p, options_type_of p with
        | Some (Some s), t =>
            if instance_is p "Array" then nested (Some s)
            else if instance_is p "Embedded" then
              match t with Some t' => nested t' | None => Throw UnsupportedType end
            else Throw UnsupportedType
        | _, Some t =>
            if instance_is p "Embedded" then nested t else Throw UnsupportedType
        | _, _ => Throw UnsupportedType
        end
  end.

Section Projection.

(** The operator sublanguage, [_computePrjOperators(prop, params)]: none of
    the properties below depends on what it renders. *)
Variable _computePrjOperators : string -> value -> Res string.

Variable c : Collection.

(** [_isSchemaArray(schema, path)]; [schema.path(path)] is read in the
    table of paths, and calling it on an absent schema is a [TypeError]. *)
Definition _isSchemaArray (schema : option Schema) (path : string) : Res bool :=
  match schema with
  | None => Throw TypeError
  | Some s =>
      match path_get path (paths_of s) with
      | Some p => Ok (instance_is p "Array")
      | None => Ok false
      end
  end.

(** [_computePrjDeep(propBase, propChild, schema)] *)
Fixpoint _computePrjDeep (propBase : string) (propChild : value) (schema : option Schema)
  {struct propChild} : Res string :=
  match propChild with
  | VObj ps =>
      let wrap (res : string) : Res string :=
        match _isSchemaArray schema propBase with
        | Ok true => Ok ("[{" +:+ res +:+ "}]")
        | Ok false => Ok ("{" +:+ res +:+ "}")
        | Throw e => Throw e
        end in
      (fix each (ps : list (string * value)) (res : string) : Res string :=
         match ps with
         | [] => wrap res
         | (prop, v) :: ps' =>
             let res := if negb (Str.is_empty res) then res +:+ ", " else res in
             if Str.startsWith "$" prop then _computePrjOperators prop v
             else if is_zero v then each ps' res
             else if is_one v then
               each ps' (res +:+ "'" +:+ prop +:+ "': " +:+
                         _computeDbProp c (propBase +:+ "." +:+ prop))
             else
               match _computePrjDeep (propBase +:+ "." +:+ prop) v schema with
               | Ok s => each ps' (res +:+ "'" +:+ prop +:+ "': " +:+ s)
               | Throw e => Throw e
               end
         end) ps EmptyString
  | VArr vs =>
      let wrap (res : string) : Res string :=
        match _isSchemaArray schema propBase with
        | Ok true => Ok ("[{" +:+ res +:+ "}]")
        | Ok false => Ok ("{" +:+ res +:+ "}")
        | Throw e => Throw e
        end in
      (fix each (vs : list value) (i : nat) (res : string) : Res string :=
         match vs with
         | [] => wrap res
         | v :: vs' =>
             let prop := pretty i in
             let res := if negb (Str.is_empty res) then res +:+ ", " else res in
             if is_zero v then each vs' (S i) res
             else if is_one v then
               each vs' (S i) (res +:+ "'" +:+ prop +:+ "': " +:+
                               _computeDbProp c (propBase +:+ "." +:+ prop))
             else
               match _computePrjDeep (propBase +:+ "." +:+ prop) v schema with
               | Ok s => each vs' (S i) (res +:+ "'" +:+ prop +:+ "': " +:+ s)
               | Throw e => Throw e
               end
         end) vs 0 EmptyString
  | VDate _ _ | VObjectId _ =>
      match _isSchemaArray schema propBase with
      | Ok true => Ok "[{}]"
      | Ok false => Ok "{}"
      | Throw e => Throw e
      end
  | VNum n => Ok (pretty n)
  | VNaN => Ok "NaN"
  | VStr s =>
      if Str.startsWith "$" s then Ok (_computeDbProp c (Str.substring_from 1 s))
      else Ok ("'" +:+ s +:+ "'")
  | _ => Throw UnsupportedType
  end.

(** The loop of [_conputeProjection] that renders the projection tree. *)
Fixpoint prj_render (ps : list (string * value)) (schema : option Schema) (res : string)
  : Res string :=
  match ps with
  | [] => Ok res
  | (prop, v) :: ps' =>
      let res := if negb (Str.is_empty res) then res +:+ ", " else res in
      if is_zero v then prj_render ps' schema res
      else if is_one v then
        prj_render ps' schema (res +:+ _computeDbProp c prop +:+ " AS " +:+ prop)
      else
        match _computePrjDeep prop v schema with
        | Ok s => prj_render ps' schema (res +:+ s +:+ " AS " +:+ prop)
        | Throw e => Throw e
        end
  end.

(** [_conputeProjection(projection, schema)]; [None] is an absent schema. *)
Definition _conputeProjection (projection : value) (schema : option Schema) : Res string :=
  if negb (JS.is_truthy projection) then Ok "*"
  else
    match prj_scan (JS.enumerable projection) 0%Z (VObj []) with
    | Throw e => Throw e
    | Ok (prjType, prjObj) =>
        let completed :=
          if (prjType =? -1)%Z || (prjType =? 0)%Z then
            match schema with
            | None => Throw SchemaNotProvided
            | Some s => prj_complete (paths_of s) projection prjObj
            end
          else Ok prjObj in
        match completed with
        | Throw e => Throw e
        | Ok prjObj =>
            match prj_render (JS.enumerable prjObj) schema EmptyString with
            | Throw e => Throw e
            | Ok res =>
                let pid := JS.get_prop projection "_id" in
                if negb (JS.not_nullish pid) || JS.loose_eq_num pid 1 then
                  Ok (Str.join ", " (List.map (fun k => _computeDbProp c k +:+ " AS " +:+ k)
                                              (_primaryKeyList c)) +:+ ", " +:+ res)
                else Ok res
            end
        end
    end.

End Projection.

(** ** The find cursor

    The store client is given by what its calls answer; every call is
    recorded, so that the calls a cursor operation makes can be counted.  The
    operations run one after the other (a single consumer); the one call
    that overlaps with them is the [fetchBatch()] that the iterator does not
    await, whose two parts are given apart. *)

Record PrepStmt : Type := {
  ps_text : string;
  ps_vars : Bindings
}.

(** What one [next()] of the batch source answers: a batch (the [value] of the
    iterator result) or a failure.  A source that has no step left is done. *)
Inductive GenStep : Type :=
| Batch (v : value)
| Fail (e : Err).

Record Client : Type := {
  prepare : string -> Res PrepStmt;
  copyStatement : PrepStmt -> Res PrepStmt;
  queryIterable : PrepStmt -> Res (list GenStep)
}.

Inductive StoreCall : Type :=
| CallPrepare (stmt : string)
| CallCopyStatement
| CallQueryIterable (stmt : PrepStmt)
| CallNext.

(** An [OrcoosFindCursor] with what it reaches through [this.collection.db]:
    the shared prepared-statement cache and the client.  The cache is an
    [LRUCache] (500 entries and 10 minutes for each, unless the options say
    otherwise); the map holds what its [get] answers when the cursor asks.
    That an entry is dropped at capacity or when its time is over is not
    modelled, and no statement relies on an entry staying. *)
Record Cursor : Type := {
  _documents : list value;
  _isStarted : bool;
  _isClosed : bool;
  _gen : option (list GenStep);
  statement : string;
  bindings : option Bindings;
  maxLimit : Z;
  prepStmtCache : gmap string PrepStmt;
  client : Client;
  calls : list StoreCall
}.

(** [new OrcoosFindCursor(collection, statement, bindings, maxLimit)] *)
Definition new_cursor (cl : Client) (cache : gmap string PrepStmt) (stmt : string)
    (b : option Bindings) (limit : option Z) : Cursor :=
  {| _documents := []; _isStarted := false; _isClosed := false; _gen := None;
     statement := stmt; bindings := b;
     maxLimit := default MAX_QUERY_RESULTS_LIMIT limit;
     prepStmtCache := cache; client := cl; calls := [] |}.

Definition set_documents (ds : list value) (w : Cursor) : Cursor :=
  {| _documents := ds; _isStarted := _isStarted w; _isClosed := _isClosed w;
     _gen := _gen w; statement := statement w; bindings := bindings w;
     maxLimit := maxLimit w; prepStmtCache := prepStmtCache w; client := client w;
     calls := calls w |}.

Definition set_started (w : Cursor) : Cursor :=
  {| _documents := _documents w; _isStarted := true; _isClosed := _isClosed w;
     _gen := _gen w; statement := statement w; bindings := bindings w;
     maxLimit := maxLimit w; prepStmtCache := prepStmtCache w; client := client w;
     calls := calls w |}.

Definition set_gen (g : option (list GenStep)) (w : Cursor) : Cursor :=
  {| _documents := _documents w; _isStarted := _isStarted w; _isClosed := _isClosed w;
     _gen := g; statement := statement w; bindings := bindings w;
     maxLimit := maxLimit w; prepStmtCache := prepStmtCache w; client := client w;
     calls := calls w |}.

Definition set_cache (m : gmap string PrepStmt) (w : Cursor) : Cursor :=
  {| _documents := _documents w; _isStarted := _isStarted w; _isClosed := _isClosed w;
     _gen := _gen w; statement := statement w; bindings := bindings w;
     maxLimit := maxLimit w; prepStmtCache := m; client := client w;
     calls := calls w |}.

Definition record_call (k : StoreCall) (w : Cursor) : Cursor :=
  {| _documents := _documents w; _isStarted := _isStarted w; _isClosed := _isClosed w;
     _gen := _gen w; statement := statement w; bindings := bindings w;
     maxLimit := maxLimit w; prepStmtCache := prepStmtCache w; client := client w;
     calls := calls w ++ [k] |}.

(** [close()] *)
Definition close (w : Cursor) : Cursor :=
  {| _documents := _documents w; _isStarted := _isStarted w; _isClosed := true;
     _gen := _gen w; statement := statement w; bindings := bindings w;
     maxLimit := maxLimit w; prepStmtCache := prepStmtCache w; client := client w;
     calls := calls w |}.

(** [prepStmt.set(binding, value)] for every binding *)
Definition bind_all (b : Bindings) (ps : PrepStmt) : PrepStmt :=
  {| ps_text := ps_text ps; ps_vars := b ∪ ps_vars ps |}.

(** The first part of [fetchBatch], run once: the prepared statement (from the
    cache, or prepared and cached), the bindings, the batch source. *)
Definition start_query (w : Cursor) : Res unit * Cursor :=
  let w := set_started w in
  let prepared : Res PrepStmt * Cursor :=
    match prepStmtCache w !! statement w with
    | Some ps => (Ok ps, w)
    | None =>
        let w := record_call (CallPrepare (statement w)) w in
        match prepare (client w) (statement w) with
        | Ok ps => (Ok ps, set_cache (<[statement w := ps]> (prepStmtCache w)) w)
        | Throw e => (Throw e, w)
        end
    end in
  match prepared with
  | (Throw e, w) => (Throw e, w)
  | (Ok ps, w) =>
      let bound : Res PrepStmt * Cursor :=
        match bindings w with
        | Some b =>
            if 0 <? size b then
              let w := record_call CallCopyStatement w in
              match copyStatement (client w) ps with
              | Ok ps' => (Ok (bind_all b ps'), w)
              | Throw e => (Throw e, w)
              end
            else (Ok ps, w)
        | None => (Ok ps, w)
        end in
      match bound with
      | (Throw e, w) => (Throw e, w)
      | (Ok ps, w) =>
          let w := record_call (CallQueryIterable ps) w in
          match queryIterable (client w) ps with
          | Ok g => (Ok tt, set_gen (Some g) w)
          | Throw e => (Throw e, set_cache ∅ w)
          end
      end
  end.

(** [fetchBatch()] *)
Definition fetchBatch (w : Cursor) : Res unit * Cursor :=
  if _isClosed w then (Ok tt, w)
  else
    let started : Res unit * Cursor :=
      if negb (_isStarted w) then start_query w else (Ok tt, w) in
    match started with
    | (Throw e, w) => (Throw e, w)
    | (Ok _, w) =>
        match _gen w with
        | None => (Ok tt, close w)
        | Some g =>
            let w := record_call CallNext w in
            match g with
            | [] => (Ok tt, close w)
            | Fail e :: _ => (Throw e, set_gen (Some []) w)
            | Batch v :: g' =>
                let w := set_gen (Some g') w in
                let rows := JS.get_prop v "rows" in
                if JS.is_truthy rows then
                  match rows with
                  | VArr rs =>
                      match mapR read_row rs with
                      | Ok docs => (Ok tt, set_documents docs w)
                      | Throw e => (Throw e, w)
                      end
                  | _ => (Throw TypeError, w)
                  end
                else (Ok tt, close w)
            end
        end
    end.

(** [toArray()]: the loop, with the array collected so far.  [None] when the
    given number of rounds does not reach the end of the loop. *)
Fixpoint toArray_loop (rounds : nat) (array : list value) (w : Cursor)
  : option (Res (list value) * Cursor) :=
  match rounds with
  | 0 => None
  | S rounds' =>
      let total := Z.of_nat (length array + length (_documents w)) in
      if (maxLimit w <? total)%Z then Some (Throw (ResultLimitExceeded total), w)
      else
        let array := array ++ _documents w in
        match fetchBatch w with
        | (Throw e, w') => Some (Throw e, w')
        | (Ok _, w') =>
            if _isClosed w' then Some (Ok array, w')
            else toArray_loop rounds' array w'
        end
  end.

Definition toArray (rounds : nat) (w : Cursor) : option (Res (list value) * Cursor) :=
  toArray_loop rounds [] w.

(** [this._documents?.shift()] *)
Definition shift (w : Cursor) : value * Cursor :=
  match _documents w with
  | [] => (VUndef, w)
  | d :: ds => (d, set_documents ds w)
  end.

(** [next()] *)
Fixpoint next (rounds : nat) (w : Cursor) : option (Res value * Cursor) :=
  match rounds with
  | 0 => None
  | S rounds' =>
      let '(doc, w) := shift w in
      if JS.not_nullish doc then Some (Ok doc, w)
      else
        match fetchBatch w with
        | (Throw e, w') => Some (Throw e, w')
        | (Ok _, w') =>
            if negb (length (_documents w') =? 0) then next rounds' w'
            else Some (Ok VNull, w')
        end
  end.

(** [hasNext()] *)
Fixpoint hasNext (rounds : nat) (w : Cursor) : option (Res bool * Cursor) :=
  match rounds with
  | 0 => None
  | S rounds' =>
      if negb (length (_documents w) =? 0) then Some (Ok true, w)
      else
        match fetchBatch w with
        | (Throw e, w') => Some (Throw e, w')
        | (Ok _, w') =>
            if negb (length (_documents w') =? 0) then hasNext rounds' w'
            else Some (Ok false, w')
        end
  end.

(** [tryNext()] *)
Definition tryNext (w : Cursor) : Res value * Cursor :=
  let '(doc, w) := shift w in
  if JS.not_nullish doc then (Ok doc, w)
  else
    match fetchBatch w with
    | (Throw e, w') => (Throw e, w')
    | (Ok _, w') =>
        let '(doc, w') := shift w' in
        if JS.not_nullish doc then (Ok doc, w') else (Ok VNull, w')
    end.

(** The call [this.fetchBatch()] that the iterator makes without awaiting it,
    as far as it runs at once: up to its first suspension, that is it marks
    the cursor started and issues its first store call.  What follows the
    suspension runs when the store answers; it is [fetchBatch_resumed]
    below. *)
Definition fetchBatch_unawaited (w : Cursor) : Cursor :=
  if _isClosed w then w
  else if _isStarted w then
    match _gen w with
    | None => close w
    | Some _ => record_call CallNext w
    end
  else
    let w := set_started w in
    match prepStmtCache w !! statement w with
    | None => record_call (CallPrepare (statement w)) w
    | Some ps =>
        match bindings w with
        | Some b => if 0 <? size b then record_call CallCopyStatement w
                    else record_call (CallQueryIterable ps) w
        | None => record_call (CallQueryIterable ps) w
        end
    end.

(** The loop of the async iterator, with the documents yielded so far. *)
Fixpoint iterate_loop (rounds : nat) (yielded : list value) (w : Cursor)
  : option (Res (list value) * Cursor) :=
  match rounds with
  | 0 => None
  | S rounds' =>
      if _isClosed w then Some (Ok yielded, w)
      else
        match next (S rounds') w with
        | None => None
        | Some (Throw e, w') => Some (Throw e, w')
        | Some (Ok doc, w') =>
            if JS.is_null doc then Some (Ok yielded, w')
            else iterate_loop rounds' (yielded ++ [doc]) w'
        end
  end.

(** [Symbol.asyncIterator], consumed to its end by [for await]: the documents
    it yields, and the cursor at the time the iteration ends.  The [finally]
    clause closes the cursor on every exit.  The call that the iterator did
    not await is still pending then; [iterate_settled] below adds what it
    does afterwards. *)
Definition iterate (rounds : nat) (w : Cursor) : option (Res (list value) * Cursor) :=
  if _isClosed w then Some (Ok [], w)
  else
    let w := if negb (_isStarted w) then set_started (fetchBatch_unawaited w) else w in
    match iterate_loop rounds [] w with
    | None => None
    | Some (r, w') => Some (r, if negb (_isClosed w') then close w' else w')
    end.

(** *** The call that the iterator does not await

    [fetchBatch_unawaited] is what that call does at once.  The rest of it
    runs when the store answers, and by then the iteration has gone on: the
    rest reads the cursor as it is at that time, and it does not look at
    [_isClosed] again.  The iterator makes the call on a cursor that is
    neither closed nor started. *)

(** The store call at which the call is suspended, with the prepared
    statement it holds. *)
Inductive Suspension : Type :=
| AwaitPrepare
| AwaitCopyStatement (prepStmt : PrepStmt)
| AwaitQueryIterable (prepStmt : PrepStmt).

Definition suspension (w : Cursor) : Suspension :=
  match prepStmtCache w !! statement w with
  | None => AwaitPrepare
  | Some ps =>
      match bindings w with
      | Some b => if 0 <? size b then AwaitCopyStatement ps else AwaitQueryIterable ps
      | None => AwaitQueryIterable ps
      end
  end.

(** [fetchBatch] from [if (!this._gen)] to its end. *)
Definition fetch_rows (w : Cursor) : Res unit * Cursor :=
  match _gen w with
  | None => (Ok tt, close w)
  | Some g =>
      let w := record_call CallNext w in
      match g with
      | [] => (Ok tt, close w)
      | Fail e :: _ => (Throw e, set_gen (Some []) w)
      | Batch v :: g' =>
          let w := set_gen (Some g') w in
          let rows := JS.get_prop v "rows" in
          if JS.is_truthy rows then
            match rows with
            | VArr rs =>
                match mapR read_row rs with
                | Ok docs => (Ok tt, set_documents docs w)
                | Throw e => (Throw e, w)
                end
            | _ => (Throw TypeError, w)
            end
          else (Ok tt, close w)
      end
  end.

(** [fetchBatch] from the answer of [queryIterable] on. *)
Definition after_queryIterable (prepStmt : PrepStmt) (w : Cursor) : Res unit * Cursor :=
  match queryIterable (client w) prepStmt with
  | Ok g => fetch_rows (set_gen (Some g) w)
  | Throw e => (Throw e, set_cache ∅ w)
  end.

(** [fetchBatch] from the answer of [copyStatement] on. *)
Definition after_copyStatement (prepStmt : PrepStmt) (w : Cursor) : Res unit * Cursor :=
  match copyStatement (client w) prepStmt with
  | Ok ps' =>
      let ps' := match bindings w with Some b => bind_all b ps' | None => ps' end in
      after_queryIterable ps' (record_call (CallQueryIterable ps') w)
  | Throw e => (Throw e, w)
  end.

(** [fetchBatch] from the answer of [prepare] on. *)
Definition after_prepare (w : Cursor) : Res unit * Cursor :=
  match prepare (client w) (statement w) with
  | Ok ps =>
      let w := set_cache (<[statement w := ps]> (prepStmtCache w)) w in
      match bindings w with
      | Some b =>
          if 0 <? size b then after_copyStatement ps (record_call CallCopyStatement w)
          else after_queryIterable ps (record_call (CallQueryIterable ps) w)
      | None => after_queryIterable ps (record_call (CallQueryIterable ps) w)
      end
  | Throw e => (Throw e, w)
  end.

(** The rest of a call that was suspended at [k], on the cursor as it is when
    the store answers. *)
Definition fetchBatch_resumed (k : Suspension) (w : Cursor) : Res unit * Cursor :=
  match k with
  | AwaitPrepare => after_prepare w
  | AwaitCopyStatement ps => after_copyStatement ps w
  | AwaitQueryIterable ps => after_queryIterable ps w
  end.

(** [for await] over the cursor, and then the rest of the call that the
    iterator did not await.  On a cursor that is not started the buffer is
    empty, so the [fetchBatch] of the first [next] runs before the store can
    answer the pending call: it finds no batch source and closes the cursor,
    and the iteration ends.  The pending call goes on after that.  Its error,
    if any, reaches no caller. *)
Definition iterate_settled (rounds : nat) (w : Cursor) : option (Res (list value) * Cursor) :=
  match iterate rounds w with
  | None => None
  | Some (r, w') =>
      if _isClosed w || _isStarted w then Some (r, w')
      else Some (r, snd (fetchBatch_resumed (suspension w) w'))
  end.

(** ** Further functions of the collection

    The sort clause of a SELECT, the statement that creates the table,
    the index statements, the operators of a computed projection, and the
    row that [replaceOne] writes.  Their errors are kept apart from [Err]. *)

Inductive Outcome (E A : Type) : Type :=
| Done (a : A)
| Raised (e : E).
Arguments Done {E A} a.
Arguments Raised {E A} e.

(** [l.map(f)] when [f] can throw *)
Fixpoint mapO {E A B} (f : A -> Outcome E B) (l : list A) : Outcome E (list B) :=
  match l with
  | [] => Done []
  | x :: l' =>
      match f x with
      | Raised e => Raised e
      | Done y => match mapO f l' with
                  | Raised e => Raised e
                  | Done ys => Done (y :: ys)
                  end
      end
  end.




(** *** Sort *)

Inductive ClauseErr : Type :=
| SortReferenceError        (* the message of the guard reads [sort] before its [let] *)
| UnknownSortField (v : string).

(** The [switch (sortSpec[v])]: strict comparison with the six directions. *)
Definition sort_direction (d : value) : option string :=
  match d with
  | VNum n =>
      if (n =? 1)%Z then Some " ASC"
      else if (n =? -1)%Z then Some " DESC"
      else None
  | VStr s =>
      if String.eqb s "asc" || String.eqb s "ascending" then Some " ASC"
      else if String.eqb s "desc" || String.eqb s "descending" then Some " DESC"
      else None
  | _ => None
  end.

(** One term of the ORDER BY list: the callback of [Object.keys(sortSpec).map]. *)
Definition sort_term (c : Collection) (kv : string * value) : Outcome ClauseErr string :=
  match sort_direction (snd kv) with
  | Some dir => Done (_computeDbProp c (fst kv) +:+ dir)
  | None => Raised (UnknownSortField (fst kv))
  end.

(** [_computeSortClause(sortSpec)] *)
Definition _computeSortClause (c : Collection) (sortSpec : value) : Outcome ClauseErr string :=
  if JS.is_truthy sortSpec then
    if negb (JS.instanceof_Object sortSpec) then Raised SortReferenceError
    else
      match mapO (sort_term c) (JS.enumerable sortSpec) with
      | Done terms => Done (" ORDER BY " +:+ Str.join ", " terms)
      | Raised e => Raised e
      end
  else Done EmptyString.

(** *** The statement that creates the table

    The part of [_checkTableIsCreated] that runs when the table is to be
    created: the statement it sends, and the key lists it leaves in the
    collection.  Of the schema it reads the fields of [obj._id] with their
    constructors, when [obj._id] is an object, the names of the fields of
    [obj], and the [shardKey] list of the collection options. *)









(** *** Indexes *)

(** What [schema.path(p)] answers for a path of an index: the [instance] of
    the schema type and, for an array, its [caster]. *)
#[warnings="-register-all"]
Inductive IndexType : Type :=
| MkIndexType (instance : option string) (caster : option IndexType).

Inductive IndexErr : Type :=
| WildcardIndex (key : string)
| IndexValueNotOne
| PropertyNotString
| IndexSchemaMissing
| IndexReferenceError     (* the message reads [step], which is not declared *)
| IndexTypeError.

(** [_computeDbType(schemaPropType)] *)
Fixpoint _computeDbType (t : IndexType) : Outcome IndexErr (bool * string) :=
  match t with
  | MkIndexType inst caster =>
      if bool_decide (inst = Some "Array") then
        match caster with
        | Some t' =>
            match _computeDbType t' with
            | Done (_, ty) => Done (true, ty)
            | Raised e => Raised e
            end
        | None => Raised IndexTypeError
        end
      else Done (false, "ANYATOMIC")
  end.

Fixpoint index_path_get (k : string) (ps : list (string * IndexType)) : option IndexType :=
  match ps with
  | [] => None
  | (k', t) :: ps' => if String.eqb k k' then Some t else index_path_get k ps'
  end.

(** [!schemaPropType.instance] *)
Definition no_instance (t : IndexType) : bool :=
  match t with
  | MkIndexType (Some (String _ _)) _ => false
  | _ => true
  end.

(** The loop of [_computeIndexProperty] over the steps of the path, with the
    steps already walked. *)
Fixpoint index_steps (paths : list (string * IndexType)) (walked steps : list string)
    (dbProp lastStepType : string) : Outcome IndexErr string :=
  match steps with
  | [] => Done (dbProp +:+ " AS " +:+ lastStepType)
  | step :: steps' =>
      let path := Str.join "." (walked ++ [step]) in
      match index_path_get path paths with
      | None => Raised IndexReferenceError
      | Some schemaPropType =>
          if no_instance schemaPropType then Raised IndexReferenceError
          else
            match _computeDbType schemaPropType with
            | Raised e => Raised e
            | Done (isArray, dbPropType) =>
                let dbProp := if 0 <? String.length dbProp then dbProp +:+ "." else dbProp in
                index_steps paths (walked ++ [step]) steps'
                  (dbProp +:+ step +:+ (if isArray then "[]" else EmptyString)) dbPropType
            end
      end
  end.

(** [_computeIndexProperty(prop, schema)], for a key of the index
    specification; [None] is a schema without a [path] function. *)
Definition _computeIndexProperty (prop : string) (schema : option (list (string * IndexType)))
  : Outcome IndexErr string :=
  if negb (0 <? String.length prop) then Raised PropertyNotString
  else
    match schema with
    | None => Raised IndexSchemaMissing
    | Some paths => index_steps paths [] (Str.split "." prop) EmptyString EmptyString
    end.



(** *** The operators of a computed projection *)

Inductive OpErr : Type :=
| InvalidOperatorProperty (prop : string)
| InvalidParams (op : string)
| UnsupportedOperator (op : string)
| InvalidOperand
| OpTypeError.            (* raised by the language itself *)

Notation "'let+' x := m 'in' k" :=
  (match m with Done x => k | Raised e => Raised e end)
  (at level 10, x name, m at level 100, k at level 200).

(** [_computePrjOperands(value)] on a string *)
Definition operand_of_string (c : Collection) (s : string) : string :=
  if Str.startsWith "$" s then _computeDbProp c (Str.substring_from 1 s)
  else "'" +:+ s +:+ "'".

(** [_computePrjOperands(value)], given what renders a nested operator. *)
Definition operand_of (c : Collection) (nested : string -> value -> Outcome OpErr string)
    (v : value) : Outcome OpErr string :=
  match v with
  | VStr s => Done (operand_of_string c s)
  | VNum n => Done (pretty n)
  | VNaN => Done "NaN"
  | VBool b => Done (if b then "true" else "false")
  | VNull => Raised OpTypeError
  | VObj [(prop, x)] =>
      if Str.startsWith "$" prop then nested prop x else Raised InvalidOperand
  | _ => Raised InvalidOperand
  end.

(** [f(o[k])], where [f(undefined)] is [absent] *)
Fixpoint with_prop {R} (f : value -> R) (absent : R) (k : string) (ps : list (string * value))
  : R :=
  match ps with
  | [] => absent
  | (k', x) :: ps' => if String.eqb k k' then f x else with_prop f absent k ps'
  end.

(** [_computePrjOperators(prop, params)].  The guards of the form
    [!params instanceof Array] never throw; [params.length] is the length of
    an array or of a string, a [TypeError] on [null] and [undefined], and
    undefined on the other values (an object with a [length] of its own is
    not modelled). *)
Fixpoint _computePrjOperators (c : Collection) (prop : string) (params : value) {struct params}
  : Outcome OpErr string :=
  let operand := operand_of c (_computePrjOperators c) in
  let joined (opening sep : string) : Outcome OpErr string :=
    match params with
    | VArr vs =>
        let+ rs := mapO operand vs in
        Done (opening +:+ Str.join sep rs +:+ ")")
    | _ => Raised OpTypeError
    end in
  let bounded (opening : string) : Outcome OpErr string :=
    match params with
    | VArr vs =>
        if (length vs <? 1) || (2 <? length vs) then Raised (InvalidParams prop)
        else joined opening ", "
    | VStr s =>
        if (String.length s <? 1) || (2 <? String.length s) then Raised (InvalidParams prop)
        else Raised OpTypeError
    | _ => Raised OpTypeError
    end in
  let unary (opening : string) : Outcome OpErr string :=
    let+ s := operand params in
    Done (opening +:+ s +:+ ")") in
  let pair (render : string -> string -> string) : Outcome OpErr string :=
    match params with
    | VArr [a; b] =>
        let+ m := operand a in
        let+ n := operand b in
        Done (render m n)
    | VStr s =>
        match Str.chars s with
        | [a; b] => Done (render (operand_of_string c a) (operand_of_string c b))
        | _ => Raised (InvalidParams prop)
        end
    | VNull | VUndef => Raised OpTypeError
    | _ => Raised (InvalidParams prop)
    end in
  let trim (side : string) : Outcome OpErr string :=
    match params with
    | VNull | VUndef => Raised OpTypeError
    | VObj ps =>
        if negb (JS.is_truthy (JS.get_prop params "input")) then Raised (InvalidParams prop)
        else
          let+ input := with_prop operand (Raised InvalidOperand) "input" ps in
          if JS.is_truthy (JS.get_prop params "chars") then
            let+ chars := with_prop operand (Raised InvalidOperand) "chars" ps in
            Done ("trim(" +:+ input +:+ ", " +:+ Str.dquote +:+ side +:+ Str.dquote +:+
                  ", " +:+ chars +:+ ")")
          else
            Done ("trim(" +:+ input +:+ ", " +:+ Str.dquote +:+ side +:+ Str.dquote +:+ ")")
    | _ => Raised (InvalidParams prop)
    end in
  if negb (Str.startsWith "$" prop) then Raised (InvalidOperatorProperty prop)
  else if String.eqb prop "$multiply" then joined "(" " * "
  else if String.eqb prop "$divide" then joined "(" " div "
  else if String.eqb prop "$mod" then
    pair (fun m n => "(" +:+ m +:+ "-(" +:+ m +:+ "/" +:+ n +:+ "*" +:+ n +:+ "))")
  else if String.eqb prop "$add" then joined "(" " + "
  else if String.eqb prop "$subtract" then joined "(" " - "
  else if String.eqb prop "$abs" then unary "abs("
  else if String.eqb prop "$ceil" then unary "ceil("
  else if String.eqb prop "$floor" then unary "floor("
  else if String.eqb prop "$round" then bounded "round("
  else if String.eqb prop "$trunc" then bounded "trunc("
  else if String.eqb prop "$exp" then unary "exp("
  else if String.eqb prop "$log" then bounded "log("
  else if String.eqb prop "$ln" then unary "ln("
  else if String.eqb prop "$log10" then unary "log10("
  else if String.eqb prop "$pow" then bounded "power("
  else if String.eqb prop "$sqrt" then unary "sqrt("
  else if String.eqb prop "$cos" then unary "cos("
  else if String.eqb prop "$sin" then unary "sin("
  else if String.eqb prop "$tan" then unary "tan("
  else if String.eqb prop "$acos" then unary "acos("
  else if String.eqb prop "$asin" then unary "asin("
  else if String.eqb prop "$atan" then unary "atan("
  else if String.eqb prop "$atan2" then
    pair (fun m n => "atan2(" +:+ m +:+ ", " +:+ n +:+ ")")
  else if String.eqb prop "$radiansToDegrees" then unary "degrees("
  else if String.eqb prop "$degreesToRadians" then unary "radians("
  else if String.eqb prop "$rand" then Done "rand()"
  else if String.eqb prop "$eq" then joined "(" " = "
  else if String.eqb prop "$ne" then joined "(" " != "
  else if String.eqb prop "$gt" then joined "(" " > "
  else if String.eqb prop "$gte" then joined "(" " >= "
  else if String.eqb prop "$lt" then joined "(" " < "
  else if String.eqb prop "$lte" then joined "(" " <= "
  else if String.eqb prop "$and" then joined "(" " AND "
  else if String.eqb prop "$or" then joined "(" " OR "
  else if String.eqb prop "$not" then
    match params with
    | VStr s => Done ("( NOT " +:+ operand_of_string c s +:+ ")")
    | _ => Raised (InvalidParams prop)
    end
  else if String.eqb prop "$concat" then joined "concat(" ", "
  else if String.eqb prop "$substrCP" then joined "substring(" ", "
  else if String.eqb prop "$toUpper" then unary "upper("
  else if String.eqb prop "$toLower" then unary "lower("
  else if String.eqb prop "$trim" then trim "both"
  else if String.eqb prop "$ltrim" then trim "leading"
  else if String.eqb prop "$rtrim" then trim "trailing"
  else if String.eqb prop "$strLenCP" then unary "length("
  else if String.eqb prop "$indexOfCP" then
    match params with
    | VArr vs =>
        if (length vs <? 2) || (3 <? length vs) then Raised (InvalidParams prop)
        else
          match vs with
          | a :: b :: rest =>
              let+ x := operand a in
              let+ y := operand b in
              match rest with
              | [d] =>
                  let+ z := operand d in
                  Done ("index_of(" +:+ x +:+ ", " +:+ y +:+ "," +:+ z +:+ ")")
              | _ => Done ("index_of(" +:+ x +:+ ", " +:+ y +:+ ")")
              end
          | _ => Raised (InvalidParams prop)
          end
    | VStr s =>
        match Str.chars s with
        | [a; b] =>
            Done ("index_of(" +:+ operand_of_string c a +:+ ", " +:+ operand_of_string c b +:+
                  ")")
        | [a; b; d] =>
            Done ("index_of(" +:+ operand_of_string c a +:+ ", " +:+ operand_of_string c b +:+
                  "," +:+ operand_of_string c d +:+ ")")
        | _ => Raised (InvalidParams prop)
        end
    | VNull | VUndef => Raised OpTypeError
    | VObj ps =>
        let+ x := with_prop operand (Raised InvalidOperand) "0" ps in
        let+ y := with_prop operand (Raised InvalidOperand) "1" ps in
        Done ("index_of(" +:+ x +:+ ", " +:+ y +:+ ")")
    | _ => Raised InvalidOperand
    end
  else Raised (UnsupportedOperator prop).

(** [_computePrjOperands(value)] *)
Definition _computePrjOperands (c : Collection) (v : value) : Outcome OpErr string :=
  operand_of c (_computePrjOperators c) v.

(** *** Replacing a document *)

(** The row that [replaceOne(filter, replacement)] hands to [putIfPresent],
    for a filter that has an [_id]. *)
Definition replaceOne_row (c : Collection) (filter replacement : value) : value :=
  VObj (JS.obj_assign (_setPK c [] filter)
                      (JS.enumerable (_fixTypesBeforeInsert replacement))).

(** ** Vocabulary of the statements *)

(** The bound-variable name that [_storeBinding] derives from a base name. *)
Definition binding_name (name : string) : string :=
  "$" +:+ Str.replace_first "." "_" name.

(** The accessor that [_computeDbProp] emits for one segment of a path. *)
Definition accessor (seg : string) : string :=
  if _isPositiveInteger seg then "[" +:+ seg +:+ "]"
  else "." +:+ Str.dquote +:+ seg +:+ Str.dquote.

Definition concat_strings (l : list string) : string :=
  fold_right String.append EmptyString l.

(** The [null] elements and the other elements of a [$in] operand. *)
Definition nulls (elems : list value) : nat :=
  length (List.filter JS.is_null elems).

Definition non_nulls (elems : list value) : list value :=
  List.filter (fun x => negb (JS.is_null x)) elems.

(** The filter [{prop: {$in: elems}}]. *)
Definition in_filter (prop : string) (elems : list value) : value :=
  VObj [(prop, VObj [("$in", VArr elems)])].

(** No date and no identifier object anywhere in a value. *)
Fixpoint plain_json (v : value) : bool :=
  match v with
  | VDate _ _ | VObjectId _ => false
  | VArr vs => forallb plain_json vs
  | VObj ps => forallb (fun kv => plain_json (snd kv)) ps
  | _ => true
  end.












(** A batch source that serves the given batches of rows, in order. *)
Definition batch_source (rows : list (list value)) : list GenStep :=
  List.map (fun rs => Batch (VObj [("rows", VArr rs)])) rows.

(** A client that answers every call, its batch source serving [rows]. *)
Definition serving_client (rows : list (list value)) : Client :=
  {| prepare := fun stmt => Ok {| ps_text := stmt; ps_vars := ∅ |};
     copyStatement := fun ps => Ok ps;
     queryIterable := fun _ => Ok (batch_source rows) |}.

(** Three rows of a simple-key table, served in two batches. *)
Definition sample_rows : list (list value) :=
  [[VObj [("kvid", VStr "a"); ("n", VNum 1)]; VObj [("kvid", VStr "b"); ("n", VNum 2)]];
   [VObj [("kvid", VStr "c"); ("n", VNum 3)]]].

Definition sample_documents : list value :=
  [VObj [("n", VNum 1); ("_id", VStr "a")]; VObj [("n", VNum 2); ("_id", VStr "b")];
   VObj [("n", VNum 3); ("_id", VStr "c")]].

(** A client whose batch source serves one batch and then fails. *)
Definition failing_client : Client :=
  {| prepare := fun stmt => Ok {| ps_text := stmt; ps_vars := ∅ |};
     copyStatement := fun ps => Ok ps;
     queryIterable := fun _ =>
       Ok [Batch (VObj [("rows", VArr [VObj [("kvid", VStr "a")]])]); Fail (StoreError 1)] |}.

(** A cache that already holds a prepared statement. *)
Definition warm_cache : gmap string PrepStmt :=
  {[ "SELECT * FROM other $t" := {| ps_text := "SELECT * FROM other $t"; ps_vars := ∅ |} ]}.

(** An operation that left the cursor closed and made no store call. *)
Definition quiet (w w' : Cursor) : Prop :=
  _isClosed w' = true /\ calls w' = calls w /\ prepStmtCache w' = prepStmtCache w.

(** ** Vocabulary of the further properties *)

(** What a compilation may do to the bindings object: an absent object stays
    absent; a present one keeps its names, and under each the value it held
    when that value is not falsy. *)
Definition extends (ob ob' : option Bindings) : Prop :=
  match ob, ob' with
  | None, None => True
  | Some b, Some b' =>
      dom b ⊆@{gset string} dom b' /\
      forall n x, b !! n = Some x -> JS.is_truthy x = true -> b' !! n = Some x
  | _, _ => False
  end.

Definition keeps_bindings {A} (m : Comp A) : Prop :=
  forall ob a ob', m ob = Ok (a, ob') -> extends ob ob'.

(** The step of the loop [for (let key in update)] of [_computeUpdateClause],
    as the definition has it. *)
Definition update_step (c : Collection) : Res string -> string * value -> Res string :=
  ltac:(let t := eval cbv beta zeta delta [_computeUpdateClause]
                   in (_computeUpdateClause c VUndef) in
        match t with
        | context [fold_left ?step _ _] => exact step
        end).

(** The operators of an update document. *)
Definition update_operators : list string :=
  ["$set"; "$unset"; "$currentDate"; "$inc"; "$min"; "$max"; "$mul"; "$rename"].

(** An entry of the update document that [_computeUpdateClause] accepts. *)
Definition known_update (kv : string * value) : bool :=
  JS.instanceof_Object (snd kv) && existsb (String.eqb (fst kv)) update_operators.

(** A text that is empty or opens with the separator of the clauses. *)
Definition separated (r : string) : Prop :=
  r = EmptyString \/ exists t, r = ", " +:+ t.

(** Two clause texts put together. *)
Definition glue (s1 s2 : string) : string :=
  if Str.is_empty s1 then s2
  else if Str.is_empty s2 then s1
  else s1 +:+ "," +:+ s2.

(** Cutting the leading separator off a separated text. *)
Definition cut_separator (r : string) : string :=
  if Str.startsWith "," r then Str.substring_from 1 r else r.

(** A running cursor whose buffer is empty and whose source serves next an
    empty batch, with [g] after it. *)
Definition before_empty_batch (g : list GenStep) : Cursor :=
  set_gen (Some (Batch (VObj [("rows", VArr [])]) :: g))
    (set_started (new_cursor (serving_client []) ∅ "SELECT * FROM t $t" None None)).

(** A client that cannot prepare. *)
Definition unprepared_client (e : Err) : Client :=
  {| prepare := fun _ => Throw e;
     copyStatement := fun ps => Ok ps;
     queryIterable := fun _ => Ok [] |}.

(** The names under which every plain object answers, own properties or
    not: the members of [Object.prototype]. *)
Definition Object_prototype_names : list string :=
  ["constructor"; "__defineGetter__"; "__defineSetter__"; "hasOwnProperty";
   "__lookupGetter__"; "__lookupSetter__"; "isPrototypeOf"; "propertyIsEnumerable";
   "toString"; "valueOf"; "__proto__"; "toLocaleString"].

Definition inherited (k : string) : bool :=
  existsb (String.eqb k) Object_prototype_names.

(** [Number.MAX_SAFE_INTEGER], and the integers that a double holds exactly
    and prints by their digits. *)
Definition MAX_SAFE_INTEGER : Z := 9007199254740991.

Definition safe_integer (n : Z) : Prop := (Z.abs n <= MAX_SAFE_INTEGER)%Z.

(** The directions of a sort specification that [_computeSortClause] knows. *)
Definition known_direction (kv : string * value) : bool :=
  bool_decide (is_Some (sort_direction (snd kv))).

(** The term of the ORDER BY list for an entry of a known direction. *)
Definition sort_term_text (c : Collection) (kv : string * value) : string :=
  _computeDbProp c (fst kv) +:+ default EmptyString (sort_direction (snd kv)).






(** The operators that render their parameters joined by a separator, with
    what opens the text and what separates the operands. *)
Definition joined_operators : list (string * (string * string)) :=
  [("$multiply", ("(", " * ")); ("$divide", ("(", " div ")); ("$add", ("(", " + "));
   ("$subtract", ("(", " - ")); ("$eq", ("(", " = ")); ("$ne", ("(", " != "));
   ("$gt", ("(", " > ")); ("$gte", ("(", " >= ")); ("$lt", ("(", " < "));
   ("$lte", ("(", " <= ")); ("$and", ("(", " AND ")); ("$or", ("(", " OR "));
   ("$concat", ("concat(", ", ")); ("$substrCP", ("substring(", ", "))].

(** The names that [_computePrjOperators] knows. *)
Definition projection_operators : list string :=
  ["$multiply"; "$divide"; "$mod"; "$add"; "$subtract"; "$abs"; "$ceil"; "$floor"; "$round";
   "$trunc"; "$exp"; "$log"; "$ln"; "$log10"; "$pow"; "$sqrt"; "$cos"; "$sin"; "$tan";
   "$acos"; "$asin"; "$atan"; "$atan2"; "$radiansToDegrees"; "$degreesToRadians"; "$rand";
   "$eq"; "$ne"; "$gt"; "$gte"; "$lt"; "$lte"; "$and"; "$or"; "$not"; "$concat"; "$substrCP";
   "$toUpper"; "$toLower"; "$trim"; "$ltrim"; "$rtrim"; "$strLenCP"; "$indexOfCP"].

(** The operators of a projection with the errors of the projection. *)
Definition operators_as (embed : OpErr -> Err) (c : Collection) (prop : string) (params : value)
  : Res string :=
  match _computePrjOperators c prop params with
  | Done s => Ok s
  | Raised e => Throw (embed e)
  end.

(** An entry of a projection that excludes, or that is about [_id]. *)
Definition excludes (kv : string * value) : bool :=
  String.eqb (fst kv) "_id" || is_zero (snd kv).

(** * Properties *)

(** ** Strings and property lists *)

Lemma append_cons (x : ascii) (a b : string) : String x a +:+ b = String x (a +:+ b).
Proof. reflexivity. Qed.

Lemma append_nil (b : string) : EmptyString +:+ b = b.
Proof. reflexivity. Qed.

Lemma substring_all (s : string) : String.substring 0 (String.length s) s = s.
Proof. induction s as [|a s IH]; simpl; [reflexivity | f_equal; exact IH]. Qed.

Lemma substring_from_1 (a : ascii) (s : string) : Str.substring_from 1 (String a s) = s.
Proof. unfold Str.substring_from. simpl. rewrite Nat.sub_0_r. apply substring_all. Qed.

Lemma append_assoc (a b c : string) : (a +:+ b) +:+ c = a +:+ (b +:+ c).
Proof.
  induction a as [|x a IH]; [reflexivity|].
  rewrite !append_cons. f_equal. exact IH.
Qed.

Lemma append_empty_r (a : string) : a +:+ EmptyString = a.
Proof.
  induction a as [|x a IH]; [reflexivity|].
  rewrite append_cons. f_equal. exact IH.
Qed.

Lemma is_empty_true (s : string) : Str.is_empty s = true <-> s = EmptyString.
Proof. destruct s; simpl; split; congruence. Qed.

Lemma truthy_string (s : string) : JS.is_truthy (VStr s) = true <-> s <> EmptyString.
Proof. destruct s; simpl; split; intros H; congruence. Qed.

(** ** Bindings *)

Lemma binding_taken_insert_same (b : Bindings) (name : string) (v : value) :
  binding_taken (<[name := v]> b) name = JS.is_truthy v.
Proof. unfold binding_taken. now rewrite lookup_insert_eq. Qed.

Lemma binding_taken_insert_other (b : Bindings) (name name' : string) (v : value) :
  name <> name' -> binding_taken (<[name := v]> b) name' = binding_taken b name'.
Proof. intros H. unfold binding_taken. now rewrite lookup_insert_ne. Qed.

(** The loop returns the first free candidate, and stores the value there. *)
Lemma _storeBinding_from_ok (n i : nat) (b : Bindings) (name : string) (v : value)
    (nm : string) (b' : Bindings) :
  _storeBinding_from n i b name v = Ok (nm, b') ->
  binding_taken b nm = false /\ b' = <[nm := v]> b /\
  exists j, i <= j < i + n /\ nm = name +:+ pretty j.
Proof.
  revert i. induction n as [|n IH]; intros i; simpl; [discriminate|].
  destruct (binding_taken b (name +:+ pretty i)) eqn:Ht.
  - intros H. destruct (IH _ H) as (H1 & H2 & j & Hj & Hnm).
    repeat split; try assumption. exists j. split; [lia | assumption].
  - intros H. injection H as <- <-. repeat split; try assumption.
    exists i. split; [lia | reflexivity].
Qed.

(** When every candidate is taken the loop throws. *)
Lemma _storeBinding_from_exhausted (n i : nat) (b : Bindings) (name : string) (v : value) :
  (forall j, i <= j < i + n -> binding_taken b (name +:+ pretty j) = true) ->
  _storeBinding_from n i b name v = Throw (TooManyBindings name).
Proof.
  revert i. induction n as [|n IH]; intros i H; simpl; [reflexivity|].
  rewrite (H i) by lia. apply IH. intros j Hj. apply H. lia.
Qed.

(** A free candidate in range makes the loop succeed. *)
Lemma _storeBinding_from_free (n i : nat) (b : Bindings) (name : string) (v : value) (j : nat) :
  i <= j < i + n -> binding_taken b (name +:+ pretty j) = false ->
  exists nm b', _storeBinding_from n i b name v = Ok (nm, b').
Proof.
  revert i. induction n as [|n IH]; intros i Hj Hfree; simpl; [lia|].
  destruct (binding_taken b (name +:+ pretty i)) eqn:Ht; [|eauto].
  apply IH; [|assumption].
  destruct (decide (i = j)) as [->|]; [congruence | lia].
Qed.

(** What a successful [_storeBinding] on a bindings object has done. *)
Lemma _storeBinding_ok (b : Bindings) (name : string) (v : value)
    (nm : string) (ob : option Bindings) :
  _storeBinding (Some b) name v = Ok (nm, ob) ->
  binding_taken b nm = false /\ ob = Some (<[nm := v]> b).
Proof.
  unfold _storeBinding.
  destruct (binding_taken b _) eqn:Ht; cbn [negb].
  - match goal with
    | |- context [_storeBinding_from ?n ?i ?b ?x ?v] =>
        destruct (_storeBinding_from n i b x v) as [[n' b']|] eqn:Hl; [|discriminate]
    end.
    intros H. injection H as <- <-.
    destruct (_storeBinding_from_ok _ _ _ _ _ _ _ Hl) as (H1 & -> & _). auto.
  - intros H. injection H as <- <-. auto.
Qed.

(** Without a bindings object the value is inlined as a literal. *)
Lemma _storeBinding_none (name : string) (v : value) :
  _storeBinding None name v = Ok (_computeLiteral v, None).
Proof. reflexivity. Qed.

(** For a value that is not falsy, a second store under the same base name
    gets a name of its own and leaves the first binding as it was. *)
Lemma _storeBinding_twice_truthy (b : Bindings) (name : string) (v1 v2 : value)
    (n1 n2 : string) (o1 o2 : option Bindings) :
  JS.is_truthy v1 = true ->
  _storeBinding (Some b) name v1 = Ok (n1, o1) ->
  (exists b1, o1 = Some b1 /\ _storeBinding (Some b1) name v2 = Ok (n2, o2)) ->
  n1 <> n2 /\
  exists b2, o2 = Some b2 /\ b2 !! n1 = Some v1 /\ b2 !! n2 = Some v2.
Proof.
  intros Hv H1 (b1 & -> & H2).
  apply _storeBinding_ok in H1 as (_ & Hb1). injection Hb1 as ->.
  apply _storeBinding_ok in H2 as (Hfree & ->).
  assert (n1 <> n2) as Hne.
  { intros <-. rewrite binding_taken_insert_same in Hfree. congruence. }
  split; [assumption|]. eexists; split; [reflexivity|].
  rewrite lookup_insert_eq. rewrite lookup_insert_ne by congruence.
  now rewrite lookup_insert_eq.
Qed.

(** When the base name and all the suffixed names up to the maximum are
    taken, the call fails. *)
Lemma _storeBinding_exhausted (b : Bindings) (name : string) (v : value) :
  let base := "$" +:+ Str.replace_first "." "_" name in
  binding_taken b base = true ->
  (forall i, 2 <= i < MAX_BINDING_NAME -> binding_taken b (base +:+ pretty i) = true) ->
  _storeBinding (Some b) name v = Throw (TooManyBindings base).
Proof.
  intros base H0 H. unfold _storeBinding. fold base. rewrite H0. cbn [negb].
  rewrite _storeBinding_from_exhausted; [reflexivity|].
  intros j Hj. apply H. unfold MAX_BINDING_NAME in *. lia.
Qed.

(** C2.  Two values stored under one base name, the first of them falsy: both
    calls return the same name, and the name ends up holding the second
    value, the first one is gone. *)
Theorem storeBinding_falsy_value_overwritten :
  _storeBinding (Some ∅) "a" (VNum 0) = Ok ("$a", Some {[ "$a" := VNum 0 ]}) /\
  _storeBinding (Some {[ "$a" := VNum 0 ]}) "a" (VNum 5)
    = Ok ("$a", Some {[ "$a" := VNum 5 ]}) /\
  ({[ "$a" := VNum 5 ]} : Bindings) !! "$a" <> Some (VNum 0).
Proof.
  split; [|split].
  - vm_compute. reflexivity.
  - vm_compute. reflexivity.
  - intros H. vm_compute in H. discriminate.
Qed.

Arguments _storeBinding_from : simpl never.
Arguments _storeBinding : simpl never.

(** ** Literals and the update clause *)

Lemma startsWith_cons (a : ascii) (s : string) :
  Str.startsWith (String a EmptyString) (String a s) = true.
Proof.
  unfold Str.startsWith. simpl. destruct (ascii_dec a a); [|congruence].
  now destruct s.
Qed.

(** The leading separator of the update clause is cut off. *)
Lemma strip_leading_comma (l s : string) :
  (if Str.startsWith "," (EmptyString +:+ String "," l +:+ s)
   then Str.substring_from 1 (EmptyString +:+ String "," l +:+ s)
   else EmptyString +:+ String "," l +:+ s) = l +:+ s.
Proof.
  rewrite append_nil, append_cons.
  now rewrite startsWith_cons, substring_from_1.
Qed.

Lemma _computeLiteral_falsy (v : value) :
  JS.is_truthy v = false -> _computeLiteral v = "NULL".
Proof. intros H. unfold _computeLiteral. now rewrite H. Qed.

Lemma _computeLiteral_truthy (v : value) :
  JS.is_truthy v = true -> _computeLiteral v = default "undefined" (JS.JSON_stringify v).
Proof. intros H. unfold _computeLiteral. now rewrite H. Qed.

Local Ltac update_clause Hv :=
  unfold _computeUpdateClause, update_clauses; cbn;
  rewrite ?(_computeLiteral_falsy _ Hv);
  rewrite strip_leading_comma; reflexivity.

(** C9.  A falsy value is rendered as the literal NULL, and so is a falsy
    operand of [$set], [$inc], [$mul], [$min] and [$max] in the update
    clause. *)
Theorem falsy_operand_compiles_to_NULL (c : Collection) (k : string) (v : value) :
  JS.is_truthy v = false ->
  let db := _computeDbProp c k in
  _computeLiteral v = "NULL" /\
  _computeUpdateClause c (VObj [("$set", VObj [(k, v)])])
    = Ok (" PUT " +:+ T +:+ " " +:+ _computeUpdateSetPutProp k "NULL") /\
  _computeUpdateClause c (VObj [("$inc", VObj [(k, v)])])
    = Ok (" SET " +:+ db +:+ " = " +:+ db +:+ " + " +:+ "NULL") /\
  _computeUpdateClause c (VObj [("$mul", VObj [(k, v)])])
    = Ok (" SET " +:+ db +:+ " = " +:+ db +:+ " * " +:+ "NULL") /\
  _computeUpdateClause c (VObj [("$min", VObj [(k, v)])])
    = Ok (" SET " +:+ db +:+ " = " +:+ "CASE WHEN " +:+ "NULL" +:+ " < " +:+ db +:+
          " THEN " +:+ "NULL" +:+ " ELSE " +:+ db +:+ " END") /\
  _computeUpdateClause c (VObj [("$max", VObj [(k, v)])])
    = Ok (" SET " +:+ db +:+ " = " +:+ "CASE WHEN " +:+ "NULL" +:+ " > " +:+ db +:+
          " THEN " +:+ "NULL" +:+ " ELSE " +:+ db +:+ " END").
Proof.
  intros Hv db. subst db.
  split; [exact (_computeLiteral_falsy v Hv)|].
  repeat split; update_clause Hv.
Qed.

Lemma falsy_operand_compiles_to_NULL_witness :
  _computeLiteral (VNum 0) = "NULL" /\
  _computeUpdateClause simple_collection (VObj [("$set", VObj [("qty", VNum 0)])])
    = Ok (" PUT $t {" +:+ Str.dquote +:+ "qty" +:+ Str.dquote +:+ ": NULL}").
Proof.
  destruct (falsy_operand_compiles_to_NULL simple_collection "qty" (VNum 0) eq_refl)
    as (H1 & H2 & _).
  split; [exact H1 | exact H2].
Defined.

(** ** Field paths *)

Lemma fold_accessors (segs : list string) (acc : string) :
  fold_left (fun acc cur =>
               if _isPositiveInteger cur then acc +:+ "[" +:+ cur +:+ "]"
               else acc +:+ "." +:+ Str.dquote +:+ cur +:+ Str.dquote) segs acc
  = acc +:+ concat_strings (accessor <$> segs).
Proof.
  revert acc. induction segs as [|seg segs IH]; intros acc; simpl.
  - now rewrite append_empty_r.
  - rewrite IH. unfold accessor.
    destruct (_isPositiveInteger seg); now rewrite append_assoc.
Qed.

(** C10.  A path that starts with the characters [_id] is the key column on a
    simple-key table and its remainder, as a column, on a composite-key table;
    every other path is the chain of the accessors of its segments followed by
    the array-flatten marker. *)
Theorem _computeDbProp_id_prefix (c : Collection) (prop : string) :
  _computeDbProp c prop =
    if Str.startsWith "_id" prop then
      if _hasCompositeKeys c then T +:+ "." +:+ Str.substring_from 3 prop
      else T +:+ "." +:+ KVID
    else T +:+ concat_strings (accessor <$> Str.split "." prop) +:+ "[]".
Proof.
  unfold _computeDbProp.
  destruct (Str.startsWith "_id" prop).
  - now destruct (_hasCompositeKeys c).
  - rewrite fold_accessors. rewrite append_nil. reflexivity.
Qed.

Example _computeDbProp_idx :
  _computeDbProp simple_collection "_idx" = "$t.kvid" /\
  _computeDbProp simple_collection "_identity" = "$t.kvid" /\
  _computeDbProp {| _hasCompositeKeys := true; _primaryKeyList := ["a"; "b"] |} "_idx" = "$t.x" /\
  _computeDbProp {| _hasCompositeKeys := true; _primaryKeyList := ["a"; "b"] |} "_identity"
    = "$t.entity" /\
  _computeDbProp simple_collection "a.0.b"
    = "$t." +:+ Str.dquote +:+ "a" +:+ Str.dquote +:+ "[0]." +:+
      Str.dquote +:+ "b" +:+ Str.dquote +:+ "[]".
Proof. repeat split; vm_compute; reflexivity. Qed.

(** ** The identity filter *)

Lemma _storeBinding_fresh (b : Bindings) (name : string) (v : value) :
  binding_taken b (binding_name name) = false ->
  _storeBinding (Some b) name v
    = Ok (binding_name name, Some (<[binding_name name := v]> b)).
Proof. intros H. unfold _storeBinding. fold (binding_name name). now rewrite H. Qed.

Lemma _storeBinding_second (b : Bindings) (name : string) (v : value) :
  binding_taken b (binding_name name) = true ->
  binding_taken b (binding_name name +:+ "2") = false ->
  _storeBinding (Some b) name v
    = Ok (binding_name name +:+ "2", Some (<[binding_name name +:+ "2" := v]> b)).
Proof.
  intros H1 H2. unfold _storeBinding. fold (binding_name name). rewrite H1. cbn [negb].
  unfold MAX_BINDING_NAME. change (1000 - 2) with (S 997).
  unfold _storeBinding_from. change (pretty 2) with "2". now rewrite H2.
Qed.

Lemma binding_taken_empty (name : string) : binding_taken ∅ name = false.
Proof. unfold binding_taken. now rewrite lookup_empty. Qed.

(** C1.  On a simple-key table the filter [{_id: s}], for a string [s] that is
    not empty, compiles to one equality against the key column, but the
    bindings object holds two bindings afterwards: [_computeWhere] evaluates
    [_computeWherePk] twice, and the text refers to the second binding. *)
Theorem computeWhere_identity_stores_two_bindings (c : Collection) (s : string) :
  _hasCompositeKeys c = false ->
  s <> EmptyString ->
  _computeWhere c (VObj [("_id", VStr s)]) (Some ∅)
    = Ok (" WHERE ($t.kvid = $id2)",
          Some (<["$id2" := VStr s]> (<["$id" := VStr s]> ∅))) /\
  size (<["$id2" := VStr s]> (<["$id" := VStr s]> (∅ : Bindings))) = 2.
Proof.
  intros Hc Hs. split.
  - destruct s as [|a s]; [congruence|].
    unfold _computeWhere. cbn. unfold _computeWherePk. rewrite Hc. cbn [negb].
    unfold bind, store, ret.
    rewrite _storeBinding_fresh by apply binding_taken_empty.
    change (binding_name "id") with "$id". cbn [JS.to_string].
    match goal with
    | |- context [String.length ?x] =>
        let n := eval vm_compute in (String.length x) in
        change (String.length x) with n
    end.
    cbv beta iota.
    rewrite _storeBinding_second.
    + reflexivity.
    + change (binding_name "id") with "$id". now rewrite binding_taken_insert_same.
    + change (binding_name "id" +:+ "2") with "$id2".
      rewrite binding_taken_insert_other by discriminate. apply binding_taken_empty.
  - rewrite map_size_insert_None.
    + now rewrite map_size_insert_None, map_size_empty by apply lookup_empty.
    + rewrite lookup_insert_ne by discriminate. apply lookup_empty.
Qed.

Lemma computeWhere_identity_stores_two_bindings_witness :
  _computeWhere simple_collection (VObj [("_id", VStr "abc")]) (Some ∅)
    = Ok (" WHERE ($t.kvid = $id2)",
          Some (<["$id2" := VStr "abc"]> (<["$id" := VStr "abc"]> ∅))) /\
  size (<["$id2" := VStr "abc"]> (<["$id" := VStr "abc"]> (∅ : Bindings))) = 2.
Proof.
  apply (computeWhere_identity_stores_two_bindings simple_collection "abc").
  - reflexivity.
  - discriminate.
Defined.

(** The same on a composite key: one equality for each key field that the
    identity holds a truthy value for, and two bindings for each of them. *)
Example computeWhere_identity_composite :
  _computeWhere {| _hasCompositeKeys := true; _primaryKeyList := ["a"; "b"; "c"] |}
    (VObj [("_id", VObj [("a", VStr "x"); ("c", VNum 7)])]) (Some ∅)
  = Ok (" WHERE ($t.a = $id_a2 AND $t.c = $id_c2)",
        Some (<["$id_c2" := VNum 7]> (<["$id_a2" := VStr "x"]>
             (<["$id_c" := VNum 7]> (<["$id_a" := VStr "x"]> ∅))))).
Proof. vm_compute. reflexivity. Qed.

(** A key field that the identity holds with a falsy value is left out like
    an absent one. *)
Example computeWhere_identity_composite_falsy :
  _computeWhere {| _hasCompositeKeys := true; _primaryKeyList := ["a"; "b"] |}
    (VObj [("_id", VObj [("a", VStr "x"); ("b", VNum 0)])]) (Some ∅)
  = Ok (" WHERE ($t.a = $id_a2)",
        Some (<["$id_a2" := VStr "x"]> (<["$id_a" := VStr "x"]> ∅))).
Proof. vm_compute. reflexivity. Qed.

(** ** The [$in] operator *)

Lemma join_snoc (sep : string) (prev : list string) (n : string) :
  Str.join sep (prev ++ [n]) =
    (if 0 <? length prev then Str.join sep prev +:+ sep else EmptyString) +:+ n.
Proof.
  induction prev as [|x prev IH]; [reflexivity|].
  destruct prev as [|y prev].
  - simpl. now rewrite append_assoc.
  - change (Str.join sep ((x :: y :: prev) ++ [n]))
      with (x +:+ sep +:+ Str.join sep ((y :: prev) ++ [n])).
    rewrite IH. cbn [length Nat.ltb Nat.leb].
    change (Str.join sep (x :: y :: prev)) with (x +:+ sep +:+ Str.join sep (y :: prev)).
    now rewrite !append_assoc.
Qed.

Lemma nulls_cons (x : value) (elems : list value) :
  nulls (x :: elems) = (if JS.is_null x then 1 else 0) + nulls elems.
Proof. unfold nulls. simpl. now destruct (JS.is_null x). Qed.

Lemma non_nulls_cons (x : value) (elems : list value) :
  non_nulls (x :: elems) = if JS.is_null x then non_nulls elems else x :: non_nulls elems.
Proof. unfold non_nulls. simpl. now destruct (JS.is_null x). Qed.

(** The loop over an operand with at most one [null] and no falsy element:
    the names come out joined by commas, one for every other element, no two
    of them the same, and each holds its element afterwards. *)
Lemma in_list_truthy (prop : string) (elems : list value) :
  forall (i : nat) (inRes : string) (cn : bool) (cnt : nat) (b : Bindings)
         (r : string) (cn' : bool) (cnt' : nat) (ob' : option Bindings)
         (pre : string) (prev : list string),
    in_list prop elems i inRes cn cnt (Some b) = Ok ((r, cn', cnt'), ob') ->
    inRes = pre +:+ Str.join "," prev ->
    i = length prev + (if cn then 1 else 0) ->
    nulls elems + (if cn then 1 else 0) <= 1 ->
    forallb JS.is_truthy (non_nulls elems) = true ->
    exists (names : list string) (b' : Bindings),
      ob' = Some b' /\
      r = pre +:+ Str.join "," (prev ++ names) /\
      cn' = cn || (0 <? nulls elems) /\
      cnt' = cnt + length names /\
      List.NoDup names /\
      List.Forall (fun n => binding_taken b n = false) names /\
      List.Forall2 (fun n x => b' !! n = Some x) names (non_nulls elems) /\
      (forall m, binding_taken b m = true -> b' !! m = b !! m).
Proof.
  induction elems as [|x elems IH];
    intros i inRes cn cnt b r cn' cnt' ob' pre prev H Hres Hi Hn Ht.
  - simpl in H. injection H as <- <- <- <-.
    exists [], b. rewrite app_nil_r. cbn.
    repeat split; auto using orb_false_r; constructor.
  - rewrite nulls_cons in Hn. rewrite non_nulls_cons in Ht. rewrite nulls_cons, non_nulls_cons.
    simpl in H. destruct (JS.is_null x) eqn:Hx.
    + destruct cn; [simpl in Hn; lia|].
      eapply IH in H as (names & b' & ? & ? & ? & ? & ? & ? & ? & ?);
        [| exact Hres | simpl in *; lia | simpl in *; lia | exact Ht].
      exists names, b'. repeat split; auto.
    + cbn [forallb] in Ht. apply andb_true_iff in Ht as [Hxt Ht].
      unfold bind, store in H.
      destruct (_storeBinding (Some b) prop x) as [[n ob1]|] eqn:Hs; [|discriminate].
      apply _storeBinding_ok in Hs as (Hfree & ->).
      assert (binding_taken (<[n := x]> b) n = true) as Htaken.
      { unfold binding_taken. now rewrite lookup_insert_eq. }
      eapply (IH _ _ _ _ _ _ _ _ _ pre (prev ++ [n])) in H
        as (names & b' & ? & ? & ? & ? & Hnd & Hnew & Hheld & Hkept).
      * exists (n :: names), b'. rewrite <- app_assoc in *. simpl.
        repeat split; auto; try lia.
        -- constructor; [|assumption]. intros Hin.
           pose proof (proj1 (List.Forall_forall _ _) Hnew n Hin) as Hc. congruence.
        -- constructor; [assumption|].
           eapply List.Forall_impl; [|exact Hnew]. intros m Hm. cbv beta in Hm.
           unfold binding_taken in *.
           destruct (decide (n = m)) as [->|Hne]; [assumption|].
           now rewrite lookup_insert_ne in Hm.
        -- constructor; [|assumption].
           rewrite (Hkept n Htaken). apply lookup_insert_eq.
        -- intros m Hm.
           assert (n <> m) as Hne by (intros ->; congruence).
           rewrite Hkept.
           ++ now rewrite lookup_insert_ne.
           ++ unfold binding_taken in *. now rewrite lookup_insert_ne.
      * rewrite join_snoc, Hres.
        replace ((if cn then 1 else 0) <? i) with (0 <? length prev).
        -- destruct prev as [|y prev]; cbn [length Nat.ltb Nat.leb];
             now rewrite !append_assoc.
        -- subst i.
           destruct (Nat.ltb_spec 0 (length prev)),
             (Nat.ltb_spec (if cn then 1 else 0) (length prev + (if cn then 1 else 0)));
             destruct cn; try reflexivity; lia.
      * rewrite length_app. simpl. lia.
      * simpl in Hn. lia.
      * exact Ht.
Qed.

Lemma is_empty_cons_append (a : ascii) (s t : string) :
  Str.is_empty (String a s +:+ t) = false.
Proof. reflexivity. Qed.

(** Compiling [{prop: {$in: elems}}] is [comp_in] on the operand, wrapped. *)
Lemma _computeCompExp_in_filter (c : Collection) (prop : string) (elems : list value)
    (ob : option Bindings) :
  Str.startsWith "$" prop = false ->
  _computeCompExp c (in_filter prop elems) ob =
    match comp_in c prop "$in" (VArr elems) ob with
    | Ok (s, ob') => Ok (comp_close s, ob')
    | Throw e => Throw e
    end.
Proof.
  intros Hp. unfold in_filter. cbn [_computeCompExp]. rewrite Hp.
  unfold comp_field.
  cbn [JS.instanceof_Object JS.enumerable length Nat.ltb Nat.leb andb comp_operators].
  unfold comp_operator.
  cbn [String.eqb Ascii.eqb Bool.eqb orb andb negb Str.is_empty].
  unfold bind, ret.
  destruct (comp_in c prop "$in" (VArr elems) ob) as [[s ob']|]; reflexivity.
Qed.

Lemma non_nulls_nil_in_list (prop : string) (elems : list value) :
  non_nulls elems = [] ->
  forall (i : nat) (inRes : string) (cn : bool) (cnt : nat) (ob : option Bindings),
    in_list prop elems i inRes cn cnt ob = Ok ((inRes, cn || (0 <? nulls elems), cnt), ob).
Proof.
  induction elems as [|x elems IH]; intros Hnn i inRes cn cnt ob.
  - simpl. unfold ret. now rewrite orb_false_r.
  - rewrite non_nulls_cons in Hnn. rewrite nulls_cons. simpl.
    destruct (JS.is_null x); [|discriminate].
    rewrite IH by assumption. simpl. now rewrite orb_true_r.
Qed.

(** The filter [{prop: {$in: elems}}] with a bindings object, for elements
    none of which is falsy.  When [elems] holds one [null] and N >= 1 other
    values, the predicate is the disjunction of the list comparison and of the
    array-contains check, both over the same N names, and of one [NOT EXISTS]
    branch; the N names differ from one another and each holds its element.
    When no element is left after removing the [null]s, nothing is bound and
    the text holds no comparison. *)
Lemma in_operator_truthy_elements (c : Collection) (prop : string) (elems : list value)
    (b : Bindings) (text : string) (ob' : option Bindings) :
  Str.startsWith "$" prop = false ->
  _computeCompExp c (in_filter prop elems) (Some b) = Ok (text, ob') ->
  let kv := _computeDbProp c prop in
  (nulls elems = 1 -> non_nulls elems <> [] ->
   forallb JS.is_truthy (non_nulls elems) = true ->
   exists (names : list string) (b' : Bindings),
     ob' = Some b' /\
     List.NoDup names /\
     List.Forall2 (fun n x => b' !! n = Some x) names (non_nulls elems) /\
     text = concat_strings
              ["(("; kv; " IN ("; Str.join "," names; ")";
               " OR EXISTS ("; kv; "[$element"; " IN ("; Str.join "," names; ")"; "])";
               " OR NOT EXISTS "; kv; "))"]) /\
  (non_nulls elems = [] ->
   ob' = Some b /\
   text = if 0 <? nulls elems
          then concat_strings ["("; " OR NOT EXISTS "; kv; "))"]
          else EmptyString).
Proof.
  intros Hp H kv. rewrite _computeCompExp_in_filter in H by assumption.
  split.
  - intros Hone Hnn Ht.
    destruct elems as [|x elems]; [contradiction|].
    unfold comp_in in H. unfold bind at 1 in H.
    destruct (in_list prop (x :: elems) 0 " IN (" false 0 (Some b))
      as [[[[inRes cn] cnt] ob1]|] eqn:Hl; [|discriminate].
    eapply (in_list_truthy _ _ _ _ _ _ _ _ _ _ _ " IN (" []) in Hl
      as (names & b' & -> & -> & -> & -> & Hnd & _ & Hheld & _);
      [| reflexivity | reflexivity | simpl; lia | exact Ht].
    exists names, b'. unfold ret in H. rewrite Hone in H.
    assert ((0 <? 0 + length names) = true) as Hpos.
    { rewrite (List.Forall2_length Hheld).
      destruct (non_nulls (x :: elems)); [contradiction | reflexivity]. }
    rewrite Hpos in H. cbn [String.eqb Ascii.eqb Bool.eqb orb andb Nat.ltb Nat.leb] in H.
    injection H as <- <-. repeat split; try assumption.
    fold kv. unfold comp_close, concat_strings. cbn [fold_right app].
    rewrite !append_assoc. reflexivity.
  - intros Hnn.
    destruct elems as [|x elems].
    + cbn in H. injection H as <- <-. split; reflexivity.
    + assert ((0 <? nulls (x :: elems)) = true) as Hpos.
      { rewrite non_nulls_cons in Hnn. rewrite nulls_cons.
        destruct (JS.is_null x); [reflexivity | discriminate]. }
      unfold comp_in in H. unfold bind at 1 in H.
      rewrite non_nulls_nil_in_list in H by assumption.
      rewrite Hpos in *. unfold ret in H.
      cbn [String.eqb Ascii.eqb Bool.eqb orb andb Nat.ltb Nat.leb] in H.
      fold kv in H. injection H as <- <-. split; [reflexivity|].
      unfold comp_close, concat_strings. cbn [fold_right].
      rewrite !append_assoc, !append_nil. rewrite is_empty_cons_append.
      reflexivity.
Qed.

(** C5.  An element that is falsy without being [null] (the number 0, the
    empty string, [false]) does not get a comparison of its own.  In
    [{prop: {$in: [x, null, y]}}] with such an [x], the two names in the list
    are one name, and the bindings object holds one binding under it, the
    value [y]: the predicate compares with [y] twice and never with [x]. *)
Theorem in_operator_falsy_element (c : Collection) (prop : string) (x y : value) :
  Str.startsWith "$" prop = false ->
  JS.is_null x = false -> JS.is_truthy x = false -> JS.is_null y = false ->
  let kv := _computeDbProp c prop in
  let n := binding_name prop in
  _computeCompExp c (in_filter prop [x; VNull; y]) (Some ∅)
    = Ok (concat_strings
            ["(("; kv; " IN ("; Str.join "," [n; n]; ")";
             " OR EXISTS ("; kv; "[$element"; " IN ("; Str.join "," [n; n]; ")"; "])";
             " OR NOT EXISTS "; kv; "))"],
          Some {[ n := y ]}).
Proof.
  intros Hp Hx Hf Hy kv n. rewrite _computeCompExp_in_filter by assumption.
  assert (in_list prop [x; VNull; y] 0 " IN (" false 0 (Some ∅)
          = Ok ((" IN (" +:+ n +:+ "," +:+ n, true, 2), Some {[ n := y ]})) as Hl.
  { cbn [in_list]. rewrite Hx, Hy. cbn [JS.is_null Nat.ltb Nat.leb].
    unfold bind, store, ret.
    rewrite _storeBinding_fresh by apply binding_taken_empty. fold n.
    rewrite _storeBinding_fresh.
    2:{ unfold binding_taken. fold n. rewrite lookup_insert_eq. exact Hf. }
    fold n. rewrite insert_insert_eq, !append_assoc. reflexivity. }
  unfold comp_in. unfold bind at 1. rewrite Hl. unfold ret.
  cbn [String.eqb Ascii.eqb Bool.eqb orb andb Nat.ltb Nat.leb].
  fold kv. unfold comp_close, concat_strings. cbn [fold_right app Str.join].
  rewrite !append_assoc. reflexivity.
Qed.

Lemma in_operator_falsy_element_witness :
  _computeCompExp simple_collection (in_filter "a" [VNum 0; VNull; VNum 5]) (Some ∅)
    = Ok ("(($t." +:+ Str.dquote +:+ "a" +:+ Str.dquote +:+ "[] IN ($a,$a) OR EXISTS ($t." +:+
          Str.dquote +:+ "a" +:+ Str.dquote +:+ "[][$element IN ($a,$a)]) OR NOT EXISTS $t." +:+
          Str.dquote +:+ "a" +:+ Str.dquote +:+ "[]))",
          Some {[ "$a" := VNum 5 ]}).
Proof.
  exact (in_operator_falsy_element simple_collection "a" (VNum 0) (VNum 5)
           eq_refl eq_refl eq_refl eq_refl).
Defined.

(** ** The row marshaller *)

Lemma mapR_id {A} (f : A -> Res A) (l : list A) :
  Forall (fun x => f x = Ok x) l -> mapR f l = Ok l.
Proof.
  induction 1 as [|x l Hx _ IH]; simpl; [reflexivity|].
  now rewrite Hx, IH.
Qed.



Lemma obj_get_None (k : string) (ps : list (string * value)) :
  JS.obj_get k ps = None <-> ~ In k (List.map fst ps).
Proof.
  induction ps as [|[k' v] ps IH]; simpl; [tauto|].
  destruct (String.eqb_spec k k') as [->|Hne].
  - split; [discriminate | intros H; contradiction H; now left].
  - rewrite IH. split; [intros H [->|]; tauto | tauto].
Qed.



Lemma obj_get_delete_other (k k' : string) (ps : list (string * value)) :
  k <> k' -> JS.obj_get k' (JS.obj_delete k ps) = JS.obj_get k' ps.
Proof.
  intros Hne. induction ps as [|[k0 v] ps IH]; simpl; [reflexivity|].
  destruct (String.eqb_spec k k0) as [<-|Hk].
  - rewrite IH. destruct (String.eqb_spec k' k); [congruence | reflexivity].
  - simpl. now rewrite IH.
Qed.



Lemma obj_delete_keys (k k' : string) (ps : list (string * value)) :
  In k' (List.map fst (JS.obj_delete k ps)) -> In k' (List.map fst ps).
Proof.
  induction ps as [|[k0 v] ps IH]; simpl; [tauto|].
  destruct (String.eqb k k0); simpl; tauto.
Qed.

Lemma obj_delete_NoDup (k : string) (ps : list (string * value)) :
  List.NoDup (List.map fst ps) -> List.NoDup (List.map fst (JS.obj_delete k ps)).
Proof.
  induction ps as [|[k0 v] ps IH]; simpl; [trivial|].
  intros H. apply List.NoDup_cons_iff in H as [Hnin Hnd].
  destruct (String.eqb k k0); [auto|]. simpl.
  apply List.NoDup_cons; [|auto]. intros Hin. apply Hnin. eapply obj_delete_keys, Hin.
Qed.


Lemma obj_get_map (k : string) (f : value -> value) (ps : list (string * value)) :
  JS.obj_get k (List.map (fun kv => (fst kv, f (snd kv))) ps) = f <$> JS.obj_get k ps.
Proof.
  induction ps as [|[k0 v0] ps IH]; simpl; [reflexivity|].
  destruct (String.eqb k k0); [reflexivity | exact IH].
Qed.

Lemma map_fst_map (f : value -> value) (ps : list (string * value)) :
  List.map fst (List.map (fun kv => (fst kv, f (snd kv))) ps) = List.map fst ps.
Proof. induction ps as [|[k v] ps IH]; simpl; [reflexivity | now rewrite IH]. Qed.
















(** ** The find cursor *)

Lemma fetchBatch_closed (w : Cursor) :
  _isClosed w = true -> fetchBatch w = (Ok tt, w).
Proof. intros H. unfold fetchBatch. now rewrite H. Qed.

(** A running cursor whose source has a batch of rows left loads it. *)
Lemma fetchBatch_batch (w : Cursor) (rs docs : list value) (g : list GenStep) :
  _isClosed w = false -> _isStarted w = true ->
  _gen w = Some (Batch (VObj [("rows", VArr rs)]) :: g) ->
  mapR read_row rs = Ok docs ->
  fetchBatch w = (Ok tt, set_documents docs (set_gen (Some g) (record_call CallNext w))).
Proof.
  intros Hc Hs Hg Hr. unfold fetchBatch. rewrite Hc, Hs. cbn [negb]. rewrite Hg.
  cbn. now rewrite Hr.
Qed.

(** A running cursor whose source is done closes. *)
Lemma fetchBatch_done (w : Cursor) :
  _isClosed w = false -> _isStarted w = true -> _gen w = Some [] ->
  fetchBatch w = (Ok tt, close (record_call CallNext w)).
Proof.
  intros Hc Hs Hg. unfold fetchBatch. rewrite Hc, Hs. cbn [negb]. now rewrite Hg.
Qed.

(** When the client answers, the first fetch opens the batch source. *)
Lemma start_query_ok (w : Cursor) (g : list GenStep) :
  (forall stmt, is_ok (prepare (client w) stmt) = true) ->
  (forall ps, is_ok (copyStatement (client w) ps) = true) ->
  (forall ps, queryIterable (client w) ps = Ok g) ->
  exists w', start_query w = (Ok tt, w') /\
             _gen w' = Some g /\ _isStarted w' = true /\
             _isClosed w' = _isClosed w /\ _documents w' = _documents w /\
             maxLimit w' = maxLimit w.
Proof.
  intros Hp Hcp Hq. unfold start_query. cbn.
  repeat (match goal with
          | |- context [prepStmtCache w !! statement w] =>
              destruct (prepStmtCache w !! statement w)
          | |- context [prepare (client w) ?s] =>
              let H := fresh in
              pose proof (Hp s) as H; destruct (prepare (client w) s); [|discriminate H]
          | |- context [bindings w] => destruct (bindings w)
          | |- context [size ?b] => destruct (size b)
          | |- context [copyStatement (client w) ?p] =>
              let H := fresh in
              pose proof (Hcp p) as H; destruct (copyStatement (client w) p); [|discriminate H]
          | |- context [queryIterable (client w) ?p] => rewrite (Hq p)
          end; cbn).
  all: eexists; split; [reflexivity|]; cbn; auto.
Qed.

Lemma mapR_cons_inv {A B} (f : A -> Res B) (x : A) (l : list A) (ys : list B) :
  mapR f (x :: l) = Ok ys ->
  exists y ys', ys = y :: ys' /\ f x = Ok y /\ mapR f l = Ok ys'.
Proof.
  simpl. destruct (f x) as [y|]; [|discriminate].
  destruct (mapR f l) as [ys'|]; [|discriminate].
  intros H. injection H as <-. eauto.
Qed.

(** The loop of [toArray] on a running cursor: with what is collected, what
    is buffered and what the source still serves within the cap, it returns
    all of it in order; beyond the cap it throws. *)
Lemma toArray_loop_running (rows : list (list value)) :
  forall (docs : list (list value)) (rounds : nat) (array : list value) (w : Cursor),
    mapR (mapR read_row) rows = Ok docs ->
    _isClosed w = false -> _isStarted w = true ->
    _gen w = Some (batch_source rows) ->
    length rows < rounds ->
    let all := array ++ _documents w ++ concat docs in
    ((Z.of_nat (length all) <= maxLimit w)%Z ->
     exists w', toArray_loop rounds array w = Some (Ok all, w') /\ _isClosed w' = true) /\
    ((maxLimit w < Z.of_nat (length all))%Z ->
     exists n w', toArray_loop rounds array w = Some (Throw (ResultLimitExceeded n), w') /\
                  (maxLimit w < n)%Z).
Proof.
  induction rows as [|rs rows IH]; intros docs rounds array w Hr Hc Hs Hg Hn all.
  - simpl in Hr. injection Hr as <-. subst all. simpl concat. rewrite app_nil_r.
    destruct rounds as [|rounds]; [simpl in Hn; lia|]. simpl toArray_loop.
    rewrite length_app.
    destruct (Z.ltb_spec (maxLimit w) (Z.of_nat (length array + length (_documents w)))).
    + split; [lia | intros _; eauto].
    + split; [|lia]. intros _.
      rewrite fetchBatch_done by assumption. cbn. eauto.
  - apply mapR_cons_inv in Hr as (ds & docs' & -> & Hrs & Hr).
    destruct rounds as [|rounds]; [simpl in Hn; lia|]. simpl in Hn.
    subst all. simpl toArray_loop. simpl concat.
    destruct (Z.ltb_spec (maxLimit w) (Z.of_nat (length array + length (_documents w)))).
    + split; [|intros _; eauto].
      rewrite !length_app. lia.
    + simpl in Hg. rewrite (fetchBatch_batch _ _ _ _ Hc Hs Hg Hrs). cbn [_isClosed set_documents].
      cbn [set_gen record_call _isClosed]. rewrite Hc.
      specialize (IH docs' rounds (array ++ _documents w)
                    (set_documents ds (set_gen (Some (batch_source rows)) (record_call CallNext w)))
                    Hr Hc Hs eq_refl ltac:(lia)).
      cbn [_documents maxLimit set_documents set_gen record_call] in IH.
      rewrite <- !app_assoc in IH. exact IH.
Qed.

(** C4.  A fresh cursor with cap K, on a store that answers and serves rows
    which read into [docs]: when they are K+1 documents [toArray] throws the
    limit error, when they are K it returns them all, in the order served. *)
Theorem toArray_cap (cl : Client) (cache : gmap string PrepStmt) (stmt : string)
    (b : option Bindings) (K : Z) (rows docs : list (list value)) (rounds : nat) :
  (0 <= K)%Z ->
  (forall s, is_ok (prepare cl s) = true) ->
  (forall ps, is_ok (copyStatement cl ps) = true) ->
  (forall ps, queryIterable cl ps = Ok (batch_source rows)) ->
  mapR (mapR read_row) rows = Ok docs ->
  length rows + 1 < rounds ->
  let w0 := new_cursor cl cache stmt b (Some K) in
  (Z.of_nat (length (concat docs)) = (K + 1)%Z ->
   exists n w', toArray rounds w0 = Some (Throw (ResultLimitExceeded n), w')) /\
  (Z.of_nat (length (concat docs)) = K ->
   exists w', toArray rounds w0 = Some (Ok (concat docs), w') /\ _isClosed w' = true).
Proof.
  intros HK Hp Hcp Hq Hr Hn w0.
  destruct rounds as [|rounds]; [lia|].
  assert ((K <? 0)%Z = false) as Hlim by (apply Z.ltb_ge; lia).
  unfold toArray. simpl toArray_loop.
  cbn [maxLimit _documents w0 new_cursor default from_option id length Nat.add].
  change (Z.of_nat 0) with 0%Z. rewrite Hlim.
  destruct (start_query_ok w0 (batch_source rows) Hp Hcp Hq)
    as (w1 & Hst & Hg & Hs & Hc & Hd & Hm).
  unfold fetchBatch. cbn [_isClosed _isStarted w0 new_cursor negb]. rewrite Hst, Hg.
  destruct rows as [|rs rows].
  - simpl in Hr. injection Hr as <-. cbn. split; [lia|]. intros _. eauto.
  - apply mapR_cons_inv in Hr as (ds & docs' & -> & Hrs & Hr).
    cbn [batch_source List.map JS.get_prop JS.obj_get String.eqb Ascii.eqb Bool.eqb
         default from_option id JS.is_truthy].
    rewrite Hrs. cbn [_isClosed set_documents set_gen record_call]. rewrite Hc.
    cbn [_isClosed w0 new_cursor app].
    pose proof (toArray_loop_running rows docs' rounds []
                  (set_documents ds (set_gen (Some (batch_source rows)) (record_call CallNext w1)))
                  Hr) as Hloop.
    cbn [_isClosed _isStarted _gen _documents maxLimit set_documents set_gen record_call] in Hloop.
    rewrite Hc, Hs, Hm in Hloop. cbn [w0 new_cursor _isClosed maxLimit default from_option id] in Hloop.
    specialize (Hloop eq_refl eq_refl eq_refl ltac:(simpl in Hn; lia)) as [Hok Hover].
    cbn [app concat] in *.
    split.
    + intros Hlen. destruct Hover as (n & w' & Hrun & _); [lia|]. eauto.
    + intros Hlen. apply Hok. lia.
Qed.

Lemma toArray_cap_witness :
  (exists w', toArray 4 (new_cursor (serving_client sample_rows) ∅ "SELECT * FROM t $t"
                           (Some ∅) (Some 3%Z))
              = Some (Ok sample_documents, w') /\ _isClosed w' = true) /\
  (exists n w', toArray 4 (new_cursor (serving_client sample_rows) ∅ "SELECT * FROM t $t"
                             (Some ∅) (Some 2%Z))
                = Some (Throw (ResultLimitExceeded n), w')).
Proof.
  split.
  - refine (proj2 (toArray_cap (serving_client sample_rows) ∅ "SELECT * FROM t $t" (Some ∅) 3
                     sample_rows
                     [[VObj [("n", VNum 1); ("_id", VStr "a")];
                       VObj [("n", VNum 2); ("_id", VStr "b")]];
                      [VObj [("n", VNum 3); ("_id", VStr "c")]]]
                     4 _ _ _ _ _ _) _);
      try reflexivity; try (intros; reflexivity); simpl; lia.
  - refine (proj1 (toArray_cap (serving_client sample_rows) ∅ "SELECT * FROM t $t" (Some ∅) 2
                     sample_rows
                     [[VObj [("n", VNum 1); ("_id", VStr "a")];
                       VObj [("n", VNum 2); ("_id", VStr "b")]];
                      [VObj [("n", VNum 3); ("_id", VStr "c")]]]
                     4 _ _ _ _ _ _) _);
      try reflexivity; try (intros; reflexivity); simpl; lia.
Defined.

(** A failure of [next()] on the batch source leaves the cache as it is. *)
Lemma fetchBatch_next_failure (w : Cursor) (e : Err) (g : list GenStep) :
  _isClosed w = false -> _isStarted w = true -> _gen w = Some (Fail e :: g) ->
  exists w', fetchBatch w = (Throw e, w') /\ prepStmtCache w' = prepStmtCache w.
Proof.
  intros Hc Hs Hg. unfold fetchBatch. rewrite Hc, Hs. cbn [negb]. rewrite Hg.
  eexists; split; reflexivity.
Qed.

(** A failure of the call [queryIterable] itself clears the cache. *)
Lemma fetchBatch_query_failure (w : Cursor) (ps : PrepStmt) (e : Err) :
  _isClosed w = false -> _isStarted w = false ->
  prepStmtCache w !! statement w = Some ps -> bindings w = None ->
  queryIterable (client w) ps = Throw e ->
  exists w', fetchBatch w = (Throw e, w') /\ prepStmtCache w' = ∅.
Proof.
  intros Hc Hs Hps Hb Hq. unfold fetchBatch, start_query.
  destruct w; cbn in *; subst. rewrite Hps. cbn. rewrite Hq.
  eexists; split; reflexivity.
Qed.

(** C6.  The batch source fails on its second [next()], in the middle of the
    stream: [fetchBatch] propagates the error, and the cache still holds both
    the statement of the cursor and the statement it held before. *)
Theorem midstream_failure_keeps_cache :
  let w0 := new_cursor failing_client warm_cache "SELECT * FROM t $t" None None in
  exists w1 w2,
    fetchBatch w0 = (Ok tt, w1) /\
    fetchBatch w1 = (Throw (StoreError 1), w2) /\
    prepStmtCache w2 !! "SELECT * FROM t $t"
      = Some {| ps_text := "SELECT * FROM t $t"; ps_vars := ∅ |} /\
    prepStmtCache w2 !! "SELECT * FROM other $t"
      = Some {| ps_text := "SELECT * FROM other $t"; ps_vars := ∅ |} /\
    prepStmtCache w2 <> ∅.
Proof.
  eexists; eexists. split; [vm_compute; reflexivity|].
  split; [vm_compute; reflexivity|].
  split; [vm_compute; reflexivity|].
  split; [vm_compute; reflexivity|].
  intros H. apply (f_equal (fun m => m !! "SELECT * FROM t $t")) in H.
  vm_compute in H. discriminate.
Qed.

(** ** Closing *)

Lemma close_idempotent (w : Cursor) : close (close w) = close w.
Proof. reflexivity. Qed.

Lemma close_closed (w : Cursor) : _isClosed w = true -> close w = w.
Proof. destruct w; simpl; intros ->; reflexivity. Qed.

Lemma quiet_refl (w : Cursor) : _isClosed w = true -> quiet w w.
Proof. unfold quiet; auto. Qed.

Lemma shift_closed (w : Cursor) (d : value) (w' : Cursor) :
  _isClosed w = true -> shift w = (d, w') ->
  quiet w w' /\ length (_documents w') <= length (_documents w) /\
  (_documents w = [] -> d = VUndef /\ w' = w) /\
  (_documents w <> [] -> length (_documents w') < length (_documents w)).
Proof.
  intros Hc. unfold shift, quiet. destruct (_documents w) as [|x ds] eqn:Hd.
  - intros H. injection H as <- <-. rewrite Hd. simpl.
    repeat split; auto. intros Hne. now contradiction Hne.
  - intros H. injection H as <- <-. simpl.
    repeat split; auto; try lia; intros; try discriminate; lia.
Qed.

(** [next()] on a closed cursor drains the buffer and makes no store call. *)
Lemma next_closed (rounds : nat) :
  forall w, _isClosed w = true -> length (_documents w) < rounds ->
  exists r w', next rounds w = Some (Ok r, w') /\ quiet w w' /\
               (_documents w = [] -> r = VNull /\ w' = w).
Proof.
  induction rounds as [|rounds IH]; intros w Hc Hn; [lia|].
  simpl next. destruct (shift w) as [doc w1] eqn:Hsh.
  destruct (shift_closed _ _ _ Hc Hsh) as ((Hc1 & Hcalls & Hcache) & Hle & Hnil & Hlt).
  destruct (JS.not_nullish doc) eqn:Hdoc.
  - exists doc, w1. split; [reflexivity|]. split; [unfold quiet; auto|].
    intros He. destruct (Hnil He) as [-> _]. discriminate.
  - rewrite (fetchBatch_closed _ Hc1).
    destruct (_documents w1) as [|x ds] eqn:Hd1.
    + simpl. exists VNull, w1. split; [reflexivity|]. split; [unfold quiet; auto|].
      intros He. now destruct (Hnil He).
    + cbn [length Nat.eqb negb].
      destruct (IH w1 Hc1) as (r & w' & Hrun & (Hc' & Hcalls' & Hcache') & _).
      { rewrite Hd1. destruct (_documents w) as [|y ys] eqn:Hd.
        - destruct (Hnil eq_refl) as [_ ->]. congruence.
        - specialize (Hlt ltac:(discriminate)). simpl in *. lia. }
      exists r, w'. split; [exact Hrun|]. split; [unfold quiet; repeat split; congruence|].
      intros He. destruct (Hnil He) as [_ ->]. congruence.
Qed.

(** [close()] is idempotent, and an operation that is called on a closed
    cursor makes no store call and does not reopen it: [fetchBatch],
    [hasNext], [toArray] and the iteration leave the cursor as it is, [next]
    and [tryNext] only take from the buffer, and [next] answers null when the
    buffer is empty. *)
Lemma closed_cursor_is_terminal (w : Cursor) (rounds : nat) :
  _isClosed w = true ->
  length (_documents w) < rounds ->
  close (close w) = close w /\ close w = w /\
  fetchBatch w = (Ok tt, w) /\
  (exists r w', next rounds w = Some (Ok r, w') /\ quiet w w') /\
  (_documents w = [] -> next rounds w = Some (Ok VNull, w)) /\
  hasNext rounds w = Some (Ok (negb (length (_documents w) =? 0)), w) /\
  (exists r, toArray rounds w = Some (r, w)) /\
  (exists r w', tryNext w = (Ok r, w') /\ quiet w w') /\
  iterate rounds w = Some (Ok [], w).
Proof.
  intros Hc Hn.
  split; [reflexivity|]. split; [now apply close_closed|].
  split; [now apply fetchBatch_closed|].
  destruct (next_closed rounds w Hc Hn) as (r & w' & Hrun & Hq & Hnil).
  split; [eauto|].
  split. { intros He. destruct (Hnil He) as [-> ->]. exact Hrun. }
  destruct rounds as [|rounds]; [lia|].
  split.
  { simpl hasNext. destruct (_documents w) as [|x ds] eqn:Hd; [|reflexivity].
    simpl. rewrite (fetchBatch_closed _ Hc). now rewrite Hd. }
  split.
  { unfold toArray. simpl toArray_loop.
    destruct (maxLimit w <? _)%Z; [eauto|].
    rewrite (fetchBatch_closed _ Hc), Hc. eauto. }
  split.
  { unfold tryNext. destruct (shift w) as [doc w1] eqn:Hsh.
    destruct (shift_closed _ _ _ Hc Hsh) as ((Hc1 & Hcalls & Hcache) & _).
    destruct (JS.not_nullish doc).
    - exists doc, w1. unfold quiet. auto.
    - rewrite (fetchBatch_closed _ Hc1).
      destruct (shift w1) as [doc2 w2] eqn:Hsh2.
      destruct (shift_closed _ _ _ Hc1 Hsh2) as ((Hc2 & Hcalls2 & Hcache2) & _).
      destruct (JS.not_nullish doc2); eexists; exists w2; (split; [reflexivity|]);
        unfold quiet; repeat split; congruence. }
  unfold iterate. now rewrite Hc.
Qed.

Lemma closed_cursor_is_terminal_witness :
  let w := close (set_documents sample_documents
                    (new_cursor (serving_client sample_rows) ∅ "SELECT * FROM t $t" None None)) in
  fetchBatch w = (Ok tt, w) /\
  (exists r w', next 4 w = Some (Ok r, w') /\ quiet w w') /\
  iterate 4 w = Some (Ok [], w).
Proof.
  intros w.
  destruct (closed_cursor_is_terminal w 4 eq_refl ltac:(simpl; lia))
    as (_ & _ & H1 & H2 & _ & _ & _ & _ & H3).
  repeat split; assumption.
Defined.

(** ** The call that the iterator does not await *)

(** A started cursor without a batch source and with an empty buffer: [next]
    closes it and answers null, so the iteration yields nothing. *)
Lemma iterate_loop_without_source (w : Cursor) (rounds : nat) :
  _isClosed w = false -> _isStarted w = true -> _gen w = None -> _documents w = [] ->
  iterate_loop (S rounds) [] w = Some (Ok [], close w).
Proof.
  intros Hc Hs Hg Hd.
  assert (fetchBatch w = (Ok tt, close w)) as Hf.
  { unfold fetchBatch. rewrite Hc, Hs. cbn [negb]. now rewrite Hg. }
  cbn [iterate_loop]. rewrite Hc. cbn [next]. unfold shift. rewrite Hd.
  cbn [JS.not_nullish]. rewrite Hf. cbn [close _documents]. rewrite Hd.
  reflexivity.
Qed.

Lemma fetchBatch_unawaited_fresh (cl : Client) (cache : gmap string PrepStmt)
    (stmt : string) (b : option Bindings) (limit : option Z) :
  let w := set_started (fetchBatch_unawaited (new_cursor cl cache stmt b limit)) in
  _isClosed w = false /\ _isStarted w = true /\ _gen w = None /\ _documents w = [].
Proof.
  unfold fetchBatch_unawaited.
  cbn [new_cursor _isClosed _isStarted set_started prepStmtCache statement bindings].
  destruct (cache !! stmt) as [ps|]; [destruct b as [b|]; [destruct (0 <? size b)|]|];
    repeat split.
Qed.

Local Ltac cursor_reduce :=
  cbn [new_cursor set_started set_cache set_gen set_documents record_call close prepStmtCache
       statement client bindings calls _isStarted _isClosed _gen _documents maxLimit negb].

(** An awaited [fetchBatch] on a cursor that is neither closed nor started is
    the part that runs at once followed by the rest. *)
Lemma fetchBatch_in_two_parts (w : Cursor) :
  _isClosed w = false -> _isStarted w = false ->
  fetchBatch w = fetchBatch_resumed (suspension w) (fetchBatch_unawaited w).
Proof.
  intros Hc Hs.
  unfold fetchBatch, fetchBatch_unawaited, suspension, start_query, fetchBatch_resumed,
    after_prepare, after_copyStatement, after_queryIterable, fetch_rows.
  rewrite Hc, Hs. cbv zeta.
  cbn [negb set_started prepStmtCache statement bindings client].
  destruct (prepStmtCache w !! statement w) as [ps|];
    [|cbn [record_call set_started client statement prepStmtCache];
      destruct (prepare (client w) (statement w)) as [ps|e]; [|reflexivity]];
    cbn [set_cache record_call set_started client statement prepStmtCache bindings];
    (destruct (bindings w) as [b|] eqn:Hb; [destruct (0 <? size b)|]);
    cbn [set_cache record_call set_started client statement prepStmtCache bindings];
    try (destruct (copyStatement (client w) ps) as [ps'|e]; [|reflexivity]);
    cbn [set_cache record_call set_started client statement prepStmtCache bindings];
    rewrite ?Hb;
    match goal with
    | |- context [queryIterable (client w) ?q] =>
        destruct (queryIterable (client w) q) as [g|e]; [|reflexivity]
    end;
    reflexivity.
Qed.

Lemma fetch_rows_close (w : Cursor) :
  fetch_rows (close w) = (fst (fetch_rows w), close (snd (fetch_rows w))).
Proof.
  unfold fetch_rows. cbn [close _gen].
  destruct (_gen w) as [[|[v|e] g]|]; try reflexivity.
  cbv zeta. destruct (JS.is_truthy (JS.get_prop v "rows")); [|reflexivity].
  destruct (JS.get_prop v "rows"); try reflexivity.
  destruct (mapR read_row elems); reflexivity.
Qed.

Lemma after_queryIterable_close (ps : PrepStmt) (w : Cursor) :
  after_queryIterable ps (close w)
    = (fst (after_queryIterable ps w), close (snd (after_queryIterable ps w))).
Proof.
  unfold after_queryIterable. cbn [close client].
  destruct (queryIterable (client w) ps) as [g|e]; [|reflexivity].
  apply (fetch_rows_close (set_gen (Some g) w)).
Qed.

Lemma after_copyStatement_close (ps : PrepStmt) (w : Cursor) :
  after_copyStatement ps (close w)
    = (fst (after_copyStatement ps w), close (snd (after_copyStatement ps w))).
Proof.
  unfold after_copyStatement. cbn [close client bindings].
  destruct (copyStatement (client w) ps) as [ps'|e]; [|reflexivity].
  cbv zeta. apply (after_queryIterable_close _ (record_call _ w)).
Qed.

(** Closing the cursor while the call is suspended does not stop the call:
    its rest does on the closed cursor what it does on the open one. *)
Lemma fetchBatch_resumed_close (k : Suspension) (w : Cursor) :
  fetchBatch_resumed k (close w)
    = (fst (fetchBatch_resumed k w), close (snd (fetchBatch_resumed k w))).
Proof.
  destruct k as [|ps|ps]; cbn [fetchBatch_resumed].
  - unfold after_prepare. cbn [close client statement prepStmtCache].
    destruct (prepare (client w) (statement w)) as [ps|e]; [|reflexivity].
    cbv zeta. cbn [close set_cache bindings].
    destruct (bindings w) as [b|]; [destruct (0 <? size b)|].
    + apply (after_copyStatement_close ps
               (record_call CallCopyStatement
                  (set_cache (<[statement w := ps]> (prepStmtCache w)) w))).
    + apply (after_queryIterable_close ps
               (record_call (CallQueryIterable ps)
                  (set_cache (<[statement w := ps]> (prepStmtCache w)) w))).
    + apply (after_queryIterable_close ps
               (record_call (CallQueryIterable ps)
                  (set_cache (<[statement w := ps]> (prepStmtCache w)) w))).
  - apply after_copyStatement_close.
  - apply after_queryIterable_close.
Qed.

(** The iteration of a fresh cursor, with the call it leaves pending: no
    document is yielded, and the cursor ends as an awaited [fetchBatch] would
    have left it, but closed. *)
Lemma iterate_settled_fresh (cl : Client) (cache : gmap string PrepStmt)
    (stmt : string) (b : option Bindings) (limit : option Z) (rounds : nat) :
  let w0 := new_cursor cl cache stmt b limit in
  iterate (S rounds) w0 = Some (Ok [], close (fetchBatch_unawaited w0)) /\
  iterate_settled (S rounds) w0 = Some (Ok [], close (snd (fetchBatch w0))).
Proof.
  intros w0. subst w0. set (w0 := new_cursor cl cache stmt b limit).
  assert (set_started (fetchBatch_unawaited w0) = fetchBatch_unawaited w0) as Hst.
  { unfold fetchBatch_unawaited, w0.
    cbn [new_cursor _isClosed _isStarted set_started prepStmtCache statement bindings].
    destruct (cache !! stmt) as [ps|]; [destruct b as [b|]; [destruct (0 <? size b)|]|];
      reflexivity. }
  assert (_isClosed w0 = false) as Hc0 by reflexivity.
  assert (_isStarted w0 = false) as Hs0 by reflexivity.
  assert (iterate (S rounds) w0 = Some (Ok [], close (fetchBatch_unawaited w0))) as Hit.
  { destruct (fetchBatch_unawaited_fresh cl cache stmt b limit) as (Hc & Hs & Hg & Hd).
    fold w0 in Hc, Hs, Hg, Hd.
    unfold iterate. rewrite Hc0, Hs0. cbn [negb].
    rewrite (iterate_loop_without_source _ rounds Hc Hs Hg Hd).
    cbn [close _isClosed negb]. now rewrite Hst. }
  split; [exact Hit|].
  unfold iterate_settled. rewrite Hit, Hc0, Hs0. cbn [orb].
  rewrite fetchBatch_resumed_close, <- fetchBatch_in_two_parts by assumption.
  reflexivity.
Qed.

(** C7.  [for await] over a fresh cursor, on a store that prepares the
    statement and serves a batch of rows.  The iteration yields nothing and
    ends with the cursor closed, one store call made: the [prepare] of the
    call that the iterator does not await.  That call is still pending; when
    the store answers it goes on, on the closed cursor: it calls
    [queryIterable] and the [next()] of the batch source, and loads the
    batch into the buffer. *)
Theorem pending_fetch_outlives_close (cl : Client) (cache : gmap string PrepStmt)
    (stmt : string) (limit : option Z) (rounds : nat)
    (ps : PrepStmt) (v : value) (g : list GenStep) (rs docs : list value) :
  cache !! stmt = None ->
  prepare cl stmt = Ok ps ->
  queryIterable cl ps = Ok (Batch v :: g) ->
  JS.get_prop v "rows" = VArr rs ->
  mapR read_row rs = Ok docs ->
  let w0 := new_cursor cl cache stmt None limit in
  exists w1 w2,
    iterate (S rounds) w0 = Some (Ok [], w1) /\
    _isClosed w1 = true /\ calls w1 = [CallPrepare stmt] /\ _documents w1 = [] /\
    iterate_settled (S rounds) w0 = Some (Ok [], w2) /\
    w2 = close (snd (fetchBatch w0)) /\
    _isClosed w2 = true /\
    calls w2 = [CallPrepare stmt; CallQueryIterable ps; CallNext] /\
    _documents w2 = docs /\
    _gen w2 = Some g.
Proof.
  intros Hm Hp Hq Hrows Hdocs w0.
  destruct (iterate_settled_fresh cl cache stmt None limit rounds) as [Hit Hset].
  fold w0 in Hit, Hset.
  exists (close (fetchBatch_unawaited w0)), (close (snd (fetchBatch w0))).
  split; [exact Hit|].
  assert (fetchBatch_unawaited w0 = record_call (CallPrepare stmt) (set_started w0)) as Hun.
  { unfold fetchBatch_unawaited, w0.
    cbn [new_cursor _isClosed _isStarted set_started prepStmtCache statement].
    now rewrite Hm. }
  rewrite Hun.
  split; [reflexivity|]. split; [reflexivity|]. split; [reflexivity|].
  split; [exact Hset|]. split; [reflexivity|]. split; [reflexivity|].
  assert (fetchBatch w0
          = (Ok tt, set_documents docs
                      (set_gen (Some g)
                         (record_call CallNext
                            (set_gen (Some (Batch v :: g))
                               (record_call (CallQueryIterable ps)
                                  (set_cache (<[stmt := ps]> cache)
                                     (record_call (CallPrepare stmt)
                                        (set_started w0))))))))) as Hf.
  { unfold fetchBatch, start_query, w0. cursor_reduce.
    rewrite Hm. cursor_reduce. rewrite Hp. cursor_reduce. rewrite Hq. cursor_reduce. rewrite Hrows. cbn [JS.is_truthy].
    rewrite Hdocs. reflexivity. }
  rewrite Hf. repeat split.
Qed.

Lemma pending_fetch_outlives_close_witness :
  let w0 := new_cursor (serving_client sample_rows) ∅ "SELECT * FROM t $t" None None in
  let ps := {| ps_text := "SELECT * FROM t $t"; ps_vars := ∅ |} in
  exists w1 w2,
    iterate 4 w0 = Some (Ok [], w1) /\
    _isClosed w1 = true /\ calls w1 = [CallPrepare "SELECT * FROM t $t"] /\
    _documents w1 = [] /\
    iterate_settled 4 w0 = Some (Ok [], w2) /\
    w2 = close (snd (fetchBatch w0)) /\
    _isClosed w2 = true /\
    calls w2 = [CallPrepare "SELECT * FROM t $t"; CallQueryIterable ps; CallNext] /\
    _documents w2 = [VObj [("n", VNum 1); ("_id", VStr "a")];
                     VObj [("n", VNum 2); ("_id", VStr "b")]] /\
    _gen w2 = Some (batch_source [[VObj [("kvid", VStr "c"); ("n", VNum 3)]]]).
Proof.
  intros w0 ps.
  exact (pending_fetch_outlives_close (serving_client sample_rows) ∅ "SELECT * FROM t $t"
           None 3 ps
           (VObj [("rows", VArr [VObj [("kvid", VStr "a"); ("n", VNum 1)];
                                 VObj [("kvid", VStr "b"); ("n", VNum 2)]])])
           (batch_source [[VObj [("kvid", VStr "c"); ("n", VNum 3)]]])
           [VObj [("kvid", VStr "a"); ("n", VNum 1)]; VObj [("kvid", VStr "b"); ("n", VNum 2)]]
           [VObj [("n", VNum 1); ("_id", VStr "a")]; VObj [("n", VNum 2); ("_id", VStr "b")]]
           eq_refl eq_refl eq_refl eq_refl eq_refl).
Defined.

(** ** Projections *)

Section ProjectionProperties.

Variable ops : string -> value -> Res string.

(** C8.  An exclusion, then a computed field, then an inclusion: the
    computed field sets the projection type to inclusions without the
    conflict test of its sibling branches, and the projection compiles. *)
Theorem mixed_projection_after_computed_field :
  _conputeProjection ops simple_collection
    (VObj [("a", VNum 0); ("c", VStr "$price"); ("b", VNum 1)]) None
  = Ok ("$t." +:+ Str.dquote +:+ "kvid" +:+ Str.dquote +:+ "[] AS kvid, $t." +:+
        Str.dquote +:+ "price" +:+ Str.dquote +:+ "[] AS c, $t." +:+
        Str.dquote +:+ "b" +:+ Str.dquote +:+ "[] AS b") /\
  prj_scan [("a", VNum 0); ("c", VStr "$price"); ("b", VNum 1)] 0 (VObj [])
  = Ok (1%Z, VObj [("a", VNum 0); ("c", VStr "$price"); ("b", VNum 1)]).
Proof. split; vm_compute; reflexivity. Qed.

Lemma is_one_not_zero (v : value) : is_one v = true -> is_zero v = false.
Proof.
  unfold is_one, is_zero, JS.loose_eq_num.
  destruct v as [| |[|]|n| |s|i t|h|vs|ps]; try discriminate; try reflexivity;
    repeat match goal with
           | |- context [JS.string_to_number ?x] => destruct (JS.string_to_number x)
           end;
    try discriminate;
    intros H; apply Z.eqb_eq in H; subst; reflexivity.
Qed.



End ProjectionProperties.

(** ** Compilation succeeds while names are left *)

Lemma _storeBinding_from_throw (n i : nat) (b : Bindings) (name : string) (v : value) (e : Err) :
  _storeBinding_from n i b name v = Throw e ->
  forall j, i <= j < i + n -> binding_taken b (name +:+ pretty j) = true.
Proof.
  revert i. induction n as [|n IH]; intros i H j Hj; [lia|].
  unfold _storeBinding_from in H. fold _storeBinding_from in H.
  destruct (binding_taken b (name +:+ pretty i)) eqn:Ht; [|discriminate].
  destruct (decide (i = j)) as [<-|Hne]; [assumption|].
  apply (IH (S i)); [assumption | lia].
Qed.

Lemma binding_taken_dom (b : Bindings) (name : string) :
  binding_taken b name = true -> name ∈ dom b.
Proof.
  unfold binding_taken. intros H. apply elem_of_dom.
  destruct (b !! name); [eauto | discriminate].
Qed.

(** As many suffixed names as are all taken, so many bindings there are. *)
Lemma suffixed_names_bound (b : Bindings) (name : string) (i n : nat) :
  (forall j, i <= j < i + n -> name +:+ pretty j ∈ dom b) -> n <= size b.
Proof.
  intros H.
  set (l := (fun j : nat => name +:+ pretty j) <$> seq i n).
  assert (NoDup l) as Hnd.
  { apply NoDup_fmap_2; [|apply NoDup_seq].
    intros j j' Hj. apply String.app_inj in Hj. now apply pretty_nat_inj in Hj. }
  rewrite <- (size_dom b).
  replace n with (length l) by (unfold l; now rewrite length_fmap, length_seq).
  rewrite <- (size_list_to_set (C := gset string) l Hnd).
  apply subseteq_size. intros x Hx. apply elem_of_list_to_set in Hx.
  unfold l in Hx. apply list_elem_of_fmap in Hx as (j & -> & Hj).
  apply elem_of_seq in Hj. apply H. lia.
Qed.

(** With fewer bindings than suffixes to try, [_storeBinding] finds a name. *)
Lemma _storeBinding_total (b : Bindings) (name : string) (v : value) :
  size b < MAX_BINDING_NAME - 2 ->
  exists nm, _storeBinding (Some b) name v = Ok (nm, Some (<[nm := v]> b)).
Proof.
  intros Hsize.
  destruct (_storeBinding (Some b) name v) as [[nm ob]|e] eqn:H.
  - apply _storeBinding_ok in H as (_ & ->). eauto.
  - exfalso. unfold _storeBinding in H.
    destruct (binding_taken b _); cbn [negb] in H; [|discriminate].
    match type of H with
    | match _storeBinding_from ?n ?i ?b ?x ?v with _ => _ end = _ =>
        destruct (_storeBinding_from n i b x v) as [[? ?]|e'] eqn:Hl; [discriminate|];
        pose proof (suffixed_names_bound b x i n
                      (fun j Hj => binding_taken_dom _ _
                                     (_storeBinding_from_throw _ _ _ _ _ _ Hl j Hj)))
    end.
    unfold MAX_BINDING_NAME in *. lia.
Qed.

Lemma in_list_total (prop : string) (elems : list value) :
  forall (i : nat) (inRes : string) (cn : bool) (cnt : nat) (b : Bindings),
    size b + length elems < MAX_BINDING_NAME - 2 ->
    exists r ob, in_list prop elems i inRes cn cnt (Some b) = Ok (r, ob).
Proof.
  induction elems as [|x elems IH]; intros i inRes cn cnt b Hsize; simpl.
  - unfold ret. eauto.
  - destruct (JS.is_null x).
    + apply IH. unfold MAX_BINDING_NAME in *. simpl in Hsize. lia.
    + unfold bind, store.
      destruct (_storeBinding_total b prop x) as [nm ->];
        [unfold MAX_BINDING_NAME in *; simpl in Hsize; lia|].
      apply IH. rewrite map_size_insert. unfold MAX_BINDING_NAME in *. simpl in Hsize.
      destruct (b !! nm); simpl; lia.
Qed.

(** X2.  The [$in] filter compiles whenever the bindings and the operand
    together are fewer than the names [_storeBinding] may try. *)
Lemma in_filter_compiles (c : Collection) (prop : string) (elems : list value) (b : Bindings) :
  Str.startsWith "$" prop = false ->
  size b + length elems < MAX_BINDING_NAME - 2 ->
  exists text ob', _computeCompExp c (in_filter prop elems) (Some b) = Ok (text, ob').
Proof.
  intros Hp Hsize. rewrite _computeCompExp_in_filter by assumption.
  unfold comp_in. destruct elems as [|x elems]; [unfold ret; eauto|].
  unfold bind at 1.
  destruct (in_list_total prop (x :: elems) 0 " IN (" false 0 b Hsize) as ([[r cn] cnt] & ob & ->).
  unfold ret. eauto.
Qed.

(** * Further properties *)

(** ** Compilation and the bindings object *)

Lemma extends_refl (ob : option Bindings) : extends ob ob.
Proof. destruct ob; simpl; auto. Qed.

Lemma extends_trans (o1 o2 o3 : option Bindings) :
  extends o1 o2 -> extends o2 o3 -> extends o1 o3.
Proof.
  destruct o1, o2, o3; simpl; try tauto.
  intros (Hd1 & H1) (Hd2 & H2). split; [set_solver|]. eauto.
Qed.

Lemma keeps_ret {A} (a : A) : keeps_bindings (ret a).
Proof. intros ob a' ob' H. injection H as <- <-. apply extends_refl. Qed.

Lemma keeps_throw {A} (e : Err) : keeps_bindings (@throw A e).
Proof. intros ob a' ob' H. discriminate. Qed.

Lemma keeps_bind {A B} (m : Comp A) (k : A -> Comp B) :
  keeps_bindings m -> (forall a, keeps_bindings (k a)) -> keeps_bindings (bind m k).
Proof.
  intros Hm Hk ob b ob' H. unfold bind in H.
  destruct (m ob) as [[a o1]|] eqn:E; [|discriminate].
  eapply extends_trans; [eapply Hm; eassumption | eapply Hk; eassumption].
Qed.

Lemma keeps_store (name : string) (v : value) : keeps_bindings (store name v).
Proof.
  intros [b|] nm ob' H; unfold store in H.
  - apply _storeBinding_ok in H as (Hfree & ->). simpl. split.
    + rewrite dom_insert. set_solver.
    + intros n x Hn Hx. rewrite lookup_insert_ne; [assumption|].
      intros <-. unfold binding_taken in Hfree. rewrite Hn in Hfree. congruence.
  - rewrite _storeBinding_none in H. injection H as <- <-. exact I.
Qed.

Lemma keeps_mapC {A B} (f : A -> Comp B) (l : list A) :
  (forall x, keeps_bindings (f x)) -> keeps_bindings (mapC f l).
Proof.
  intros Hf. induction l as [|x l IH]; simpl.
  - apply keeps_ret.
  - apply keeps_bind; [apply Hf|]. intros y.
    apply keeps_bind; [apply IH|]. intros ys. apply keeps_ret.
Qed.

Local Ltac keeps_tac :=
  repeat first
    [ apply keeps_ret | apply keeps_throw | apply keeps_store
    | apply keeps_bind; [|intros ?]
    | apply keeps_mapC; intros ? ].

Lemma keeps__computeWherePk (c : Collection) (_id : value) : keeps_bindings (_computeWherePk c _id).
Proof. unfold _computeWherePk. destruct (negb _); keeps_tac. Qed.

Lemma keeps_in_list (prop : string) (elems : list value) :
  forall i inRes cn cnt, keeps_bindings (in_list prop elems i inRes cn cnt).
Proof.
  induction elems as [|x elems IH]; intros i inRes cn cnt; simpl.
  - keeps_tac.
  - destruct (JS.is_null x); [apply IH|]. keeps_tac. apply IH.
Qed.

Lemma keeps_comp_in (c : Collection) (prop firstProp : string) (operand : value) :
  keeps_bindings (comp_in c prop firstProp operand).
Proof.
  unfold comp_in. destruct operand as [| | | | | | | |[|x xs]|]; keeps_tac.
  - apply keeps_in_list.
  - destruct a as [[inRes cn] cnt]. keeps_tac.
Qed.

Lemma keeps_comp_regex (c : Collection) (prop : string) (propValue operand : value) :
  keeps_bindings (comp_regex c prop propValue operand).
Proof.
  unfold comp_regex.
  assert (forall opts ch, keeps_bindings
            (if JS.is_truthy opts then
               match options_include opts ch with
               | Ok true => ret (String ch EmptyString)
               | Ok false => ret EmptyString
               | Throw e => throw e
               end
             else ret EmptyString)) as Hflag.
  { intros opts ch. destruct (JS.is_truthy opts); [|keeps_tac].
    destruct (options_include opts ch) as [[|]|]; keeps_tac. }
  destruct (_ && _ && _ && _); [keeps_tac|].
  destruct (JS.is_string _); [|keeps_tac].
  apply keeps_bind; [apply Hflag|]. intros oi.
  apply keeps_bind; [apply Hflag|]. intros os. keeps_tac.
Qed.

Lemma keeps_comp_operator (c : Collection) (prop : string) (propValue : value)
    (firstProp : string) (operand : value) :
  keeps_bindings (comp_operator c prop propValue firstProp operand).
Proof.
  unfold comp_operator.
  repeat match goal with
         | |- keeps_bindings (if ?b then _ else _) => destruct b
         end; keeps_tac; auto using keeps_comp_regex, keeps_comp_in.
Qed.

Lemma keeps_comp_operators (c : Collection) (prop : string) (propValue : value)
    (ops : list (string * value)) :
  forall lres, keeps_bindings (comp_operators c prop propValue ops lres).
Proof.
  induction ops as [|[firstProp operand] ops IH]; intros lres; simpl; [keeps_tac|].
  apply keeps_bind; [apply keeps_comp_operator|]. intros s. apply IH.
Qed.

Lemma keeps_comp_field (c : Collection) (prop : string) (propValue : value) :
  keeps_bindings (comp_field c prop propValue).
Proof.
  unfold comp_field.
  destruct (_ && _); [apply keeps_comp_operators|].
  destruct propValue; keeps_tac;
    repeat match goal with
           | |- keeps_bindings (if ?b then _ else _) => destruct b
           end; keeps_tac.
Qed.

Lemma keeps_comp_exp_plain (c : Collection) (compObj : value) :
  keeps_bindings (comp_exp_plain c compObj).
Proof.
  assert (forall ps res, keeps_bindings
            ((fix loop (ps : list (string * value)) (res : string) : Comp string :=
                match ps with
                | [] => ret res
                | (prop, propValue) :: ps' =>
                    do s <- comp_field c prop propValue;
                    loop ps' (and_sep res +:+ s)
                end) ps res)) as Hloop.
  { induction ps as [|[prop propValue] ps IH]; intros res; [keeps_tac|].
    apply keeps_bind; [apply keeps_comp_field|]. intros s. apply IH. }
  unfold comp_exp_plain. destruct compObj; keeps_tac; apply Hloop.
Qed.

Lemma keeps__computeCompExp (c : Collection) (compObj : value) :
  keeps_bindings (_computeCompExp c compObj).
Proof.
  enough (keeps_bindings (_computeCompExp c compObj) /\
          forall xs, compObj = VArr xs -> Forall (fun x => keeps_bindings (_computeCompExp c x)) xs)
    as [H _] by exact H.
  pattern compObj. apply value_nested_ind; clear compObj;
    try (intros; split; [apply (keeps_comp_exp_plain c) | intros; discriminate]).
  - intros h. split; [simpl; keeps_tac | intros; discriminate].
  - intros vs Hvs. split; [apply (keeps_comp_exp_plain c (VArr vs))|].
    intros xs [= <-]. eapply Forall_impl; [exact Hvs|]. intros x [Hx _]. exact Hx.
  - intros ps Hps. split; [|intros; discriminate].
    simpl. apply keeps_bind; [|intros; keeps_tac].
    match goal with
    | |- keeps_bindings (?f ps ?r) => enough (forall res, keeps_bindings (f ps res)) as Hl by apply Hl
    end.
    induction Hps as [|[prop propValue] ps' [Hx Hel] _ IH]; intros res; [keeps_tac|].
    simpl in Hx, Hel.
    cbv zeta.
    assert (forall sep, keeps_bindings
              (match propValue with
               | VArr xs =>
                   (fix each (xs : list value) (i : nat) (acc : string) : Comp string :=
                      match xs with
                      | [] => ret acc
                      | x :: xs' =>
                          do s <- _computeCompExp c x;
                          each xs' (S i) ((if 0 <? i then acc +:+ sep else acc) +:+ s)
                      end) xs 0 EmptyString
               | VStr str =>
                   (fix each (xs : list value) (i : nat) (acc : string) : Comp string :=
                      match xs with
                      | [] => ret acc
                      | x :: xs' =>
                          do s <- comp_exp_plain c x;
                          each xs' (S i) ((if 0 <? i then acc +:+ sep else acc) +:+ s)
                      end) (VStr <$> Str.chars str) 0 EmptyString
               | VNull | VUndef => throw TypeError
               | _ => ret EmptyString
               end)) as Hch.
    { intros sep. destruct propValue as [| | | | |str| | |xs|]; keeps_tac.
      - match goal with
        | |- keeps_bindings (?f ?l0 ?i0 ?a0) =>
            enough (forall l i acc, keeps_bindings (f l i acc)) as Hl by apply Hl
        end.
        intros l. induction l as [|x l IHl]; intros i acc; [keeps_tac|].
        apply keeps_bind; [apply keeps_comp_exp_plain|]. intros s. apply IHl.
      - specialize (Hel xs eq_refl).
        match goal with
        | |- keeps_bindings (?f xs ?i0 ?a0) =>
            enough (forall i acc, keeps_bindings (f xs i acc)) as Hl by apply Hl
        end.
        clear Hx. induction Hel as [|x l Hx' _ IHl]; intros i acc; [keeps_tac|].
        apply keeps_bind; [exact Hx'|]. intros s. apply IHl. }
    repeat match goal with
           | |- keeps_bindings (if ?b then _ else _) => destruct b
           end;
      try (apply keeps_bind; [apply Hch | intros ?; apply IH]);
      try (apply keeps_bind; [apply keeps_comp_field | intros ?; apply IH]);
      try apply keeps_throw.
    all: try (destruct propValue;
              (apply keeps_bind; [first [apply Hch | exact Hx] | intros ?; apply IH])).
    all: exact EmptyString.
Qed.

Lemma keeps__computeWhere (c : Collection) (filter : value) : keeps_bindings (_computeWhere c filter).
Proof.
  unfold _computeWhere, _computeCompStartExp.
  repeat match goal with
         | |- keeps_bindings (if ?b then _ else _) => destruct b
         | |- keeps_bindings (bind _ _) => apply keeps_bind; [|intros ?]
         end; keeps_tac; auto using keeps__computeWherePk, keeps__computeCompExp.
Qed.

Lemma prefix_append (s t : string) : String.prefix s (s +:+ t) = true.
Proof.
  induction s as [|a s IH]; [now destruct t|].
  rewrite append_cons. simpl. destruct (ascii_dec a a); [exact IH | congruence].
Qed.

Lemma length_append (s t : string) :
  String.length (s +:+ t) = String.length s + String.length t.
Proof.
  induction s as [|a s IH]; [reflexivity|].
  rewrite append_cons. simpl. now rewrite IH.
Qed.

Lemma prefix_refl (s : string) : String.prefix s s = true.
Proof. rewrite <- (append_empty_r s) at 2. apply prefix_append. Qed.

(** X3.  A successful [_storeBinding] on a bindings object returns a name
    that starts with the dollar sign and the base name, its first dot
    replaced by an underscore; afterwards that name holds the value, every
    other name holds what it held, and no value that is not falsy has been
    replaced. *)
Theorem storeBinding_binds_returned_name (b : Bindings) (name : string) (v : value)
    (nm : string) (ob : option Bindings) :
  _storeBinding (Some b) name v = Ok (nm, ob) ->
  Str.startsWith (binding_name name) nm = true /\
  exists b', ob = Some b' /\ b' !! nm = Some v /\
    (forall n, n <> nm -> b' !! n = b !! n) /\
    (forall n x, b !! n = Some x -> JS.is_truthy x = true -> b' !! n = Some x).
Proof.
  intros H. split.
  - unfold _storeBinding in H. fold (binding_name name) in H. unfold Str.startsWith.
    destruct (binding_taken b (binding_name name)); cbn [negb] in H.
    + match type of H with
      | match _storeBinding_from ?n ?i ?b ?x ?v with _ => _ end = _ =>
          destruct (_storeBinding_from n i b x v) as [[n' b']|] eqn:Hl; [|discriminate]
      end.
      injection H as <- <-.
      destruct (_storeBinding_from_ok _ _ _ _ _ _ _ Hl) as (_ & _ & j & _ & ->).
      apply prefix_append.
    + injection H as <- <-. apply prefix_refl.
  - pose proof (keeps_store name v (Some b) nm ob H) as Hext.
    apply _storeBinding_ok in H as (_ & ->). simpl in Hext.
    eexists; split; [reflexivity|]. split; [apply lookup_insert_eq|].
    split; [|exact (proj2 Hext)].
    intros n Hn. now rewrite lookup_insert_ne.
Qed.

Lemma storeBinding_binds_returned_name_witness :
  Str.startsWith (binding_name "a.b") "$a_b2" = true /\
  exists b', Some (<["$a_b2" := VNum 2]> ({[ "$a_b" := VNum 1 ]} : Bindings)) = Some b' /\
    b' !! "$a_b2" = Some (VNum 2) /\
    (forall n, n <> "$a_b2" -> b' !! n = ({[ "$a_b" := VNum 1 ]} : Bindings) !! n) /\
    (forall n x, ({[ "$a_b" := VNum 1 ]} : Bindings) !! n = Some x ->
                 JS.is_truthy x = true -> b' !! n = Some x).
Proof.
  apply (storeBinding_binds_returned_name {[ "$a_b" := VNum 1 ]} "a.b" (VNum 2)).
  vm_compute. reflexivity.
Defined.

(** X5.  Compiling a filter with a bindings object only adds to it: every
    name bound before is still bound, and every value that is not falsy is
    still under its name. *)
Theorem compile_keeps_bindings (c : Collection) (filter : value) (b : Bindings)
    (text : string) (ob : option Bindings) :
  _computeWhere c filter (Some b) = Ok (text, ob) ->
  exists b', ob = Some b' /\ dom b ⊆ dom b' /\
    forall n x, b !! n = Some x -> JS.is_truthy x = true -> b' !! n = Some x.
Proof.
  intros H. apply keeps__computeWhere in H. destruct ob as [b'|]; [|contradiction].
  exists b'. split; [reflexivity | exact H].
Qed.

Lemma compile_keeps_bindings_witness :
  exists b', Some (<["$qty2" := VNum 3]> ({[ "$qty" := VNum 9 ]} : Bindings)) = Some b' /\
    dom ({[ "$qty" := VNum 9 ]} : Bindings) ⊆ dom b' /\
    forall n x, ({[ "$qty" := VNum 9 ]} : Bindings) !! n = Some x ->
                JS.is_truthy x = true -> b' !! n = Some x.
Proof.
  apply (compile_keeps_bindings simple_collection (VObj [("qty", VObj [("$gt", VNum 3)])])
           {[ "$qty" := VNum 9 ]}
           (" WHERE ((" +:+ _computeDbProp simple_collection "qty" +:+ " > $qty2))")).
  vm_compute. reflexivity.
Defined.

(** ** Identity filters off the key path *)

(** X6.  On a simple-key table a numeric identity, a safe integer other than
    zero, does not take the key path: it compiles through the generic
    comparison, against [t.kvid], with the number bound under [$_id], or
    inlined by its digits when there is no bindings object. *)
Theorem numeric_identity_takes_generic_path (c : Collection) (n : Z) :
  _hasCompositeKeys c = false -> n <> 0%Z -> safe_integer n ->
  _computeWhere c (VObj [("_id", VNum n)]) (Some ∅)
    = Ok (" WHERE ((t.kvid = $_id))", Some {[ "$_id" := VNum n ]}) /\
  _computeWhere c (VObj [("_id", VNum n)]) None
    = Ok (" WHERE ((t.kvid = " +:+ pretty n +:+ "))", None).
Proof.
  intros Hc Hn _. apply Z.eqb_neq in Hn.
  unfold _computeWhere, _computeCompStartExp.
  cbn [JS.is_truthy JS.instanceof_Object _isEmptyObject negb orb andb JS.get_prop
       JS.obj_get String.eqb Ascii.eqb Bool.eqb default from_option id JS.is_string].
  rewrite Hn. cbn [negb andb orb].
  cbn [_computeCompExp Str.startsWith].
  change (Str.startsWith "$" "_id") with false. cbv iota.
  unfold comp_field.
  cbn [JS.instanceof_Object andb String.eqb Ascii.eqb Bool.eqb]. rewrite Hc.
  unfold bind, store, ret. split.
  - rewrite _storeBinding_fresh by apply binding_taken_empty.
    reflexivity.
  - rewrite _storeBinding_none. unfold _computeLiteral. cbn [JS.is_truthy]. rewrite Hn.
    cbn [negb JS.JSON_stringify default from_option id and_sep Str.is_empty].
    rewrite append_nil. unfold KVID. rewrite !append_cons, !append_nil.
    cbn [comp_close Str.is_empty]. rewrite !append_cons, !append_nil.
    cbn [Str.is_empty]. rewrite !append_assoc. reflexivity.
Qed.

Lemma numeric_identity_takes_generic_path_witness :
  _computeWhere simple_collection (VObj [("_id", VNum 7)]) (Some ∅)
    = Ok (" WHERE ((t.kvid = $_id))", Some {[ "$_id" := VNum 7 ]}) /\
  _computeWhere simple_collection (VObj [("_id", VNum 7)]) None
    = Ok (" WHERE ((t.kvid = 7))", None).
Proof.
  apply (numeric_identity_takes_generic_path simple_collection 7);
    [reflexivity | lia | unfold safe_integer, MAX_SAFE_INTEGER; lia].
Defined.

Lemma obj_get_nonempty (k : string) (ps : list (string * value)) (v : value) :
  JS.obj_get k ps = Some v -> exists kv ps', ps = kv :: ps'.
Proof. destruct ps; [discriminate | eauto]. Qed.

(** X7.  On a simple-key table, without a bindings object, a filter whose
    [_id] is a string that is not empty compiles to the equality of the key
    column with the JSON literal of that string, whatever other conditions the
    filter holds. *)
Theorem string_identity_inlined_without_bindings (c : Collection) (ps : list (string * value))
    (s : string) :
  _hasCompositeKeys c = false -> s <> EmptyString ->
  JS.obj_get "_id" ps = Some (VStr s) ->
  _computeWhere c (VObj ps) None
    = Ok (" WHERE ($t.kvid = " +:+ JS.json_quote s +:+ ")", None).
Proof.
  intros Hc Hs Hid.
  destruct (obj_get_nonempty _ _ _ Hid) as (kv & ps' & ->).
  destruct s as [|a s]; [congruence|].
  unfold _computeWhere.
  cbn [JS.is_truthy JS.instanceof_Object _isEmptyObject negb orb andb JS.get_prop].
  rewrite Hid.
  cbn [default from_option id JS.is_truthy Str.is_empty negb JS.is_string andb orb].
  unfold _computeWherePk. rewrite Hc. cbn [negb].
  unfold bind, store, ret. rewrite !_storeBinding_none.
  cbn [JS.to_string].
  unfold _computeLiteral.
  cbn [JS.is_truthy Str.is_empty negb JS.JSON_stringify default from_option id].
  match goal with
  | |- context [0 <? String.length ?x] =>
      assert ((0 <? String.length x) = true) as ->
        by (apply Nat.ltb_lt; cbn; rewrite ?append_cons; simpl; lia)
  end.
  reflexivity.
Qed.

Lemma string_identity_inlined_without_bindings_witness :
  _computeWhere simple_collection (VObj [("qty", VNum 3); ("_id", VStr "k1")]) None
    = Ok (" WHERE ($t.kvid = " +:+ JS.json_quote "k1" +:+ ")", None).
Proof.
  apply (string_identity_inlined_without_bindings simple_collection
           [("qty", VNum 3); ("_id", VStr "k1")] "k1");
    [reflexivity | discriminate | reflexivity].
Defined.

Local Ltac str_simpl :=
  repeat (progress (rewrite ?append_assoc, ?append_cons, ?append_nil;
                    cbn [Str.is_empty negb andb comp_close and_sep])).

(** X8.  A range filter [{prop: {$gte: lo, $lt: hi}}] on an empty bindings
    object: when [lo] is not falsy the two bounds are bound under two names;
    when [lo] is falsy both comparisons refer to one name, which ends up
    holding [hi]. *)
Theorem range_filter_names (c : Collection) (prop : string) (lo hi : value) :
  Str.startsWith "$" prop = false ->
  let db := _computeDbProp c prop in
  let nm := binding_name prop in
  let nm2 := if JS.is_truthy lo then nm +:+ "2" else nm in
  _computeCompExp c (VObj [(prop, VObj [("$gte", lo); ("$lt", hi)])]) (Some ∅)
    = Ok ("((" +:+ db +:+ " >= " +:+ nm +:+ ") AND (" +:+ db +:+ " < " +:+ nm2 +:+ "))",
          Some (<[nm2 := hi]> {[ nm := lo ]})).
Proof.
  intros Hp db nm nm2. subst db nm nm2.
  cbn [_computeCompExp]. rewrite Hp.
  unfold comp_field.
  cbn [JS.instanceof_Object JS.enumerable length Nat.ltb Nat.leb andb comp_operators].
  unfold comp_operator.
  cbn [String.eqb Ascii.eqb Bool.eqb orb andb negb Str.is_empty].
  unfold bind, store, ret.
  rewrite _storeBinding_fresh by apply binding_taken_empty.
  change (<[binding_name prop := lo]> (∅ : Bindings)) with ({[ binding_name prop := lo ]} : Bindings).
  destruct (JS.is_truthy lo) eqn:Hlo.
  - rewrite _storeBinding_second.
    + str_simpl. reflexivity.
    + unfold binding_taken. rewrite lookup_singleton_eq. exact Hlo.
    + unfold binding_taken. rewrite lookup_singleton_ne; [reflexivity|].
      intros E. apply (f_equal String.length) in E. rewrite length_append in E.
      simpl in E. lia.
  - rewrite _storeBinding_fresh.
    + str_simpl. reflexivity.
    + unfold binding_taken. rewrite lookup_singleton_eq. exact Hlo.
Qed.

Lemma range_filter_names_witness :
  _computeCompExp simple_collection
    (VObj [("qty", VObj [("$gte", VNum 0); ("$lt", VNum 10)])]) (Some ∅)
    = Ok ("((" +:+ _computeDbProp simple_collection "qty" +:+ " >= $qty) AND (" +:+
          _computeDbProp simple_collection "qty" +:+ " < $qty))",
          Some (<["$qty" := VNum 10]> {[ "$qty" := VNum 0 ]})).
Proof.
  apply (range_filter_names simple_collection "qty" (VNum 0) (VNum 10)). reflexivity.
Defined.

(** ** The update clause, part by part *)

Lemma _computeUpdateClause_fold (c : Collection) (update : value) :
  _computeUpdateClause c update =
    match fold_left (update_step c) (JS.enumerable update) (Ok EmptyString) with
    | Throw e => Throw e
    | Ok updateClause =>
        Ok (if Str.startsWith "," updateClause then Str.substring_from 1 updateClause
            else updateClause)
    end.
Proof. reflexivity. Qed.

Lemma separated_app (r1 r2 : string) : separated r1 -> separated r2 -> separated (r1 +:+ r2).
Proof.
  intros [->|[t ->]] H2; [now rewrite append_nil|].
  right. exists (t +:+ r2). now rewrite append_assoc.
Qed.

(** The clauses of one operator: each opens with the separator. *)
Lemma update_clauses_separated (clause : string -> value -> string) (sub : value) :
  (forall k x, exists t, clause k x = ", " +:+ t) ->
  exists r, separated r /\ forall acc, update_clauses clause sub acc = acc +:+ r.
Proof.
  intros Hcl. unfold update_clauses. induction (JS.enumerable sub) as [|[k x] l IH].
  - exists EmptyString. split; [now left|]. intros acc. simpl. now rewrite append_empty_r.
  - destruct IH as (r & Hr & IH). destruct (Hcl k x) as [t Ht].
    exists (clause k x +:+ r). split.
    + apply separated_app; [right; eauto | assumption].
    + intros acc. simpl. rewrite IH. apply append_assoc.
Qed.

Lemma update_step_throw (c : Collection) (e : Err) (kv : string * value) :
  update_step c (Throw e) kv = Throw e.
Proof. reflexivity. Qed.

Lemma update_step_unknown (c : Collection) (kv : string * value) (acc : string) :
  known_update kv = false -> update_step c (Ok acc) kv = Throw (OperatorNotKnown (fst kv)).
Proof.
  destruct kv as [key sub]. unfold known_update, update_step. cbn [fst snd].
  destruct (JS.instanceof_Object sub); cbn [andb negb]; [|reflexivity].
  unfold update_operators. cbn [existsb].
  repeat match goal with
         | |- context [String.eqb key ?s] => destruct (String.eqb key s); cbn [orb]
         end; try discriminate; reflexivity.
Qed.

Lemma update_step_known (c : Collection) (kv : string * value) :
  known_update kv = true ->
  exists r, separated r /\ forall acc, update_step c (Ok acc) kv = Ok (acc +:+ r).
Proof.
  destruct kv as [key sub]. unfold known_update, update_step. cbn [fst snd].
  destruct (JS.instanceof_Object sub); cbn [andb negb]; [|discriminate].
  unfold update_operators. cbn [existsb].
  repeat match goal with
         | |- context [String.eqb key ?s] => destruct (String.eqb key s); cbn [orb]
         end; try discriminate; intros _;
  match goal with
  | |- exists r, _ /\ forall acc, Ok (update_clauses ?f sub acc) = _ =>
      destruct (update_clauses_separated f sub) as (r & Hr & Heq);
      [ intros k x; eexists; rewrite ?append_cons, ?append_nil; reflexivity
      | exists r; split; [exact Hr | intros acc; now rewrite Heq] ]
  end.
Qed.

(** The loop over the update document: it throws whatever it starts from, or
    it appends a separated text. *)
Lemma update_fold (c : Collection) (ps : list (string * value)) :
  (exists e, forall acc, fold_left (update_step c) ps (Ok acc) = Throw e) \/
  (exists r, separated r /\ forall acc, fold_left (update_step c) ps (Ok acc) = Ok (acc +:+ r)).
Proof.
  induction ps as [|kv ps IH].
  - right. exists EmptyString. split; [now left|]. intros acc. simpl. now rewrite append_empty_r.
  - destruct (known_update kv) eqn:Hk.
    + destruct (update_step_known c kv Hk) as (r & Hr & Hstep).
      destruct IH as [[e He]|(r' & Hr' & Hf)].
      * left. exists e. intros acc. cbn [fold_left]. now rewrite Hstep, He.
      * right. exists (r +:+ r'). split; [now apply separated_app|].
        intros acc. cbn [fold_left]. rewrite Hstep, Hf. now rewrite append_assoc.
    + left. exists (OperatorNotKnown (fst kv)). intros acc. cbn [fold_left].
      rewrite update_step_unknown by assumption.
      clear. induction ps as [|kv' ps IH]; [reflexivity|]. cbn [fold_left]. exact IH.
Qed.

Lemma fold_update_throw (c : Collection) (e : Err) (ps : list (string * value)) :
  fold_left (update_step c) ps (Throw e) = Throw e.
Proof. induction ps as [|kv ps IH]; [reflexivity | exact IH]. Qed.

Lemma cut_separated (r : string) :
  separated r -> (r = EmptyString /\ cut_separator r = EmptyString) \/ exists t, r = ", " +:+ t /\ cut_separator r = " " +:+ t.
Proof.
  intros [->|[t ->]]; [left; split; reflexivity|].
  right. exists t. split; [reflexivity|]. unfold cut_separator.
  rewrite append_cons, startsWith_cons, substring_from_1. reflexivity.
Qed.

Lemma cut_app (r1 r2 : string) :
  separated r1 -> separated r2 -> cut_separator (r1 +:+ r2) = glue (cut_separator r1) (cut_separator r2).
Proof.
  intros H1 H2.
  destruct (cut_separated r1 H1) as [[-> ->]|(t1 & -> & ->)].
  - rewrite append_nil. reflexivity.
  - destruct (cut_separated r2 H2) as [[-> ->]|(t2 & -> & ->)].
    + rewrite append_empty_r. unfold cut_separator.
      rewrite append_cons, startsWith_cons, substring_from_1. reflexivity.
    + unfold cut_separator, glue. rewrite !append_cons, startsWith_cons, substring_from_1.
      cbn [Str.is_empty].
      repeat (progress (rewrite ?append_assoc, ?append_cons, ?append_nil)).
      reflexivity.
Qed.

(** The clause of an update document made of two parts. *)
Lemma update_clause_app (c : Collection) (ps1 ps2 : list (string * value)) :
  _computeUpdateClause c (VObj (ps1 ++ ps2)) =
    match _computeUpdateClause c (VObj ps1), _computeUpdateClause c (VObj ps2) with
    | Ok s1, Ok s2 => Ok (glue s1 s2)
    | Throw e, _ => Throw e
    | Ok _, Throw e => Throw e
    end.
Proof.
  rewrite !_computeUpdateClause_fold. cbn [JS.enumerable]. rewrite fold_left_app.
  destruct (update_fold c ps1) as [[e He]|(r1 & Hr1 & H1)].
  - rewrite He. now rewrite fold_update_throw.
  - rewrite H1. rewrite append_nil.
    destruct (update_fold c ps2) as [[e He]|(r2 & Hr2 & H2)].
    + now rewrite !He.
    + rewrite !H2. rewrite append_nil. fold (cut_separator (r1 +:+ r2)) (cut_separator r1) (cut_separator r2).
      now rewrite cut_app.
Qed.

(** X9.  The update clause fails on the first entry of the update
    document that is not one of the eight operators with an object operand,
    naming its key. *)
Theorem update_first_unknown_operator (c : Collection) (pre post : list (string * value))
    (key : string) (sub : value) :
  forallb known_update pre = true ->
  known_update (key, sub) = false ->
  _computeUpdateClause c (VObj (pre ++ (key, sub) :: post)) = Throw (OperatorNotKnown key).
Proof.
  intros Hpre Hk. rewrite _computeUpdateClause_fold. cbn [JS.enumerable].
  rewrite fold_left_app. cbn [fold_left].
  assert (exists r, fold_left (update_step c) pre (Ok EmptyString) = Ok r) as [r ->].
  { generalize EmptyString. induction pre as [|kv pre IH]; intros acc; [simpl; eauto|].
    cbn [forallb] in Hpre. apply andb_prop in Hpre as [Hkv Hpre].
    destruct (update_step_known c kv Hkv) as (r & _ & Hstep).
    cbn [fold_left]. rewrite Hstep. now apply IH. }
  rewrite (update_step_unknown c (key, sub) r Hk). now rewrite fold_update_throw.
Qed.

Lemma update_first_unknown_operator_witness :
  _computeUpdateClause simple_collection
    (VObj [("$set", VObj [("a", VNum 1)]); ("$push", VObj [("tags", VStr "x")]);
           ("$bogus", VNum 1)])
  = Throw (OperatorNotKnown "$push").
Proof.
  apply (update_first_unknown_operator simple_collection
           [("$set", VObj [("a", VNum 1)])] [("$bogus", VNum 1)] "$push"
           (VObj [("tags", VStr "x")])); reflexivity.
Defined.

(** X10.  The clause of an update document made of two parts is the two
    clauses joined by a comma, or the one that is not empty. *)
Theorem update_clause_joins_parts (c : Collection) (ps1 ps2 : list (string * value))
    (s1 s2 : string) :
  _computeUpdateClause c (VObj ps1) = Ok s1 ->
  _computeUpdateClause c (VObj ps2) = Ok s2 ->
  _computeUpdateClause c (VObj (ps1 ++ ps2)) =
    Ok (if Str.is_empty s1 then s2
        else if Str.is_empty s2 then s1
        else s1 +:+ "," +:+ s2).
Proof. intros H1 H2. rewrite update_clause_app, H1, H2. reflexivity. Qed.

Lemma update_clause_joins_parts_witness :
  _computeUpdateClause simple_collection
    (VObj ([("$unset", VObj [("a", VNum 1)])] ++ [("$inc", VObj [("n", VNum 2)])]))
  = Ok (" REMOVE " +:+ _computeDbProp simple_collection "a" +:+ "," +:+
        " SET " +:+ _computeDbProp simple_collection "n" +:+ " = " +:+
        _computeDbProp simple_collection "n" +:+ " + 2").
Proof.
  exact (update_clause_joins_parts simple_collection
           [("$unset", VObj [("a", VNum 1)])] [("$inc", VObj [("n", VNum 2)])]
           (" REMOVE " +:+ _computeDbProp simple_collection "a")
           (" SET " +:+ _computeDbProp simple_collection "n" +:+ " = " +:+
            _computeDbProp simple_collection "n" +:+ " + 2")
           eq_refl eq_refl).
Defined.

(** X11.  An update clause never opens with a comma: it is empty or opens
    with a space. *)
Theorem update_clause_opens_with_space (c : Collection) (update : value) (s : string) :
  _computeUpdateClause c update = Ok s ->
  Str.startsWith "," s = false /\
  (s = EmptyString \/ exists t, s = " " +:+ t).
Proof.
  rewrite _computeUpdateClause_fold.
  destruct (update_fold c (JS.enumerable update)) as [[e He]|(r & Hr & Hf)].
  - rewrite He. discriminate.
  - rewrite Hf, append_nil. fold (cut_separator r). intros [= <-].
    destruct (cut_separated r Hr) as [[_ ->]|(t & _ & ->)].
    + split; [reflexivity | now left].
    + split; [reflexivity | right; eauto].
Qed.

Lemma update_clause_opens_with_space_witness :
  Str.startsWith "," (" REMOVE " +:+ _computeDbProp simple_collection "a") = false /\
  (" REMOVE " +:+ _computeDbProp simple_collection "a" = EmptyString \/
   exists t, " REMOVE " +:+ _computeDbProp simple_collection "a" = " " +:+ t).
Proof.
  exact (update_clause_opens_with_space simple_collection
           (VObj [("$unset", VObj [("a", VNum 1)])])
           (" REMOVE " +:+ _computeDbProp simple_collection "a") eq_refl).
Defined.

(** ** The cursor off its main path *)

(** X12.  A running cursor with an empty buffer, whose source serves an
    empty batch: [next] answers null and [hasNext] false, the iteration ends,
    although the cursor is still open and the source has the batches that
    follow. *)
Theorem empty_batch_ends_next (w : Cursor) (v : value) (g : list GenStep) (rounds : nat) :
  _isClosed w = false -> _isStarted w = true -> _documents w = [] ->
  _gen w = Some (Batch v :: g) -> JS.get_prop v "rows" = VArr [] ->
  let w' := set_documents [] (set_gen (Some g) (record_call CallNext w)) in
  next (S rounds) w = Some (Ok VNull, w') /\
  hasNext (S rounds) w = Some (Ok false, w') /\
  iterate (S rounds) w = Some (Ok [], close w') /\
  _isClosed w' = false /\ _gen w' = Some g.
Proof.
  intros Hc Hs Hd Hg Hrows w'.
  assert (fetchBatch w = (Ok tt, w')) as Hf.
  { unfold fetchBatch. rewrite Hc, Hs. cbn [negb]. rewrite Hg. cbv zeta.
    rewrite Hrows. reflexivity. }
  assert (next (S rounds) w = Some (Ok VNull, w')) as Hn.
  { simpl. unfold shift. rewrite Hd. cbn [JS.not_nullish]. rewrite Hf. reflexivity. }
  split; [exact Hn|].
  split. { simpl. rewrite Hd. cbn. rewrite Hf. reflexivity. }
  split.
  { unfold iterate. rewrite Hc, Hs. cbn [negb].
    cbn [iterate_loop]. rewrite Hc, Hn. cbn [JS.is_null].
    subst w'. cbn [_isClosed set_documents set_gen record_call]. rewrite Hc. reflexivity. }
  split; [exact Hc | reflexivity].
Qed.

Lemma empty_batch_ends_next_witness :
  let g := batch_source [[VObj [("kvid", VStr "c")]]] in
  let w' := set_documents [] (set_gen (Some g) (record_call CallNext (before_empty_batch g))) in
  next 3 (before_empty_batch g) = Some (Ok VNull, w') /\
  hasNext 3 (before_empty_batch g) = Some (Ok false, w') /\
  iterate 3 (before_empty_batch g) = Some (Ok [], close w') /\
  _isClosed w' = false /\ _gen w' = Some g.
Proof.
  intros g.
  exact (empty_batch_ends_next (before_empty_batch g) (VObj [("rows", VArr [])]) g 2
           eq_refl eq_refl eq_refl eq_refl eq_refl).
Defined.

(** X13.  When the statement is not cached and cannot be prepared, the first
    [fetchBatch] throws and leaves the cursor started and open; the next
    [fetchBatch] closes it without a store call and without an error, and
    [next] answers null. *)
Theorem failed_prepare_then_silent_end (cl : Client) (cache : gmap string PrepStmt)
    (stmt : string) (b : option Bindings) (limit : option Z) (e : Err) (rounds : nat) :
  cache !! stmt = None -> prepare cl stmt = Throw e ->
  let w0 := new_cursor cl cache stmt b limit in
  exists w1,
    fetchBatch w0 = (Throw e, w1) /\ _isClosed w1 = false /\
    fetchBatch w1 = (Ok tt, close w1) /\
    next (S rounds) w1 = Some (Ok VNull, close w1) /\
    calls (close w1) = [CallPrepare stmt].
Proof.
  intros Hm Hp w0.
  exists (record_call (CallPrepare stmt) (set_started w0)).
  unfold fetchBatch, start_query.
  cbn [w0 new_cursor _isClosed _isStarted negb set_started prepStmtCache statement client
       record_call].
  rewrite Hm. cbn [record_call statement client prepStmtCache]. rewrite Hp.
  repeat split.
Qed.

Lemma failed_prepare_then_silent_end_witness :
  let w0 := new_cursor (unprepared_client (StoreError 3)) ∅ "SELECT * FROM t $t" None None in
  exists w1,
    fetchBatch w0 = (Throw (StoreError 3), w1) /\ _isClosed w1 = false /\
    fetchBatch w1 = (Ok tt, close w1) /\
    next 2 w1 = Some (Ok VNull, close w1) /\
    calls (close w1) = [CallPrepare "SELECT * FROM t $t"].
Proof.
  exact (failed_prepare_then_silent_end (unprepared_client (StoreError 3)) ∅
           "SELECT * FROM t $t" None None (StoreError 3) 1 eq_refl eq_refl).
Defined.

(** X14.  The iteration of a fresh cursor yields no document and leaves the
    cursor closed, whatever the store holds: the first [fetchBatch] is not
    awaited, and the [fetchBatch] of [next] finds no batch source. *)
Theorem fresh_iteration_yields_nothing (cl : Client) (cache : gmap string PrepStmt)
    (stmt : string) (b : option Bindings) (limit : option Z) (rounds : nat) :
  exists w',
    iterate (S rounds) (new_cursor cl cache stmt b limit) = Some (Ok [], w') /\
    _isClosed w' = true.
Proof.
  destruct (fetchBatch_unawaited_fresh cl cache stmt b limit) as (Hc & Hs & Hg & Hd).
  exists (close (set_started (fetchBatch_unawaited (new_cursor cl cache stmt b limit)))).
  split; [|reflexivity].
  unfold iterate. cbn [new_cursor _isClosed _isStarted negb].
  change (fetchBatch_unawaited _) with (fetchBatch_unawaited (new_cursor cl cache stmt b limit)).
  rewrite (iterate_loop_without_source _ rounds Hc Hs Hg Hd).
  cbn [close _isClosed negb]. reflexivity.
Qed.

(** The last element of a list that is not empty, whatever the default. *)
Lemma last_default {A} (l : list A) (d d' : A) :
  l <> [] -> List.last l d = List.last l d'.
Proof.
  induction l as [|x l IH]; [congruence|]. intros _.
  destruct l as [|y l]; [reflexivity|].
  change (List.last (y :: l) d = List.last (y :: l) d'). now apply IH.
Qed.

(** The loop of [toArray] within the cap: what it leaves in the buffer. *)
Lemma toArray_loop_buffer (rows : list (list value)) :
  forall (docs : list (list value)) (rounds : nat) (array : list value) (w : Cursor),
    mapR (mapR read_row) rows = Ok docs ->
    _isClosed w = false -> _isStarted w = true ->
    _gen w = Some (batch_source rows) ->
    length rows < rounds ->
    (Z.of_nat (length (array ++ _documents w ++ concat docs)) <= maxLimit w)%Z ->
    exists w', toArray_loop rounds array w = Some (Ok (array ++ _documents w ++ concat docs), w') /\
               _isClosed w' = true /\ _documents w' = List.last docs (_documents w) /\
               maxLimit w' = maxLimit w.
Proof.
  induction rows as [|rs rows IH]; intros docs rounds array w Hr Hc Hs Hg Hn Hcap.
  - simpl in Hr. injection Hr as <-. simpl concat in *. rewrite app_nil_r in *.
    destruct rounds as [|rounds]; [simpl in Hn; lia|]. simpl toArray_loop.
    rewrite length_app in Hcap.
    destruct (Z.ltb_spec (maxLimit w) (Z.of_nat (length array + length (_documents w))));
      [lia|].
    rewrite fetchBatch_done by assumption. cbn. eauto.
  - apply mapR_cons_inv in Hr as (ds & docs' & -> & Hrs & Hr).
    destruct rounds as [|rounds]; [simpl in Hn; lia|]. simpl in Hn.
    simpl toArray_loop. simpl concat in *.
    destruct (Z.ltb_spec (maxLimit w) (Z.of_nat (length array + length (_documents w)))).
    + rewrite !length_app in Hcap. lia.
    + simpl in Hg. rewrite (fetchBatch_batch _ _ _ _ Hc Hs Hg Hrs). cbn [_isClosed set_documents].
      cbn [set_gen record_call _isClosed]. rewrite Hc.
      destruct (IH docs' rounds (array ++ _documents w)
                  (set_documents ds (set_gen (Some (batch_source rows)) (record_call CallNext w)))
                  Hr Hc Hs eq_refl ltac:(lia)) as (w' & Hrun & Hcl & Hdocs & Hm).
      { cbn [_documents maxLimit set_documents set_gen record_call].
        rewrite <- !app_assoc. exact Hcap. }
      cbn [_documents maxLimit set_documents set_gen record_call] in Hrun, Hdocs, Hm.
      rewrite <- !app_assoc in Hrun. exists w'. repeat split; try assumption.
      rewrite Hdocs. destruct docs' as [|d docs']; [reflexivity|].
      change (List.last (ds :: d :: docs') (_documents w))
        with (List.last (d :: docs') (_documents w)).
      now apply last_default.
Qed.

Lemma last_length_concat {A} (l : list (list A)) :
  length (List.last l []) <= length (concat l).
Proof.
  induction l as [|x l IH]; [reflexivity|].
  simpl concat. rewrite length_app. destruct l as [|y l]; [simpl; lia|].
  change (List.last (x :: y :: l) []) with (List.last (y :: l) []). lia.
Qed.

(** X15.  Within the cap, [toArray] on a fresh cursor returns all the
    documents served and leaves the last batch in the buffer: a second
    [toArray] returns that batch again. *)
Theorem toArray_leaves_last_batch (cl : Client) (cache : gmap string PrepStmt) (stmt : string)
    (b : option Bindings) (limit : option Z) (rows docs : list (list value)) (rounds : nat) :
  (forall s, is_ok (prepare cl s) = true) ->
  (forall ps, is_ok (copyStatement cl ps) = true) ->
  (forall ps, queryIterable cl ps = Ok (batch_source rows)) ->
  mapR (mapR read_row) rows = Ok docs ->
  length rows + 1 < rounds ->
  (Z.of_nat (length (concat docs)) <= default MAX_QUERY_RESULTS_LIMIT limit)%Z ->
  exists w',
    toArray rounds (new_cursor cl cache stmt b limit) = Some (Ok (concat docs), w') /\
    _isClosed w' = true /\
    _documents w' = List.last docs [] /\
    toArray rounds w' = Some (Ok (List.last docs []), w').
Proof.
  intros Hp Hcp Hq Hr Hn Hcap.
  set (w0 := new_cursor cl cache stmt b limit).
  destruct rounds as [|rounds]; [lia|].
  assert (exists w', toArray (S rounds) w0 = Some (Ok (concat docs), w') /\
                     _isClosed w' = true /\ _documents w' = List.last docs [] /\
                     maxLimit w' = default MAX_QUERY_RESULTS_LIMIT limit)
    as (w' & Hrun & Hcl & Hdocs & Hm).
  { unfold toArray. simpl toArray_loop.
    cbn [maxLimit _documents w0 new_cursor length Nat.add].
    change (Z.of_nat 0) with 0%Z.
    destruct (Z.ltb_spec (default MAX_QUERY_RESULTS_LIMIT limit) 0); [lia|].
    destruct (start_query_ok w0 (batch_source rows) Hp Hcp Hq)
      as (w1 & Hst & Hg & Hs & Hc & Hd & Hm).
    unfold fetchBatch. cbn [_isClosed _isStarted w0 new_cursor negb]. rewrite Hst, Hg.
    destruct rows as [|rs rows].
    - simpl in Hr. injection Hr as <-. cbn. eexists. repeat split; try reflexivity.
      + cbn. exact Hd.
      + cbn. exact Hm.
    - apply mapR_cons_inv in Hr as (ds & docs' & -> & Hrs & Hr).
      cbn [batch_source List.map JS.get_prop JS.obj_get String.eqb Ascii.eqb Bool.eqb
           default from_option id JS.is_truthy].
      rewrite Hrs.
      cbn [_isClosed set_documents set_gen record_call]. rewrite Hc. cbn [w0 new_cursor _isClosed].
      simpl in Hn.
      destruct (toArray_loop_buffer rows docs' rounds []
                  (set_documents ds (set_gen (Some (batch_source rows)) (record_call CallNext w1)))
                  Hr) as (w' & Hrun & Hcl & Hdocs & Hm');
        [cbn; rewrite Hc; reflexivity | exact Hs | reflexivity | lia | |].
      { cbn [_documents maxLimit set_documents set_gen record_call app].
        rewrite Hm. cbn [w0 new_cursor maxLimit]. simpl concat in Hcap. exact Hcap. }
      cbn [_documents maxLimit set_documents set_gen record_call app] in Hrun, Hdocs, Hm'.
      exists w'. split; [exact Hrun|]. split; [exact Hcl|]. split.
      + rewrite Hdocs. destruct docs' as [|d docs']; [reflexivity|].
        change (List.last (ds :: d :: docs') []) with (List.last (d :: docs') []).
        now apply last_default.
      + rewrite Hm', Hm. reflexivity. }
  exists w'. repeat split; try assumption.
  unfold toArray. simpl toArray_loop. rewrite Hdocs, Hm. cbn [length Nat.add app].
  pose proof (last_length_concat docs) as Hlast.
  destruct (Z.ltb_spec (default MAX_QUERY_RESULTS_LIMIT limit)
              (Z.of_nat (length (List.last docs [])))); [lia|].
  rewrite (fetchBatch_closed _ Hcl), Hcl. reflexivity.
Qed.

Lemma toArray_leaves_last_batch_witness :
  exists w',
    toArray 4 (new_cursor (serving_client sample_rows) ∅ "SELECT * FROM t $t" None None)
      = Some (Ok sample_documents, w') /\
    _isClosed w' = true /\
    _documents w' = [VObj [("n", VNum 3); ("_id", VStr "c")]] /\
    toArray 4 w' = Some (Ok [VObj [("n", VNum 3); ("_id", VStr "c")]], w').
Proof.
  apply (toArray_leaves_last_batch (serving_client sample_rows) ∅ "SELECT * FROM t $t" None None
           sample_rows
           [[VObj [("n", VNum 1); ("_id", VStr "a")]; VObj [("n", VNum 2); ("_id", VStr "b")]];
            [VObj [("n", VNum 3); ("_id", VStr "c")]]] 4);
    try reflexivity; try (intros; reflexivity).
  - simpl. lia.
  - vm_compute. discriminate.
Defined.

(** The calls that are not [prepare]. *)
Lemma fetchBatch_started_calls (w : Cursor) :
  _isStarted w = true ->
  prepStmtCache (snd (fetchBatch w)) = prepStmtCache w /\
  (calls (snd (fetchBatch w)) = calls w \/ calls (snd (fetchBatch w)) = calls w ++ [CallNext]).
Proof.
  intros Hs. unfold fetchBatch. rewrite Hs. cbn [negb].
  destruct (_isClosed w); [auto|].
  destruct (_gen w) as [[|[v|e] g]|]; cbn; auto.
  destruct (JS.is_truthy (JS.get_prop v "rows")); cbn; auto.
  destruct (JS.get_prop v "rows"); cbn; auto.
  destruct (mapR read_row elems); cbn; auto.
Qed.

Local Ltac cursor_simpl :=
  cbn [set_started set_cache set_gen set_documents record_call close prepStmtCache statement
       client bindings calls _isStarted _isClosed _gen _documents maxLimit app fst snd].

(** The first fetch of a fresh cursor, when the client answers. *)
Lemma start_query_fresh (cl : Client) (cache : gmap string PrepStmt) (stmt : string)
    (b : option Bindings) (limit : option Z) :
  (forall p, is_ok (copyStatement cl p) = true) ->
  (forall p, is_ok (queryIterable cl p) = true) ->
  let w0 := new_cursor cl cache stmt b limit in
  (forall ps, cache !! stmt = None -> prepare cl stmt = Ok ps ->
     exists w1 l, start_query w0 = (Ok tt, w1) /\ _isStarted w1 = true /\ _isClosed w1 = false /\
                  prepStmtCache w1 = <[stmt := ps]> cache /\
                  calls w1 = CallPrepare stmt :: l /\ forall s, ~ In (CallPrepare s) l) /\
  (forall p, cache !! stmt = Some p ->
     exists w1, start_query w0 = (Ok tt, w1) /\ _isStarted w1 = true /\ _isClosed w1 = false /\
                prepStmtCache w1 = cache /\ forall s, ~ In (CallPrepare s) (calls w1)).
Proof.
  intros Hcp Hq w0. subst w0. unfold start_query, new_cursor.
  cursor_simpl.
  split.
  - intros ps -> Hp.
    cursor_simpl.
    rewrite Hp. cursor_simpl.
    destruct b as [b0|]; [destruct (0 <? size b0)|].
    + cursor_simpl.
      pose proof (Hcp ps) as H1. destruct (copyStatement cl ps) as [ps'|]; [|discriminate H1].
      cursor_simpl.
      pose proof (Hq (bind_all b0 ps')) as H2.
      destruct (queryIterable cl (bind_all b0 ps')) as [g|]; [|discriminate H2].
      eexists. eexists. split; [reflexivity|]. cursor_simpl. repeat split.
      intros s [H|[H|[]]]; discriminate H.
    + cursor_simpl.
      pose proof (Hq ps) as H2. destruct (queryIterable cl ps) as [g|]; [|discriminate H2].
      eexists. eexists. split; [reflexivity|]. cursor_simpl. repeat split.
      intros s [H|[]]; discriminate H.
    + cursor_simpl.
      pose proof (Hq ps) as H2. destruct (queryIterable cl ps) as [g|]; [|discriminate H2].
      eexists. eexists. split; [reflexivity|]. cursor_simpl. repeat split.
      intros s [H|[]]; discriminate H.
  - intros p ->. cursor_simpl.
    destruct b as [b0|]; cursor_simpl; [destruct (0 <? size b0)|].
    + cursor_simpl.
      pose proof (Hcp p) as H1. destruct (copyStatement cl p) as [ps'|]; [|discriminate H1].
      cursor_simpl.
      pose proof (Hq (bind_all b0 ps')) as H2.
      destruct (queryIterable cl (bind_all b0 ps')) as [g|]; [|discriminate H2].
      eexists. split; [reflexivity|]. cursor_simpl. repeat split.
      intros s [H|[H|[]]]; discriminate H.
    + cursor_simpl.
      pose proof (Hq p) as H2. destruct (queryIterable cl p) as [g|]; [|discriminate H2].
      eexists. split; [reflexivity|]. cursor_simpl. repeat split.
      intros s [H|[]]; discriminate H.
    + cursor_simpl.
      pose proof (Hq p) as H2. destruct (queryIterable cl p) as [g|]; [|discriminate H2].
      eexists. split; [reflexivity|]. cursor_simpl. repeat split.
      intros s [H|[]]; discriminate H.
Qed.

(** After a first fetch that started the query, the fetch goes on as on the
    started cursor. *)
Lemma fetchBatch_after_start (w w1 : Cursor) :
  _isClosed w = false -> _isStarted w = false ->
  start_query w = (Ok tt, w1) -> _isStarted w1 = true -> _isClosed w1 = false ->
  fetchBatch w = fetchBatch w1.
Proof.
  intros Hc Hs Hst Hs1 Hc1. unfold fetchBatch. rewrite Hc, Hs, Hc1, Hs1. cbn [negb].
  rewrite Hst. reflexivity.
Qed.

(** X16.  The first fetch of a fresh cursor, on a client that answers, asks
    the cache before the store: when the cache answers the statement the
    fetch makes no [prepare] call, and when it does not the first store call
    is the [prepare] of the statement, and the only one. *)
Theorem prepare_only_on_cache_miss (cl : Client) (cache : gmap string PrepStmt)
    (stmt : string) (b : option Bindings) (limit : option Z) :
  (forall p, is_ok (copyStatement cl p) = true) ->
  (forall p, is_ok (queryIterable cl p) = true) ->
  let w := snd (fetchBatch (new_cursor cl cache stmt b limit)) in
  (forall ps, cache !! stmt = None -> prepare cl stmt = Ok ps ->
     exists l, calls w = CallPrepare stmt :: l /\ forall s, ~ In (CallPrepare s) l) /\
  (forall p, cache !! stmt = Some p -> forall s, ~ In (CallPrepare s) (calls w)).
Proof.
  intros Hcp Hq w.
  destruct (start_query_fresh cl cache stmt b limit Hcp Hq) as [Hmiss Hhit].
  split.
  - intros ps Hm Hp.
    destruct (Hmiss ps Hm Hp) as (v1 & l & Hst & Hs1 & Hc1 & _ & Hcalls1 & Hl).
    assert (fetchBatch (new_cursor cl cache stmt b limit) = fetchBatch v1) as E1
      by (apply fetchBatch_after_start; auto).
    destruct (fetchBatch_started_calls v1 Hs1) as [_ Hn1].
    unfold w. rewrite E1. destruct Hn1 as [-> | ->]; rewrite Hcalls1.
    + exists l. split; [reflexivity | exact Hl].
    + exists (l ++ [CallNext]). split; [reflexivity|].
      intros s H. apply in_app_or in H as [H|[H|[]]]; [now apply (Hl s) | discriminate H].
  - intros p Hp s.
    destruct (Hhit p Hp) as (v2 & Hst2 & Hs2 & Hc2 & _ & Hno2).
    assert (fetchBatch (new_cursor cl cache stmt b limit) = fetchBatch v2) as E2
      by (apply fetchBatch_after_start; auto).
    destruct (fetchBatch_started_calls v2 Hs2) as [_ Hn2].
    unfold w. rewrite E2. destruct Hn2 as [-> | ->]; [apply Hno2|].
    intros H. apply in_app_or in H as [H|[H|[]]]; [now apply (Hno2 s) | discriminate H].
Qed.

Lemma prepare_only_on_cache_miss_witness :
  let cl := serving_client sample_rows in
  let ps := {| ps_text := "SELECT * FROM t $t"; ps_vars := ∅ |} in
  (exists l, calls (snd (fetchBatch (new_cursor cl ∅ "SELECT * FROM t $t" None None)))
               = CallPrepare "SELECT * FROM t $t" :: l /\
             forall s, ~ In (CallPrepare s) l) /\
  (forall s, ~ In (CallPrepare s)
       (calls (snd (fetchBatch (new_cursor cl {[ "SELECT * FROM t $t" := ps ]}
                                  "SELECT * FROM t $t" None None))))).
Proof.
  intros cl ps. split.
  - apply (proj1 (prepare_only_on_cache_miss cl ∅ "SELECT * FROM t $t" None None
                    (fun _ => eq_refl) (fun _ => eq_refl)) ps); reflexivity.
  - apply (proj2 (prepare_only_on_cache_miss cl {[ "SELECT * FROM t $t" := ps ]}
                    "SELECT * FROM t $t" None None
                    (fun _ => eq_refl) (fun _ => eq_refl)) ps).
    reflexivity.
Defined.

(** ** Rows on the way in *)

Lemma forallb_map_Forall {A B} (f : A -> B) (p : B -> bool) (l : list A) :
  Forall (fun x => p (f x) = true) l -> forallb p (List.map f l) = true.
Proof. induction 1 as [|x l Hx _ IH]; simpl; [reflexivity | now rewrite Hx, IH]. Qed.

Lemma map_map_Forall {A} (f : A -> A) (l : list A) :
  Forall (fun x => f (f x) = f x) l -> List.map f (List.map f l) = List.map f l.
Proof. induction 1 as [|x l Hx _ IH]; simpl; [reflexivity | now rewrite Hx, IH]. Qed.

(** X17.  What [_fixTypesBeforeInsert] returns holds no date and no
    identifier object at any depth, and a second walk changes nothing. *)
Theorem fixTypesBeforeInsert_plain_and_idempotent (v : value) :
  plain_json (_fixTypesBeforeInsert v) = true /\
  _fixTypesBeforeInsert (_fixTypesBeforeInsert v) = _fixTypesBeforeInsert v.
Proof.
  pattern v. apply value_nested_ind; clear v; try (split; reflexivity).
  - intros [|]; split; reflexivity.
  - intros n. unfold _fixTypesBeforeInsert. destruct (negb (JS.is_truthy (VNum n))) eqn:E.
    + split; [reflexivity|]. now rewrite E.
    + split; [reflexivity|]. now rewrite E.
  - intros s. unfold _fixTypesBeforeInsert. destruct (negb (JS.is_truthy (VStr s))) eqn:E.
    + split; [reflexivity|]. now rewrite E.
    + split; [reflexivity|]. now rewrite E.
  - intros i t. simpl. split; [reflexivity|]. destruct i; reflexivity.
  - intros h. simpl. split; [reflexivity|]. destruct h; reflexivity.
  - intros vs IH. simpl. split.
    + apply forallb_map_Forall. eapply Forall_impl; [exact IH|]. now intros x [Hx _].
    + f_equal. apply map_map_Forall. eapply Forall_impl; [exact IH|]. now intros x [_ Hx].
  - intros ps IH. simpl. split.
    + apply (forallb_map_Forall (fun kv => (fst kv, _fixTypesBeforeInsert (snd kv)))
               (fun kv => plain_json (snd kv))).
      eapply Forall_impl; [exact IH|]. now intros [k x] [Hx _].
    + f_equal. apply (map_map_Forall (fun kv => (fst kv, _fixTypesBeforeInsert (snd kv)))).
      eapply Forall_impl; [exact IH|]. intros [k x] [_ Hx]. simpl in *. now rewrite Hx.
Qed.

Lemma obj_get_set (k k' : string) (v : value) (ps : list (string * value)) :
  JS.obj_get k' (JS.obj_set k v ps) = if String.eqb k' k then Some v else JS.obj_get k' ps.
Proof.
  induction ps as [|[k0 v0] ps IH]; simpl.
  - reflexivity.
  - destruct (String.eqb_spec k k0) as [->|Hne]; simpl.
    + destruct (String.eqb k' k0); reflexivity.
    + destruct (String.eqb_spec k' k0) as [->|Hne'].
      * destruct (String.eqb_spec k0 k); [congruence | reflexivity].
      * exact IH.
Qed.

(** What [Object.assign] leaves under a name, for a source without repeated
    names. *)
Lemma obj_get_assign (k : string) (src tgt : list (string * value)) :
  List.NoDup (List.map fst src) ->
  JS.obj_get k (JS.obj_assign tgt src) =
    match JS.obj_get k src with Some v => Some v | None => JS.obj_get k tgt end.
Proof.
  unfold JS.obj_assign. revert tgt.
  induction src as [|[k0 v0] src IH]; intros tgt Hnd; [reflexivity|].
  simpl in Hnd. apply List.NoDup_cons_iff in Hnd as [Hnin Hnd].
  cbn [fold_left fst snd]. rewrite IH by assumption. simpl.
  rewrite obj_get_set.
  destruct (String.eqb_spec k k0) as [->|Hne].
  - apply obj_get_None in Hnin. now rewrite Hnin.
  - reflexivity.
Qed.

(** X18.  Under a simple key, a document field named [kvid] takes the place
    of the key in the row: the row holds the field's value, not the
    identity. *)
Theorem kvid_field_overwrites_key (c : Collection) (doc : list (string * value)) (v : value) :
  _hasCompositeKeys c = false ->
  List.NoDup (List.map fst doc) ->
  JS.obj_get KVID doc = Some v ->
  JS.get_prop (_marshallObjectIntoRow c doc) KVID = _fixTypesBeforeInsert v.
Proof.
  intros Hc Hnd Hk. unfold _marshallObjectIntoRow, _setPK. rewrite Hc.
  cbn [JS.get_prop _fixTypesBeforeInsert JS.is_truthy negb JS.enumerable].
  rewrite obj_get_assign.
  - rewrite obj_get_map, obj_get_delete_other by discriminate. rewrite Hk. reflexivity.
  - rewrite map_fst_map. now apply obj_delete_NoDup.
Qed.

Lemma kvid_field_overwrites_key_witness :
  JS.get_prop (_marshallObjectIntoRow simple_collection
                 [("_id", VStr "k1"); ("kvid", VNum 7)]) KVID = VNum 7.
Proof.
  apply (kvid_field_overwrites_key simple_collection [("_id", VStr "k1"); ("kvid", VNum 7)]
           (VNum 7)); [reflexivity | | reflexivity].
  repeat constructor; simpl; intuition discriminate.
Defined.

(** X19.  The row of [replaceOne] keeps the [_id] field of the replacement
    beside the key; when that field is a string which the identifier
    constructor refuses, reading the row back fails. *)
Theorem replaced_row_with_identity_field (c : Collection) (filter : value)
    (replacement : list (string * value)) (s : string) (e : Err) :
  List.NoDup (List.map fst replacement) ->
  JS.obj_get "_id" replacement = Some (VStr s) ->
  s <> EmptyString ->
  new_ObjectId s = Throw e ->
  JS.get_prop (replaceOne_row c filter (VObj replacement)) "_id" = VStr s /\
  read_row (replaceOne_row c filter (VObj replacement)) = Throw e.
Proof.
  intros Hnd Hid Hs He.
  assert (JS.obj_get "_id"
            (JS.obj_assign (_setPK c [] filter)
               (JS.enumerable (_fixTypesBeforeInsert (VObj replacement)))) = Some (VStr s))
    as Hrow.
  { cbn [_fixTypesBeforeInsert JS.is_truthy negb JS.enumerable].
    rewrite obj_get_assign by (now rewrite map_fst_map).
    rewrite obj_get_map, Hid. simpl. destruct s; [congruence | reflexivity]. }
  unfold replaceOne_row. split.
  - cbn [JS.get_prop]. now rewrite Hrow.
  - unfold read_row. cbn [_fixTypesAfterRead]. unfold OBJECTID_ENABLED. cbv iota.
    rewrite Hrow. destruct s as [|a s]; [congruence|]. now rewrite He.
Qed.

Lemma replaced_row_with_identity_field_witness :
  JS.get_prop (replaceOne_row simple_collection (VObj [("_id", VStr "k1")])
                 (VObj [("_id", VStr "k1"); ("n", VNum 2)])) "_id" = VStr "k1" /\
  read_row (replaceOne_row simple_collection (VObj [("_id", VStr "k1")])
              (VObj [("_id", VStr "k1"); ("n", VNum 2)])) = Throw BSONError.
Proof.
  apply (replaced_row_with_identity_field simple_collection (VObj [("_id", VStr "k1")])
           [("_id", VStr "k1"); ("n", VNum 2)] "k1" BSONError);
    [ | reflexivity | discriminate | reflexivity].
  repeat constructor; simpl; intuition discriminate.
Defined.

(** ** The statement that creates the table *)











(** ** Indexes *)

Lemma join_cons (sep x : string) (y : string) (l : list string) :
  Str.join sep (x :: y :: l) = x +:+ sep +:+ Str.join sep (y :: l).
Proof. reflexivity. Qed.

Lemma split_nonempty (s : string) : Str.split "." s <> [].
Proof.
  destruct s as [|a s]; [discriminate|]. cbn [Str.split].
  destruct (Ascii.eqb a "."); [discriminate|].
  destruct (Str.split "." s); discriminate.
Qed.

(** Splitting at the dots and joining with dots gives the string back. *)
Lemma join_split (s : string) : Str.join "." (Str.split "." s) = s.
Proof.
  induction s as [|a s IH]; [reflexivity|].
  cbn [Str.split]. pose proof (split_nonempty s) as Hne.
  destruct (Str.split "." s) as [|seg segs]; [congruence|].
  destruct (Ascii.eqb_spec a ".") as [->|Hdot].
  - rewrite join_cons, IH. reflexivity.
  - destruct segs as [|seg' segs].
    + simpl in *. now subst.
    + rewrite join_cons in *. rewrite append_cons. now rewrite IH.
Qed.

Lemma _computeDbType_anyatomic :
  forall (t : IndexType) (isArray : bool) (ty : string),
    _computeDbType t = Done (isArray, ty) -> ty = "ANYATOMIC".
Proof.
  fix IH 1. intros [inst caster] isArray ty. cbn [_computeDbType].
  destruct (bool_decide (inst = Some "Array")).
  - destruct caster as [t'|]; [|discriminate].
    destruct (_computeDbType t') as [[a ty']|] eqn:E; [|discriminate].
    intros [= <- <-]. exact (IH t' a ty' E).
  - intros [= <- <-]. reflexivity.
Qed.

Lemma index_steps_done (paths : list (string * IndexType)) (steps : list string) :
  forall (walked : list string) (dbProp ty text : string),
    steps <> [] ->
    index_steps paths walked steps dbProp ty = Done text ->
    (exists path, text = path +:+ " AS ANYATOMIC") /\
    is_Some (index_path_get (Str.join "." (walked ++ steps)) paths).
Proof.
  induction steps as [|step steps IH]; intros walked dbProp ty text Hne; [congruence|].
  cbn [index_steps].
  destruct (index_path_get (Str.join "." (walked ++ [step])) paths) as [t|] eqn:Hget;
    [|discriminate].
  destruct (no_instance t); [discriminate|].
  destruct (_computeDbType t) as [[isArray ty']|] eqn:Hty; [|discriminate].
  apply _computeDbType_anyatomic in Hty as ->.
  destruct steps as [|step' steps].
  - cbn [index_steps]. intros [= <-]. split; [eauto|]. rewrite Hget. eauto.
  - intros H. apply IH in H; [|discriminate].
    rewrite <- app_assoc in H. exact H.
Qed.

(** X22.  An index path that compiles is declared in the schema, and its
    text ends with the type ANYATOMIC whatever the schema type of the path. *)
Theorem index_property_is_anyatomic (prop : string) (paths : list (string * IndexType))
    (text : string) :
  _computeIndexProperty prop (Some paths) = Done text ->
  (exists path, text = path +:+ " AS ANYATOMIC") /\
  is_Some (index_path_get prop paths).
Proof.
  unfold _computeIndexProperty. destruct (negb _); [discriminate|].
  intros H. apply index_steps_done in H; [|apply split_nonempty].
  cbn [app] in H. now rewrite join_split in H.
Qed.

Lemma index_property_is_anyatomic_witness :
  (exists path, "tags[].label AS ANYATOMIC" = path +:+ " AS ANYATOMIC") /\
  is_Some (index_path_get "tags.label"
             [("tags", MkIndexType (Some "Array") (Some (MkIndexType (Some "Embedded") None)));
              ("tags.label", MkIndexType (Some "String") None)]).
Proof.
  apply (index_property_is_anyatomic "tags.label"
           [("tags", MkIndexType (Some "Array") (Some (MkIndexType (Some "Embedded") None)));
            ("tags.label", MkIndexType (Some "String") None)]).
  vm_compute. reflexivity.
Defined.




(** ** Sort *)

Lemma mapO_app {E A B} (f : A -> Outcome E B) (l1 l2 : list A) :
  mapO f (l1 ++ l2) =
    match mapO f l1 with
    | Raised e => Raised e
    | Done ys1 => match mapO f l2 with
                  | Raised e => Raised e
                  | Done ys2 => Done (ys1 ++ ys2)
                  end
    end.
Proof.
  induction l1 as [|x l1 IH]; simpl.
  - destruct (mapO f l2); reflexivity.
  - destruct (f x); [|reflexivity]. rewrite IH.
    destruct (mapO f l1); [|reflexivity]. destruct (mapO f l2); reflexivity.
Qed.

Lemma mapO_all_done {E A B} (f : A -> Outcome E B) (g : A -> B) (l : list A) :
  Forall (fun x => f x = Done (g x)) l -> mapO f l = Done (g <$> l).
Proof. induction 1 as [|x l Hx _ IH]; simpl; [reflexivity | now rewrite Hx, IH]. Qed.

Lemma sort_terms_done (c : Collection) (l : list (string * value)) :
  forallb known_direction l = true ->
  mapO (sort_term c) l = Done (sort_term_text c <$> l).
Proof.
  intros Hl. apply mapO_all_done. apply Forall_forall. intros kv Hin.
  rewrite forallb_forall in Hl. specialize (Hl kv). rewrite <- list_elem_of_In in Hl.
  specialize (Hl Hin). apply bool_decide_eq_true in Hl as [dir Hdir].
  unfold sort_term, sort_term_text. now rewrite Hdir.
Qed.

(** X24.  A sort specification whose directions are all known compiles to
    ORDER BY and one term for every key, in the order of the keys; with no
    key at all the clause is the bare ORDER BY. *)
Theorem sort_clause_terms (c : Collection) (spec : list (string * value)) :
  forallb known_direction spec = true ->
  _computeSortClause c (VObj spec) =
    Done (" ORDER BY " +:+ Str.join ", " (sort_term_text c <$> spec)).
Proof.
  intros Hall. unfold _computeSortClause.
  cbn [JS.is_truthy JS.instanceof_Object negb JS.enumerable].
  now rewrite sort_terms_done.
Qed.

Lemma sort_clause_terms_witness :
  _computeSortClause simple_collection (VObj [("a", VNum 1); ("b.c", VStr "descending")]) =
    Done (" ORDER BY " +:+ _computeDbProp simple_collection "a" +:+ " ASC, " +:+
          _computeDbProp simple_collection "b.c" +:+ " DESC") /\
  _computeSortClause simple_collection (VObj []) = Done " ORDER BY ".
Proof.
  split.
  - apply (sort_clause_terms simple_collection [("a", VNum 1); ("b.c", VStr "descending")]).
    reflexivity.
  - apply (sort_clause_terms simple_collection []). reflexivity.
Defined.

(** X25.  The sort clause fails on the first key whose direction is not one
    of 1, -1, asc, ascending, desc and descending, naming that key. *)
Theorem sort_clause_first_unknown (c : Collection) (pre post : list (string * value))
    (key : string) (d : value) :
  forallb known_direction pre = true ->
  sort_direction d = None ->
  _computeSortClause c (VObj (pre ++ (key, d) :: post)) = Raised (UnknownSortField key).
Proof.
  intros Hpre Hd. unfold _computeSortClause.
  cbn [JS.is_truthy JS.instanceof_Object negb JS.enumerable].
  rewrite mapO_app, (sort_terms_done c pre Hpre).
  cbn [mapO]. unfold sort_term at 1. cbn [fst snd]. now rewrite Hd.
Qed.

Lemma sort_clause_first_unknown_witness :
  _computeSortClause simple_collection
    (VObj ([("a", VStr "asc")] ++ ("b", VBool true) :: [("c", VNum 2)]))
  = Raised (UnknownSortField "b").
Proof.
  apply (sort_clause_first_unknown simple_collection [("a", VStr "asc")] [("c", VNum 2)] "b"
           (VBool true)); reflexivity.
Defined.

(** ** The operators of a computed projection *)

(** X26.  The operators that join their operands: on an array they render
    the operands between the opening text and a closing parenthesis; on
    anything else the shape guard does not fire and the call ends in a
    [TypeError]. *)
Theorem joined_operator_renders (c : Collection) (op opening sep : string) :
  In (op, (opening, sep)) joined_operators ->
  (forall vs,
     _computePrjOperators c op (VArr vs) =
       match mapO (_computePrjOperands c) vs with
       | Done rs => Done (opening +:+ Str.join sep rs +:+ ")")
       | Raised e => Raised e
       end) /\
  (forall params, (forall vs, params <> VArr vs) ->
     _computePrjOperators c op params = Raised OpTypeError).
Proof.
  intros Hin. unfold joined_operators in Hin. cbn [In] in Hin.
  repeat (destruct Hin as [[= <- <- <-]|Hin];
          [split; [intros vs; reflexivity
                  |intros params Hp; destruct params; try reflexivity;
                   exfalso; eapply Hp; reflexivity]|]).
  contradiction.
Qed.

Lemma joined_operator_renders_witness :
  _computePrjOperators simple_collection "$multiply" (VArr [VStr "$price"; VNum 2]) =
    Done ("(" +:+ _computeDbProp simple_collection "price" +:+ " * 2)") /\
  _computePrjOperators simple_collection "$multiply" (VNum 5) = Raised OpTypeError.
Proof.
  destruct (joined_operator_renders simple_collection "$multiply" _ _ (or_introl eq_refl))
    as [H1 H2].
  split; [rewrite H1; reflexivity | apply H2; discriminate].
Defined.

Lemma existsb_eqb_false (op : string) (l : list string) :
  ~ In op l -> existsb (String.eqb op) l = false.
Proof.
  induction l as [|s l IH]; [reflexivity|]. cbn [In existsb]. intros H.
  rewrite IH by tauto. destruct (String.eqb_spec op s) as [->|]; [tauto | reflexivity].
Qed.

(** X27.  A name that starts with a dollar sign and is not one of the
    operators of the ladder is refused as an unsupported operator, whatever
    its parameters. *)
Theorem unsupported_operator_rejected (c : Collection) (op : string) (params : value) :
  Str.startsWith "$" op = true ->
  ~ In op projection_operators ->
  _computePrjOperators c op params = Raised (UnsupportedOperator op).
Proof.
  intros Hs Hnot. apply existsb_eqb_false in Hnot.
  unfold projection_operators in Hnot. cbn [existsb] in Hnot.
  repeat match type of Hnot with
         | (_ || _) = false =>
             let H := fresh "Hop" in
             apply orb_false_elim in Hnot as [H Hnot]
         end.
  destruct params; cbn [_computePrjOperators]; rewrite Hs; cbn [negb];
    repeat match goal with
           | H : String.eqb op _ = false |- _ => rewrite H; clear H
           end;
    reflexivity.
Qed.

Lemma unsupported_operator_rejected_witness :
  _computePrjOperators simple_collection "$filter" (VArr []) = Raised (UnsupportedOperator "$filter").
Proof.
  apply (unsupported_operator_rejected simple_collection "$filter" (VArr [])); [reflexivity|].
  unfold projection_operators. cbn [In]. intuition discriminate.
Defined.

(** ** A computed field in a projection *)

Lemma prj_segments_plain (s cur : string) (first : bool) :
  Str.includes "." s = false -> prj_segments_from first cur s = [cur +:+ s].
Proof.
  revert cur first. induction s as [|a s IH]; intros cur first H.
  - simpl. now rewrite append_empty_r.
  - cbn [Str.includes] in H. cbn [prj_segments_from].
    rewrite Ascii.eqb_sym. destruct (Ascii.eqb "." a); [discriminate|].
    rewrite IH by assumption. now rewrite append_assoc.
Qed.

Lemma operator_object_not_flag (op : string) (params : value) :
  is_one (VObj [(op, params)]) = false /\ is_zero (VObj [(op, params)]) = false.
Proof. split; reflexivity. Qed.

(** X28.  A projection with one computed field, whose name has no dot and is
    not a name that objects inherit from [Object.prototype], needs no schema:
    it compiles to the key columns followed by the text of the operator under
    the field's name, and an error of the operator is the error of the
    projection. *)
Theorem computed_field_needs_no_schema (ops : string -> value -> Res string) (c : Collection)
    (field op : string) (params : value) (schema : option Schema) :
  field <> "_id" ->
  inherited field = false ->
  Str.includes "." field = false ->
  Str.startsWith "$" op = true ->
  _conputeProjection ops c (VObj [(field, VObj [(op, params)])]) schema =
    match ops op params with
    | Ok text =>
        Ok (Str.join ", " (List.map (fun k => _computeDbProp c k +:+ " AS " +:+ k)
                                    (_primaryKeyList c)) +:+ ", " +:+
            text +:+ " AS " +:+ field)
    | Throw e => Throw e
    end.
Proof.
  intros Hid _ Hdot Hop. apply String.eqb_neq in Hid.
  unfold _conputeProjection.
  cbn [JS.is_truthy negb JS.enumerable prj_scan]. rewrite Hid.
  destruct (operator_object_not_flag op params) as [H1 H0]. rewrite H1, H0.
  unfold _computePrjObjDeep. rewrite prj_segments_plain by assumption. rewrite append_nil.
  cbn [prj_insert]. unfold ensure_prop.
  cbn [prop_undefined JS.get_prop JS.obj_get default from_option id JS.not_nullish negb
       assign_prop JS.obj_set Z.eqb orb JS.enumerable prj_render Str.is_empty].
  rewrite H1, H0. cbn [_computePrjDeep Str.is_empty negb]. rewrite Hop.
  destruct (ops op params) as [text|e]; [|reflexivity].
  cbn [JS.get_prop JS.obj_get]. rewrite (String.eqb_sym "_id" field), Hid.
  cbn [default from_option id JS.not_nullish negb orb]. rewrite append_nil. reflexivity.
Qed.

Lemma computed_field_needs_no_schema_witness :
  _conputeProjection (operators_as (fun _ => UnsupportedType) simple_collection) simple_collection
    (VObj [("total", VObj [("$multiply", VArr [VStr "$price"; VStr "$qty"])])]) None
  = Ok (_computeDbProp simple_collection "kvid" +:+ " AS kvid, (" +:+
        _computeDbProp simple_collection "price" +:+ " * " +:+
        _computeDbProp simple_collection "qty" +:+ ") AS total").
Proof.
  rewrite (computed_field_needs_no_schema
             (operators_as (fun _ => UnsupportedType) simple_collection) simple_collection
             "total" "$multiply" (VArr [VStr "$price"; VStr "$qty"]) None);
    [reflexivity | discriminate | reflexivity | reflexivity | reflexivity].
Defined.

(** ** Exclusions *)

Lemma ensure_prop_throws (o : value) (k : string) (v : value) (e : Err) :
  ensure_prop o k v = Throw e -> e = TypeError.
Proof.
  unfold ensure_prop, assign_prop. destruct (prop_undefined o k); [|discriminate].
  destruct o; intros [= <-] || discriminate; reflexivity.
Qed.

Lemma prj_insert_throws (segs : list string) (v : value) :
  forall (o : value) (e : Err), prj_insert segs v o = Throw e -> e = TypeError.
Proof.
  induction segs as [|seg segs IH]; intros o e; [discriminate|].
  destruct segs as [|seg' segs].
  - simpl. apply ensure_prop_throws.
  - change (prj_insert (seg :: seg' :: segs) v o)
      with (match ensure_prop o seg (VObj []) with
            | Throw e => Throw e
            | Ok prjObj =>
                match prj_insert (seg' :: segs) v (JS.get_prop prjObj seg) with
                | Ok inner => Ok (update_prop prjObj seg inner)
                | Throw e => Throw e
                end
            end).
    destruct (ensure_prop o seg (VObj [])) as [o'|e'] eqn:E.
    + destruct (prj_insert (seg' :: segs) v (JS.get_prop o' seg)) as [i|e''] eqn:E';
        [discriminate|].
      intros [= <-]. eapply IH. exact E'.
    + intros [= <-]. eapply ensure_prop_throws. exact E.
Qed.

Lemma prj_scan_exclusions (ps : list (string * value)) :
  forallb excludes ps = true ->
  forall (prjType : Z) (prjObj : value),
    (prjType = 0 \/ prjType = -1)%Z ->
    match prj_scan ps prjType prjObj with
    | Ok (t, _) => (t = 0 \/ t = -1)%Z
    | Throw e => e = TypeError
    end.
Proof.
  induction ps as [|[prop v] ps IH]; intros Hall prjType prjObj Ht; [exact Ht|].
  cbn [forallb] in Hall. apply andb_prop in Hall as [Hx Hall].
  unfold excludes in Hx. cbn [fst snd] in Hx. cbn [prj_scan].
  destruct (String.eqb prop "_id"); [now apply IH|]. cbn [orb] in Hx.
  assert (is_one v = false) as ->.
  { destruct (is_one v) eqn:E; [|reflexivity]. apply is_one_not_zero in E. congruence. }
  rewrite Hx.
  assert ((prjType =? 1)%Z = false) as -> by (apply Z.eqb_neq; lia).
  destruct (_computePrjObjDeep prjObj prop v) as [o'|e] eqn:E.
  - apply IH; [assumption | now right].
  - unfold _computePrjObjDeep in E. eapply prj_insert_throws. exact E.
Qed.

(** X29.  A projection made of exclusions only (and of [_id]) never compiles
    without a schema: it throws that the schema is missing, or a [TypeError]
    when two of its paths clash. *)
Theorem exclusions_need_schema (ops : string -> value -> Res string) (c : Collection)
    (ps : list (string * value)) :
  forallb excludes ps = true ->
  _conputeProjection ops c (VObj ps) None = Throw SchemaNotProvided \/
  _conputeProjection ops c (VObj ps) None = Throw TypeError.
Proof.
  intros Hall. unfold _conputeProjection. cbn [JS.is_truthy negb JS.enumerable].
  pose proof (prj_scan_exclusions ps Hall 0%Z (VObj []) (or_introl eq_refl)) as H.
  destruct (prj_scan ps 0 (VObj [])) as [[t o]|e].
  - left. destruct H as [-> | ->]; reflexivity.
  - right. now subst.
Qed.

Lemma exclusions_need_schema_witness :
  _conputeProjection (fun _ _ => Ok EmptyString) simple_collection
    (VObj [("secret", VNum 0); ("_id", VNum 1)]) None = Throw SchemaNotProvided \/
  _conputeProjection (fun _ _ => Ok EmptyString) simple_collection
    (VObj [("secret", VNum 0); ("_id", VNum 1)]) None = Throw TypeError.
Proof.
  apply (exclusions_need_schema (fun _ _ => Ok EmptyString) simple_collection
           [("secret", VNum 0); ("_id", VNum 1)]).
  reflexivity.
Defined.

(** ** Instances *)

Lemma in_filter_compiles_witness :
  exists text ob',
    _computeCompExp simple_collection (in_filter "qty" [VNum 1; VNull; VNum 3]) (Some ∅)
      = Ok (text, ob').
Proof.
  apply (in_filter_compiles simple_collection "qty" [VNum 1; VNull; VNum 3] ∅); [reflexivity|].
  rewrite map_size_empty. unfold MAX_BINDING_NAME. simpl. lia.
Defined.

